(** * Verification of the stenographer thread tracker (thread/thread.go)

    A shallow embedding of package [thread]: the tracked file map, the
    discovery pass ([syncFilesWithDisk]), the eviction loop
    ([cleanUpOnLowDiskSpace]), the fan-out of [Lookup], the reader/writer
    lock discipline of [Lookup] and [SyncFiles], and the [/positions] debug
    handler.

    Everything the package obtains from outside (the directory listing, the
    result of opening a blockfile, of [os.Remove], of the disk-free
    measurement, the clock) is an oracle stored in a [World]; every
    externally visible action is appended to the world's event trace. *)

From Stdlib Require Import ZArith String Ascii List Lia.
From stdpp Require Import base option list gmap sets strings sorting.

Local Open Scope string_scope.
Local Open Scope Z_scope.
Local Open Scope list_scope.

#[local] Set Default Proof Using "Type".

(** ** Byte-wise lexicographic order on strings ([sort.Strings]) *)

Module StringOrder.

Definition string_le (a b : string) : Prop := String.leb a b = true.

#[export] Instance string_le_dec : RelDecision string_le.
Proof. intros a b. unfold string_le. apply _. Defined.

(** Strictly smaller: what Go writes [a < b] on strings. *)
Definition string_lt (a b : string) : Prop := String.ltb a b = true.

End StringOrder.
Export StringOrder.

(** ** Data model *)

(** Go [error] values.  [ErrExt] stands for an error produced outside the
    package (operating system, blockfile, base); the other two are the
    [fmt.Errorf] values built by [trackNewFile] and [untrackFile]. *)
Inductive error : Type :=
| ErrExt (msg : string)
| ErrCouldNotOpen (path : string) (cause : error)
| ErrNotMonitored (path : string) (thread : Z).

(** [time.Time], as a number of milliseconds. *)
Definition Time : Type := Z.

(** The three fields of [config.ThreadConfig] the package reads. *)
Record ThreadConfig : Type := {
  PacketsDirectory : string;
  IndexDirectory : string;
  DiskFreePercentage : Z
}.

(** A [*blockfile.BlockFile]: the pointer's identity and the file's name. *)
Record BlockFile : Type := { bf_name : string; bf_id : nat }.

#[export] Instance BlockFile_eq_dec : EqDecision BlockFile.
Proof. solve_decision. Defined.

(** [sync.RWMutex]: the number of read holds and whether the write hold is
    taken. *)
Record RWMutex : Type := { readers : nat; writer : bool }.

(** The four operations; [None] where the call cannot proceed (the two
    locking calls wait, the two unlocking calls are fatal errors).  A
    [Lock] call that waits behind readers is not part of the record: Go
    makes an [RLock] that arrives after it wait as well, [RWMutex_RLock]
    grants it.  The record thus admits every interleaving Go admits and
    some more, which is the safe side for what holds in all reachable
    states. *)
Definition RWMutex_RLock (m : RWMutex) : option RWMutex :=
  if writer m then None
  else Some {| readers := S (readers m); writer := false |}.

Definition RWMutex_RUnlock (m : RWMutex) : option RWMutex :=
  match readers m with
  | O => None
  | S n => Some {| readers := n; writer := writer m |}
  end.

Definition RWMutex_Lock (m : RWMutex) : option RWMutex :=
  if writer m then None
  else match readers m with
       | O => Some {| readers := O; writer := true |}
       | S _ => None
       end.

Definition RWMutex_Unlock (m : RWMutex) : option RWMutex :=
  if writer m then Some {| readers := readers m; writer := false |}
  else None.

Record Thread : Type := {
  id : Z;
  conf : ThreadConfig;
  indexPath : string;
  packetPath : string;
  files : gmap string BlockFile;
  mu : RWMutex;
  fileLastSeen : Time
}.

(** [os.FileInfo], as far as [listPacketFilesOnDisk] looks at it. *)
Record FileInfo : Type := { Name : string; IsDir : bool }.

(** The [log.Printf] sites of the package. *)
Inductive LogMsg : Type :=
| LogErrorTracking (thread : Z) (filename : string) (err : error)
| LogCouldNotReadDir (thread : Z) (path : string) (err : error)
| LogCouldNotGetFree (thread : Z) (path : string) (err : error)
| LogNoFilesAvailable (thread : Z)
| LogCouldNotDelete (thread : Z) (err : error).

(** The verbose-logging sites ([v(level, ...)]). *)
Inductive VMsg : Type :=
| VFoundNew (thread : Z) (cnt : Z)
| VNewBlockfile (path : string)
| VDiskSufficient (thread : Z) (df threshold : Z)
| VDiskHigh (thread : Z) (path : string) (df : Z)
| VRemoving (thread : Z) (filename : string)
| VUntracking (thread : Z) (filename : string)
| VOldBlockfile (thread : Z) (name : string).

(** What the package does to the outside, in the order it does it. *)
Inductive Event : Type :=
| EvLog (m : LogMsg)
| EvV (level : Z) (m : VMsg)
| EvReadDir (path : string)
| EvOpen (path : string) (r : option error)
| EvMeasure (path : string) (r : Z + error)
| EvRemove (path : string) (r : option error)
| EvClose (b : BlockFile)
| EvSleep (ms : Z).

(** The outside world: oracles for the calls that leave the package, the
    clock, the blockfile handles closed so far and the event trace (oldest
    event first). [w_df] is the sequence of answers the disk-free
    measurement is going to give, one per call. *)
Record World : Type := {
  w_ReadDir : string -> list FileInfo + error;
  w_NewBlockFile : string -> option error;
  w_Remove : string -> option error;
  w_df : list (Z + error);
  w_now : Time;
  w_next_handle : nat;
  w_closed : list BlockFile;
  w_trace : list Event
}.

Record State : Type := { thr : Thread; world : World }.

(** ** The effect monad *)

(** A call returns, panics (Go run-time panic), cannot proceed because the
    lock is held ([Blocked]), or is still running when the scripted
    measurements of the world are used up ([Starved]). *)
Inductive Outcome (A : Type) : Type :=
| Ret (a : A) (s : State)
| Panic (s : State)
| Blocked (s : State)
| Starved (s : State).
Arguments Ret {A} a s.
Arguments Panic {A} s.
Arguments Blocked {A} s.
Arguments Starved {A} s.

Definition M (A : Type) : Type := State -> Outcome A.

Definition ret {A} (a : A) : M A := fun s => Ret a s.

Definition bind {A B} (m : M A) (k : A -> M B) : M B := fun s =>
  match m s with
  | Ret a s' => k a s'
  | Panic s' => Panic s'
  | Blocked s' => Blocked s'
  | Starved s' => Starved s'
  end.

Declare Scope go_scope.
Delimit Scope go_scope with go.
Notation "'do' x <- m ; k" := (bind m (fun x => k))
  (at level 10, x name, m at level 100, k at level 200) : go_scope.
Notation "'do_' m ; k" := (bind m (fun _ => k))
  (at level 10, m at level 100, k at level 200) : go_scope.
Local Open Scope go_scope.

Definition panic {A} : M A := fun s => Panic s.
Definition get_thread : M Thread := fun s => Ret (thr s) s.

Definition with_thread (f : Thread -> Thread) : M unit := fun s =>
  Ret tt {| thr := f (thr s); world := world s |}.
Definition with_world (f : World -> World) : M unit := fun s =>
  Ret tt {| thr := thr s; world := f (world s) |}.

Definition set_files (m : gmap string BlockFile) (t : Thread) : Thread :=
  {| id := id t; conf := conf t; indexPath := indexPath t;
     packetPath := packetPath t; files := m; mu := mu t;
     fileLastSeen := fileLastSeen t |}.
Definition set_fileLastSeen (x : Time) (t : Thread) : Thread :=
  {| id := id t; conf := conf t; indexPath := indexPath t;
     packetPath := packetPath t; files := files t; mu := mu t;
     fileLastSeen := x |}.
Definition set_mu (m : RWMutex) (t : Thread) : Thread :=
  {| id := id t; conf := conf t; indexPath := indexPath t;
     packetPath := packetPath t; files := files t; mu := m;
     fileLastSeen := fileLastSeen t |}.

Definition with_mu (m : RWMutex) (s : State) : State :=
  {| thr := set_mu m (thr s); world := world s |}.

Definition push_event (e : Event) (w : World) : World :=
  {| w_ReadDir := w_ReadDir w; w_NewBlockFile := w_NewBlockFile w;
     w_Remove := w_Remove w; w_df := w_df w; w_now := w_now w;
     w_next_handle := w_next_handle w; w_closed := w_closed w;
     w_trace := w_trace w ++ [e] |}.
Definition set_df (l : list (Z + error)) (w : World) : World :=
  {| w_ReadDir := w_ReadDir w; w_NewBlockFile := w_NewBlockFile w;
     w_Remove := w_Remove w; w_df := l; w_now := w_now w;
     w_next_handle := w_next_handle w; w_closed := w_closed w;
     w_trace := w_trace w |}.
Definition set_now (x : Time) (w : World) : World :=
  {| w_ReadDir := w_ReadDir w; w_NewBlockFile := w_NewBlockFile w;
     w_Remove := w_Remove w; w_df := w_df w; w_now := x;
     w_next_handle := w_next_handle w; w_closed := w_closed w;
     w_trace := w_trace w |}.
Definition set_next_handle (n : nat) (w : World) : World :=
  {| w_ReadDir := w_ReadDir w; w_NewBlockFile := w_NewBlockFile w;
     w_Remove := w_Remove w; w_df := w_df w; w_now := w_now w;
     w_next_handle := n; w_closed := w_closed w;
     w_trace := w_trace w |}.
Definition add_closed (b : BlockFile) (w : World) : World :=
  {| w_ReadDir := w_ReadDir w; w_NewBlockFile := w_NewBlockFile w;
     w_Remove := w_Remove w; w_df := w_df w; w_now := w_now w;
     w_next_handle := w_next_handle w; w_closed := b :: w_closed w;
     w_trace := w_trace w |}.

Definition emit (e : Event) : M unit := with_world (push_event e).

(** [log.Printf] and the verbose logger [v]. *)
Definition log_Printf (m : LogMsg) : M unit := emit (EvLog m).
Definition v (level : Z) (m : VMsg) : M unit := emit (EvV level m).

(** ** Calls that leave the package *)

(** [ioutil.ReadDir]. *)
Definition ioutil_ReadDir (path : string) : M (list FileInfo + error) := fun s =>
  Ret (w_ReadDir (world s) path)
      {| thr := thr s; world := push_event (EvReadDir path) (world s) |}.

(** [blockfile.NewBlockFile]: on success a fresh handle. *)
Definition NewBlockFile (path : string) : M (BlockFile + error) := fun s =>
  let w := world s in
  match w_NewBlockFile w path with
  | Some err =>
      Ret (inr err)
          {| thr := thr s; world := push_event (EvOpen path (Some err)) w |}
  | None =>
      Ret (inl {| bf_name := path; bf_id := w_next_handle w |})
          {| thr := thr s;
             world := push_event (EvOpen path None)
                        (set_next_handle (S (w_next_handle w)) w) |}
  end.

(** [BlockFile.Close]. *)
Definition bf_Close (b : BlockFile) : M unit :=
  with_world (fun w => push_event (EvClose b) (add_closed b w)).

(** [os.Remove]. *)
Definition os_Remove (path : string) : M (option error) := fun s =>
  let r := w_Remove (world s) path in
  Ret r {| thr := thr s; world := push_event (EvRemove path r) (world s) |}.

(** [base.PathDiskFreePercentage]: the next scripted answer. *)
Definition PathDiskFreePercentage (path : string) : M (Z + error) := fun s =>
  match w_df (world s) with
  | [] => Starved s
  | r :: rest =>
      Ret r {| thr := thr s;
               world := push_event (EvMeasure path r) (set_df rest (world s)) |}
  end.

(** [time.Now] and [time.Sleep]. *)
Definition time_Now : M Time := fun s => Ret (w_now (world s)) s.
Definition time_Sleep (ms : Z) : M unit :=
  with_world (fun w => push_event (EvSleep ms) (set_now (w_now w + ms) w)).

(** ** The package *)

Section Package.

(** [filepath.Join] and [indexfile.BlockfilePathFromIndexPath] are not part
    of this package. *)
Variable filepath_Join : string -> string -> string.
Variable BlockfilePathFromIndexPath : string -> string.

Definition getPacketFilePath (t : Thread) (filename : string) : string :=
  filepath_Join (packetPath t) filename.

Definition getIndexFilePath (t : Thread) (filename : string) : string :=
  filepath_Join (indexPath t) filename.

(** [getSortedFiles]: the keys of [t.files], collected in the map's
    iteration order and sorted with [sort.Strings]. *)
Definition getSortedFiles (t : Thread) : list string :=
  merge_sort string_le ((map_to_list (files t)).*1).

(** [untrackFile]. *)
Definition untrackFile (filename : string) : M (option error) :=
  do t <- get_thread;
  do_ v 1 (VUntracking (id t) filename);
  match files t !! filename with
  | None =>
      ret (Some (ErrNotMonitored (getPacketFilePath t filename) (id t)))
  | Some b =>
      do_ v 1 (VOldBlockfile (id t) (bf_name b));
      do_ bf_Close b;
      do_ with_thread (fun t => set_files (delete filename (files t)) t);
      ret None
  end.

(** [deleteOldestThreadFile]; indexing the empty slice panics. *)
Definition deleteOldestThreadFile : M (option error) :=
  do t <- get_thread;
  match getSortedFiles t with
  | [] => panic
  | oldestFile :: _ =>
      do_ v 1 (VRemoving (id t) oldestFile);
      do e1 <- os_Remove (getPacketFilePath t oldestFile);
      match e1 with
      | Some err => ret (Some err)
      | None =>
          do e2 <- os_Remove (getIndexFilePath t oldestFile);
          match e2 with
          | Some err => ret (Some err)
          | None => untrackFile oldestFile
          end
      end
  end.

(** One pass through the body of the [for] loop of
    [cleanUpOnLowDiskSpace]: [false] where the body executes [return],
    [true] where it reaches the end of the body and the loop goes round
    again. *)
Definition cleanUp_iteration : M bool :=
  do t <- get_thread;
  do r <- PathDiskFreePercentage (packetPath t);
  match r with
  | inr err =>
      do_ log_Printf (LogCouldNotGetFree (id t) (packetPath t) err);
      ret false
  | inl df =>
      if df >? DiskFreePercentage (conf t) then
        do_ v 1 (VDiskSufficient (id t) df (DiskFreePercentage (conf t)));
        ret false
      else
        do_ v 0 (VDiskHigh (id t) (packetPath t) df);
        if decide (size (files t) = 0%nat) then
          do_ log_Printf (LogNoFilesAvailable (id t));
          do_ time_Sleep 100;
          ret true
        else
          do e <- deleteOldestThreadFile;
          match e with
          | Some err =>
              do_ log_Printf (LogCouldNotDelete (id t) err);
              ret false
          | None =>
              do_ time_Sleep 100;
              ret true
          end
  end.

(** The [for] loop; [fuel] bounds the number of iterations. *)
Fixpoint cleanUp_loop (fuel : nat) : M unit :=
  match fuel with
  | O => fun s => Starved s
  | S fuel' =>
      do again <- cleanUp_iteration;
      if again then cleanUp_loop fuel' else ret tt
  end.

(** [cleanUpOnLowDiskSpace].  Every iteration consumes one scripted
    measurement, so one more iteration than there are measurements is
    enough for the loop to either return or use the script up. *)
Definition cleanUpOnLowDiskSpace : M unit := fun s =>
  cleanUp_loop (S (length (w_df (world s)))) s.

(** [listPacketFilesOnDisk], the [for] loop over the directory entries.
    [file.Name()[0]] panics on an empty name; it is evaluated only when
    [file.IsDir()] is false. *)
Fixpoint listing_loop (entries : list FileInfo) (out : list string)
  : M (list string) :=
  match entries with
  | [] => ret out
  | file :: rest =>
      if IsDir file then listing_loop rest out
      else
        match Name file with
        | EmptyString => panic
        | String c _ =>
            if decide (c = "."%char) then listing_loop rest out
            else listing_loop rest
                   (out ++ [BlockfilePathFromIndexPath (Name file)])
        end
  end.

(** [listPacketFilesOnDisk]. *)
Definition listPacketFilesOnDisk : M (list string) :=
  do t <- get_thread;
  do r <- ioutil_ReadDir (indexPath t);
  match r with
  | inr err =>
      do_ log_Printf (LogCouldNotReadDir (id t) (indexPath t) err);
      ret []
  | inl entries => listing_loop entries []
  end.

(** [trackNewFile]. *)
Definition trackNewFile (filename : string) : M (option error) :=
  do t <- get_thread;
  let filepath := filepath_Join (packetPath t) filename in
  do r <- NewBlockFile filepath;
  match r with
  | inr err => ret (Some (ErrCouldNotOpen filepath err))
  | inl bf =>
      do_ v 1 (VNewBlockfile filepath);
      do_ with_thread (fun t => set_files (<[filename := bf]> (files t)) t);
      ret None
  end.

(** The body of the [for] loop of [syncFilesWithDisk] for one candidate;
    the result is the value of [newFilesCnt] after it (both [continue]
    statements leave the counter as it is). *)
Definition sync_iteration (filename : string) (newFilesCnt : Z) : M Z :=
  do t <- get_thread;
  if decide (is_Some (files t !! filename)) then ret newFilesCnt
  else
    do e <- trackNewFile filename;
    match e with
    | Some err =>
        do_ log_Printf (LogErrorTracking (id t) filename err);
        ret newFilesCnt
    | None =>
        do now <- time_Now;
        do_ with_thread (set_fileLastSeen now);
        ret (newFilesCnt + 1)
    end.

(** The [for] loop of [syncFilesWithDisk]. *)
Fixpoint sync_loop (names : list string) (newFilesCnt : Z) : M Z :=
  match names with
  | [] => ret newFilesCnt
  | filename :: rest =>
      do newFilesCnt' <- sync_iteration filename newFilesCnt;
      sync_loop rest newFilesCnt'
  end.

(** [syncFilesWithDisk]. *)
Definition syncFilesWithDisk : M unit :=
  do names <- listPacketFilesOnDisk;
  do newFilesCnt <- sync_loop names 0;
  do t <- get_thread;
  if newFilesCnt >? 0 then v 0 (VFoundNew (id t) newFilesCnt) else ret tt.

(** [t.mu.Lock()] and [t.mu.Unlock()] as one caller sees them: [Lock]
    cannot proceed while any hold is out; [Unlock] of a mutex that is not
    write-locked is a fatal run-time error. *)
Definition mu_Lock : M unit := fun s =>
  match RWMutex_Lock (mu (thr s)) with
  | None => Blocked s
  | Some m => Ret tt (with_mu m s)
  end.

Definition mu_Unlock : M unit := fun s =>
  match RWMutex_Unlock (mu (thr s)) with
  | None => Panic s
  | Some m => Ret tt (with_mu m s)
  end.

(** [SyncFiles]. *)
Definition SyncFiles : M unit :=
  do_ mu_Lock;
  do_ syncFilesWithDisk;
  do_ cleanUpOnLowDiskSpace;
  mu_Unlock.

End Package.

(** ** Observations on outcomes and traces *)

(** The state a call leaves behind, however it ends. *)
Definition state_of {A} (o : Outcome A) : State :=
  match o with
  | Ret _ s | Panic s | Blocked s | Starved s => s
  end.

(** The state after running [m] from [s]. *)
Definition exec {A} (m : M A) (s : State) : State := state_of (m s).

(** The state right after a disk-free measurement answered [r], with
    [rest] the answers still to come. *)
Definition measured_state (s : State) (r : Z + error)
    (rest : list (Z + error)) : State :=
  {| thr := thr s;
     world := push_event (EvMeasure (packetPath (thr s)) r)
                (set_df rest (world s)) |}.

(** What neither discovery nor eviction touches in the thread. *)
Definition same_config (t t' : Thread) : Prop :=
  id t' = id t ∧ conf t' = conf t ∧ indexPath t' = indexPath t ∧
  packetPath t' = packetPath t ∧ mu t' = mu t.

(** The oracles of the world: the program does not change what the outside
    is going to answer. *)
Definition same_oracles (w w' : World) : Prop :=
  w_ReadDir w' = w_ReadDir w ∧ w_NewBlockFile w' = w_NewBlockFile w ∧
  w_Remove w' = w_Remove w.

(** What discovery leaves alone in the world: it only opens handles and
    writes to the trace. *)
Definition discovery_frame (w w' : World) : Prop :=
  same_oracles w w' ∧ w_df w' = w_df w ∧ w_now w' = w_now w ∧
  w_closed w' = w_closed w ∧ (w_next_handle w ≤ w_next_handle w')%nat.

(** Invariant I1 of the tracked set: every tracked handle was handed out by
    [NewBlockFile] and is open, no handle is tracked under two names, and
    only handles that were handed out have been closed. *)
Definition handles_ok (s : State) : Prop :=
  (∀ n b, files (thr s) !! n = Some b →
          (bf_id b < w_next_handle (world s))%nat ∧ b ∉ w_closed (world s)) ∧
  (∀ n1 n2 b1 b2, files (thr s) !! n1 = Some b1 →
                  files (thr s) !! n2 = Some b2 →
                  bf_id b1 = bf_id b2 → n1 = n2) ∧
  (∀ b, b ∈ w_closed (world s) → (bf_id b < w_next_handle (world s))%nat).

Definition returned {A} (o : Outcome A) : bool :=
  match o with Ret _ _ => true | _ => false end.

Definition panicked {A} (o : Outcome A) : bool :=
  match o with Panic _ => true | _ => false end.

(** Paths whose [os.Remove] succeeded, in order. *)
Definition removed (tr : list Event) : list string :=
  omap (fun e => match e with EvRemove p None => Some p | _ => None end) tr.

(** Handles closed, in order. *)
Definition closed_in (tr : list Event) : list BlockFile :=
  omap (fun e => match e with EvClose b => Some b | _ => None end) tr.

(** Messages written with [log.Printf], in order. *)
Definition logged (tr : list Event) : list LogMsg :=
  omap (fun e => match e with EvLog m => Some m | _ => None end) tr.

(** Disk-free measurements taken, in order. *)
Definition measured (tr : list Event) : list (Z + error) :=
  omap (fun e => match e with EvMeasure _ r => Some r | _ => None end) tr.

(** Number of leading measurements that succeed with a value at or below
    the threshold. *)
Fixpoint low_prefix (threshold : Z) (ms : list (Z + error)) : nat :=
  match ms with
  | inl df :: rest =>
      if df >? threshold then O else S (low_prefix threshold rest)
  | _ => O
  end.

(** ** Directory entries as discovery sees them *)

Definition starts_with_dot (name : string) : bool :=
  match name with
  | String c _ => bool_decide (c = "."%char)
  | EmptyString => false
  end.

(** Entries that are neither a directory nor dot-prefixed. *)
Definition listed (f : FileInfo) : bool :=
  negb (IsDir f) && negb (starts_with_dot (Name f)).

(** What the operating system guarantees of the entries [Name()[0]] is
    evaluated on: a name is not empty. *)
Definition well_named (f : FileInfo) : Prop := IsDir f = false → Name f ≠ "".

#[export] Instance well_named_dec f : Decision (well_named f).
Proof. unfold well_named. apply _. Defined.

Section Candidates.

Variable filepath_Join : string -> string -> string.
Variable BlockfilePathFromIndexPath : string -> string.

(** Blockfile names derived from the listed entries. *)
Definition candidates (entries : list FileInfo) : list string :=
  map (fun f => BlockfilePathFromIndexPath (Name f)) (filter listed entries).

(** The candidates discovery is going to see in state [s]. *)
Definition disk_candidates (s : State) : list string :=
  match w_ReadDir (world s) (indexPath (thr s)) with
  | inl entries => candidates entries
  | inr _ => []
  end.

Definition disk_well_named (s : State) : Prop :=
  match w_ReadDir (world s) (indexPath (thr s)) with
  | inl entries => Forall well_named entries
  | inr _ => True
  end.

(** What opening the blockfile of candidate [n] is going to answer. *)
Definition open_error (s : State) (n : string) : option error :=
  w_NewBlockFile (world s) (filepath_Join (packetPath (thr s)) n).

(** Candidates that are not tracked yet and whose blockfile opens. *)
Definition newly_tracked (s : State) (names : list string) : list string :=
  filter (fun n => files (thr s) !! n = None ∧ open_error s n = None) names.

(** The messages discovery logs for the candidates that are not tracked
    and whose blockfile does not open, one per occurrence. *)
Definition tracking_errors (s : State) (names : list string) : list LogMsg :=
  omap (fun n =>
          match files (thr s) !! n, open_error s n with
          | None, Some err =>
              Some (LogErrorTracking (id (thr s)) n
                      (ErrCouldNotOpen (filepath_Join (packetPath (thr s)) n) err))
          | _, _ => None
          end) names.

(** The tracked set a discovery cycle should leave behind according to
    the specification: the names derived from the index artifacts on disk
    before the cycle, minus those whose handle does not open. *)
Definition disk_minus_failed (s : State) : gset string :=
  list_to_set (filter (fun n => open_error s n = None) (disk_candidates s)).

(** The message discovery logs when the index directory cannot be read. *)
Definition readdir_errors (s : State) : list LogMsg :=
  match w_ReadDir (world s) (indexPath (thr s)) with
  | inl _ => []
  | inr err => [LogCouldNotReadDir (id (thr s)) (indexPath (thr s)) err]
  end.

(** The first error among the two removals of the oldest file, if any. *)
Definition removal_error (s : State) (x : string) : option error :=
  match w_Remove (world s) (getPacketFilePath filepath_Join (thr s) x) with
  | Some err => Some err
  | None => w_Remove (world s) (getIndexFilePath filepath_Join (thr s) x)
  end.

(** The two on-disk artifacts of a tracked name, in the order
    [deleteOldestThreadFile] removes them. *)
Definition artifacts (t : Thread) (n : string) : list string :=
  [getPacketFilePath filepath_Join t n; getIndexFilePath filepath_Join t n].

End Candidates.

(** ** Lookup *)

Section LookupModel.

(** Packets, queries and the per-file query of package [blockfile] are not
    part of this package: [bf_Lookup b q] is the sequence of packets the
    open blockfile [b] sends for [q], in the file's own order. *)
Variable Packet : Type.
Variable Query : Type.
Variable bf_Lookup : BlockFile -> Query -> list Packet.

(** How far a stream gets before it is cancelled: all the way ([None]) or
    [Some k] elements. *)
Definition cut {A} (limit : option nat) (l : list A) : list A :=
  match limit with
  | None => l
  | Some k => take k l
  end.

(** A [context.Context] as [Lookup] and its helpers observe it:
    [fanout_limit] is the number of files admitted to [inputs] before
    [ctx.Done()] wins the [select]; [file_limit f] is where the per-file
    query of [f] stops producing; [out_limit] is where the merged stream
    stops. *)
Record Context : Type := {
  fanout_limit : option nat;
  file_limit : string -> option nat;
  out_limit : option nat
}.

Definition Background : Context :=
  {| fanout_limit := None; file_limit := fun _ => None; out_limit := None |}.

(** Modelled from the spec: [base.ConcatPacketChans], which package [base]
    defines (section 4.2: "consumes a stream-of-streams and emits a single
    flattened, order-preserving stream of packets", with early
    termination). *)
Definition ConcatPacketChans {A} (ctx : Context) (inputs : list (list A))
  : list A :=
  cut (out_limit ctx) (concat inputs).

(** The [for] loop of the goroutine of [Lookup]: every admitted file
    contributes the channel its per-file query writes to.  A packet is
    paired with the name of the file it comes from.  [None] is the nil
    dereference of [t.files[file]]. *)
Fixpoint Lookup_fanout (t : Thread) (ctx : Context) (q : Query)
    (names : list string) : option (list (list (string * Packet))) :=
  match names with
  | [] => Some []
  | file :: rest =>
      match files t !! file with
      | None => None
      | Some b =>
          let packets :=
            map (fun p => (file, p)) (cut (file_limit ctx file) (bf_Lookup b q)) in
          option_map (cons packets) (Lookup_fanout t ctx q rest)
      end
  end.

(** [Lookup]: what the consumer of the returned channel receives. *)
Definition Lookup (t : Thread) (ctx : Context) (q : Query)
  : option (list (string * Packet)) :=
  option_map (ConcatPacketChans ctx)
    (Lookup_fanout t ctx q (cut (fanout_limit ctx) (getSortedFiles t))).

End LookupModel.

(** ** Lookup and SyncFiles running concurrently *)

Module Conc.

(** Where the goroutine started by one [Lookup] call stands. *)
Inductive LookupPc : Type :=
| LSpawned                       (* RLock taken, goroutine not yet running *)
| LFanout (todo : list string)   (* in the [for] loop *)
| LDeferred                      (* the deferred function: [close(inputs)] *)
| LWaitDone                      (* [<-out.Done()] *)
| LRUnlock                       (* [t.mu.RUnlock()] *)
| LFinished.

(** One [Lookup] call: its goroutine, the handles its per-file queries
    were started on, and whether the merged stream has reported done. *)
Record LookupTask : Type := {
  l_pc : LookupPc;
  l_started : list BlockFile;
  l_out_done : bool
}.

(** Where one [SyncFiles] call stands. *)
Inductive SyncPc : Type :=
| SCalled       (* before [t.mu.Lock()] *)
| SDiscover     (* before [t.syncFilesWithDisk()] *)
| SCleanUp      (* before [t.cleanUpOnLowDiskSpace()] *)
| SUnlock       (* before [t.mu.Unlock()] *)
| SReturned.

Record System : Type := {
  sys_state : State;
  sys_lookups : list LookupTask;
  sys_syncs : list SyncPc
}.

(** A [Lookup] whose merged stream the consumer may still be draining. *)
Definition in_flight (l : LookupTask) : bool :=
  match l_pc l with
  | LSpawned | LFanout _ | LDeferred | LWaitDone => true
  | LRUnlock | LFinished => false
  end.

(** A [Lookup] that has not given its read hold back. *)
Definition holds_read (l : LookupTask) : bool :=
  match l_pc l with
  | LFinished => false
  | _ => true
  end.

(** A [SyncFiles] between [Lock] and [Unlock]. *)
Definition holds_write (p : SyncPc) : bool :=
  match p with
  | SDiscover | SCleanUp | SUnlock => true
  | SCalled | SReturned => false
  end.

(** Read holds and write holds out, counted from the running calls. *)
Definition read_holds (ls : list LookupTask) : nat :=
  length (filter (fun l => holds_read l = true) ls).

Definition write_holds (ys : list SyncPc) : nat :=
  length (filter (fun y => holds_write y = true) ys).

(** The mutex agrees with the calls: its reader count is the number of
    [Lookup]s that have not released, its writer flag is set exactly when
    one [SyncFiles] is between [Lock] and [Unlock], and then no reader is
    in. *)
Definition lock_inv (m : RWMutex) (ls : list LookupTask) (ys : list SyncPc)
  : Prop :=
  readers m = read_holds ls ∧
  write_holds ys = (if writer m then 1%nat else 0%nat) ∧
  (writer m = true → readers m = 0%nat).

(** A [Lookup] that holds the lock only started per-file queries on
    tracked handles, and it leaves the in-flight phase only after its
    merged stream reported done. *)
Definition task_ok (s : State) (l : LookupTask) : Prop :=
  (holds_read l = true →
   ∀ b, b ∈ l_started l → ∃ n, files (thr s) !! n = Some b) ∧
  (in_flight l = false → l_out_done l = true).

Definition Inv (sys : System) : Prop :=
  lock_inv (mu (thr (sys_state sys))) (sys_lookups sys) (sys_syncs sys) ∧
  handles_ok (sys_state sys) ∧
  Forall (task_ok (sys_state sys)) (sys_lookups sys).

(** The outside world moves on: the disk, the measurements and the clock
    change; the handles and the trace are the program's own. *)
Definition same_program_side (w w' : World) : Prop :=
  w_next_handle w' = w_next_handle w ∧ w_closed w' = w_closed w ∧
  w_trace w' = w_trace w.

Section Steps.

Variable filepath_Join : string -> string -> string.
Variable BlockfilePathFromIndexPath : string -> string.

Inductive step : System -> System -> Prop :=
| step_Lookup_call s ls ys m :
    RWMutex_RLock (mu (thr s)) = Some m ->
    step {| sys_state := s; sys_lookups := ls; sys_syncs := ys |}
         {| sys_state := with_mu m s;
            sys_lookups :=
              ls ++ [{| l_pc := LSpawned; l_started := []; l_out_done := false |}];
            sys_syncs := ys |}
| step_Lookup_range s ls ys i l :
    ls !! i = Some l -> l_pc l = LSpawned ->
    step {| sys_state := s; sys_lookups := ls; sys_syncs := ys |}
         {| sys_state := s;
            sys_lookups :=
              <[i := {| l_pc := LFanout (getSortedFiles (thr s));
                        l_started := l_started l;
                        l_out_done := l_out_done l |}]> ls;
            sys_syncs := ys |}
| step_Lookup_admit s ls ys i l file rest b :
    ls !! i = Some l -> l_pc l = LFanout (file :: rest) ->
    files (thr s) !! file = Some b ->
    step {| sys_state := s; sys_lookups := ls; sys_syncs := ys |}
         {| sys_state := s;
            sys_lookups :=
              <[i := {| l_pc := LFanout rest;
                        l_started := b :: l_started l;
                        l_out_done := l_out_done l |}]> ls;
            sys_syncs := ys |}
| step_Lookup_ctx_done s ls ys i l file rest :
    ls !! i = Some l -> l_pc l = LFanout (file :: rest) ->
    step {| sys_state := s; sys_lookups := ls; sys_syncs := ys |}
         {| sys_state := s;
            sys_lookups :=
              <[i := {| l_pc := LDeferred; l_started := l_started l;
                        l_out_done := l_out_done l |}]> ls;
            sys_syncs := ys |}
| step_Lookup_loop_end s ls ys i l :
    ls !! i = Some l -> l_pc l = LFanout [] ->
    step {| sys_state := s; sys_lookups := ls; sys_syncs := ys |}
         {| sys_state := s;
            sys_lookups :=
              <[i := {| l_pc := LDeferred; l_started := l_started l;
                        l_out_done := l_out_done l |}]> ls;
            sys_syncs := ys |}
| step_Lookup_close_inputs s ls ys i l :
    ls !! i = Some l -> l_pc l = LDeferred ->
    step {| sys_state := s; sys_lookups := ls; sys_syncs := ys |}
         {| sys_state := s;
            sys_lookups :=
              <[i := {| l_pc := LWaitDone; l_started := l_started l;
                        l_out_done := l_out_done l |}]> ls;
            sys_syncs := ys |}
| step_out_reports_done s ls ys i l :
    ls !! i = Some l ->
    step {| sys_state := s; sys_lookups := ls; sys_syncs := ys |}
         {| sys_state := s;
            sys_lookups :=
              <[i := {| l_pc := l_pc l; l_started := l_started l;
                        l_out_done := true |}]> ls;
            sys_syncs := ys |}
| step_Lookup_receive_done s ls ys i l :
    ls !! i = Some l -> l_pc l = LWaitDone -> l_out_done l = true ->
    step {| sys_state := s; sys_lookups := ls; sys_syncs := ys |}
         {| sys_state := s;
            sys_lookups :=
              <[i := {| l_pc := LRUnlock; l_started := l_started l;
                        l_out_done := true |}]> ls;
            sys_syncs := ys |}
| step_Lookup_RUnlock s ls ys i l m :
    ls !! i = Some l -> l_pc l = LRUnlock ->
    RWMutex_RUnlock (mu (thr s)) = Some m ->
    step {| sys_state := s; sys_lookups := ls; sys_syncs := ys |}
         {| sys_state := with_mu m s;
            sys_lookups :=
              <[i := {| l_pc := LFinished; l_started := l_started l;
                        l_out_done := l_out_done l |}]> ls;
            sys_syncs := ys |}
| step_SyncFiles_call s ls ys :
    step {| sys_state := s; sys_lookups := ls; sys_syncs := ys |}
         {| sys_state := s; sys_lookups := ls; sys_syncs := ys ++ [SCalled] |}
| step_SyncFiles_Lock s ls ys j m :
    ys !! j = Some SCalled ->
    RWMutex_Lock (mu (thr s)) = Some m ->
    step {| sys_state := s; sys_lookups := ls; sys_syncs := ys |}
         {| sys_state := with_mu m s; sys_lookups := ls;
            sys_syncs := <[j := SDiscover]> ys |}
| step_SyncFiles_discover s ls ys j s' :
    ys !! j = Some SDiscover ->
    syncFilesWithDisk filepath_Join BlockfilePathFromIndexPath s = Ret tt s' ->
    step {| sys_state := s; sys_lookups := ls; sys_syncs := ys |}
         {| sys_state := s'; sys_lookups := ls;
            sys_syncs := <[j := SCleanUp]> ys |}
| step_SyncFiles_cleanUp s ls ys j s' :
    ys !! j = Some SCleanUp ->
    cleanUpOnLowDiskSpace filepath_Join s = Ret tt s' ->
    step {| sys_state := s; sys_lookups := ls; sys_syncs := ys |}
         {| sys_state := s'; sys_lookups := ls;
            sys_syncs := <[j := SUnlock]> ys |}
| step_SyncFiles_Unlock s ls ys j m :
    ys !! j = Some SUnlock ->
    RWMutex_Unlock (mu (thr s)) = Some m ->
    step {| sys_state := s; sys_lookups := ls; sys_syncs := ys |}
         {| sys_state := with_mu m s; sys_lookups := ls;
            sys_syncs := <[j := SReturned]> ys |}
| step_world s ls ys w' :
    same_program_side (world s) w' ->
    step {| sys_state := s; sys_lookups := ls; sys_syncs := ys |}
         {| sys_state := {| thr := thr s; world := w' |};
            sys_lookups := ls; sys_syncs := ys |}.

(** A thread as [Threads] builds it: no file tracked, the mutex free; no
    handle has been closed and no call is running. *)
Definition initial (sys : System) : Prop :=
  files (thr (sys_state sys)) = ∅ ∧
  mu (thr (sys_state sys)) = {| readers := 0; writer := false |} ∧
  w_closed (world (sys_state sys)) = [] ∧
  sys_lookups sys = [] ∧ sys_syncs sys = [].

Inductive reachable : System -> Prop :=
| reachable_initial sys : initial sys -> reachable sys
| reachable_step sys sys' : reachable sys -> step sys sys' -> reachable sys'.

End Steps.

End Conc.

(** ** The [/positions] debug handler *)

Module Debug.

(** Bytes are integers in [0, 256). *)
Definition byte_of (x : Z) : Z := Z.land x 255.

(** [uint32(pos)]: the low 32 bits. *)
Definition uint32 (pos : Z) : Z := pos mod 2 ^ 32.

(** [binary.BigEndian.PutUint32] into a four-byte buffer. *)
Definition PutUint32 (x : Z) : list Z :=
  [byte_of (Z.shiftr x 24); byte_of (Z.shiftr x 16);
   byte_of (Z.shiftr x 8); byte_of x].

(** [binary.BigEndian.Uint32]; a shorter slice is an index panic. *)
Definition Uint32 (b : list Z) : option Z :=
  match b with
  | b0 :: b1 :: b2 :: b3 :: _ =>
      Some (Z.lor (Z.lor (Z.lor b3 (Z.shiftl b2 8)) (Z.shiftl b1 16))
                  (Z.shiftl b0 24))
  | _ => None
  end.

Definition hextable : string := "0123456789abcdef".

Definition hexdigit (n : Z) : ascii :=
  match String.get (Z.to_nat n) hextable with
  | Some c => c
  | None => "0"%char
  end.

(** [hex.EncodeToString]. *)
Fixpoint hex_EncodeToString (src : list Z) : string :=
  match src with
  | [] => ""
  | x :: rest =>
      String (hexdigit (Z.shiftr x 4))
        (String (hexdigit (Z.land x 15)) (hex_EncodeToString rest))
  end.

(** [fromHexChar] of package [encoding/hex]. *)
Definition fromHexChar (c : ascii) : option Z :=
  let n := Z.of_N (N_of_ascii c) in
  if ((48 <=? n) && (n <=? 57))%Z then Some (n - 48)
  else if ((97 <=? n) && (n <=? 102))%Z then Some (n - 97 + 10)
  else if ((65 <=? n) && (n <=? 70))%Z then Some (n - 65 + 10)
  else None.

(** [hex.DecodeString]; [None] for an odd length or a character that is
    not a hexadecimal digit. *)
Fixpoint hex_DecodeString (s : string) : option (list Z) :=
  match s with
  | EmptyString => Some []
  | String _ EmptyString => None
  | String c1 (String c2 rest) =>
      match fromHexChar c1, fromHexChar c2, hex_DecodeString rest with
      | Some a, Some b, Some l => Some (Z.lor (Z.shiftl a 4) b :: l)
      | _, _, _ => None
      end
  end.

(** Encoding the byte [x] and decoding the two digits gives [x] back. *)
Definition byte_round_trips (x : Z) : bool :=
  match fromHexChar (hexdigit (Z.shiftr x 4)),
        fromHexChar (hexdigit (Z.land x 15)) with
  | Some a, Some b => Z.lor (Z.shiftl a 4) b =? x
  | _, _ => false
  end.

(** Reading one emitted offset back: hexadecimal to four bytes to the
    big-endian integer. *)
Definition decode_offset (hexstr : string) : option Z :=
  match hex_DecodeString hexstr with
  | Some b => if decide (length b = 4%nat) then Uint32 b else None
  | None => None
  end.

Definition nl : string := String (ascii_of_nat 10) "".
Definition tab : string := String (ascii_of_nat 9) "".

Record Response : Type := {
  status : Z;
  content_type : string;
  body : string
}.

(** [http.Error]. *)
Definition http_Error (msg : string) (code : Z) : Response :=
  {| status := code; content_type := "text/plain; charset=utf-8";
     body := msg +:+ nl |}.

Section Handler.

(** Package [query] and the position query of package [blockfile] are not
    part of this package; an error is represented by its message. *)
Variable Query : Type.
Variable query_NewQuery : string -> Query + string.
Variable bf_Positions : BlockFile -> Query -> list Z + string.
Variable IsAllPositions : list Z -> bool.

(** The hexadecimal strings written for a position list. *)
Definition offset_strings (positions : list Z) : list string :=
  map (fun pos => hex_EncodeToString (PutUint32 (uint32 pos))) positions.

(** The [range positions] loop: one line per position. *)
Fixpoint write_positions (positions : list Z) : string :=
  match positions with
  | [] => ""
  | pos :: rest =>
      tab +:+ hex_EncodeToString (PutUint32 (uint32 pos)) +:+ nl
      +:+ write_positions rest
  end.

(** The handler registered on [/debug/t<id>/positions], run under the
    read hold: [name] is the [name] query parameter, [req_body] the result
    of [ioutil.ReadAll(r.Body)]. *)
Definition positions_handler (t : Thread) (name : string)
    (req_body : string + string) : Response :=
  match files t !! name with
  | None => http_Error "file not found" 404
  | Some file =>
      match req_body with
      | inr _ => http_Error "could not read request body" 400
      | inl queryStr =>
          match query_NewQuery queryStr with
          | inr _ => http_Error "could not parse query" 400
          | inl q =>
              match bf_Positions file q with
              | inr err =>
                  {| status := 200; content_type := "text/plain";
                     body := "ERROR: " +:+ err |}
              | inl positions =>
                  {| status := 200; content_type := "text/plain";
                     body :=
                       "POSITIONS:" +:+ nl +:+
                       (if IsAllPositions positions then tab +:+ "ALL"
                        else write_positions positions) |}
              end
          end
      end
  end.

(** The query went through: the file is tracked, the body was read, the
    query parsed and the blockfile answered with [positions]. *)
Definition query_succeeds (t : Thread) (name : string)
    (req_body : string + string) (positions : list Z) : Prop :=
  ∃ file queryStr q,
    files t !! name = Some file ∧ req_body = inl queryStr ∧
    query_NewQuery queryStr = inl q ∧ bf_Positions file q = inl positions.

End Handler.

End Debug.

(** ** Concrete scenarios *)

Module Scenario.

Definition join (dir name : string) : string := dir +:+ "/" +:+ name.

Definition same_name (p : string) : string := p.

Definition handle (name : string) (n : nat) : BlockFile :=
  {| bf_name := join "PKT0" name; bf_id := n |}.

Definition thread0 (fs : gmap string BlockFile) (threshold : Z) : Thread :=
  {| id := 0;
     conf := {| PacketsDirectory := "/data/pkt"; IndexDirectory := "/data/idx";
                DiskFreePercentage := threshold |};
     indexPath := "IDX0"; packetPath := "PKT0"; files := fs;
     mu := {| readers := 0; writer := false |};
     fileLastSeen := 0 |}.

(** A world whose index directory holds [dir], where opening fails for the
    paths in [bad_open], removing fails for the paths in [bad_remove], and
    the disk-free measurements are going to be [df]. *)
Definition world0 (dir : list FileInfo + error) (bad_open bad_remove : list string)
    (df : list (Z + error)) : World :=
  {| w_ReadDir := fun _ => dir;
     w_NewBlockFile := fun p =>
       if decide (p ∈ bad_open) then Some (ErrExt "open failed") else None;
     w_Remove := fun p =>
       if decide (p ∈ bad_remove) then Some (ErrExt "remove failed") else None;
     w_df := df; w_now := 1000; w_next_handle := 10; w_closed := [];
     w_trace := [] |}.

Definition regular (name : string) : FileInfo :=
  {| Name := name; IsDir := false |}.

Definition tracked_ABC : gmap string BlockFile :=
  <["B" := handle "B" 1]> (<["A" := handle "A" 0]> (<["C" := handle "C" 2]> ∅)).

(** A, B and C tracked, threshold 10, measurements 5, 5, 12, and the index
    artifact of A cannot be removed. *)
Definition evict_ABC_index_of_A_stays : State :=
  {| thr := thread0 tracked_ABC 10;
     world := world0 (inl []) [] ["IDX0/A"] [inl 5; inl 5; inl 12] |}.

(** Nothing tracked; the index directory holds X and Y, and the blockfile
    of Y does not open. *)
Definition discover_X_and_broken_Y : State :=
  {| thr := thread0 ∅ 10;
     world := world0 (inl [regular "X"; regular "Y"]) ["PKT0/Y"] [] [inl 50] |}.

(** A is tracked, but its index artifact is no longer on disk. *)
Definition A_tracked_disk_empty : State :=
  {| thr := thread0 {["A" := handle "A" 0]} 10;
     world := world0 (inl []) [] [] [inl 50] |}.

(** A, B and C tracked and on disk, next to a subdirectory and a
    dot-file; 50 percent of the disk is free. *)
Definition ABC_tracked_and_on_disk : State :=
  {| thr := thread0 tracked_ABC 10;
     world := world0 (inl [regular "A"; regular "B";
                           {| Name := "old"; IsDir := true |};
                           regular ".C.tmp"; regular "C"])
                [] [] [inl 50] |}.

(** A freshly built thread on which nothing runs yet. *)
Definition fresh_system : Conc.System :=
  {| Conc.sys_state :=
       {| thr := thread0 ∅ 10;
          world := world0 (inl [regular "X"]) [] [] [inl 50] |};
     Conc.sys_lookups := []; Conc.sys_syncs := [] |}.

(** The index directory cannot be read. *)
Definition index_directory_unreadable : State :=
  {| thr := thread0 tracked_ABC 10;
     world := world0 (inr (ErrExt "permission denied")) [] [] [inl 50] |}.

End Scenario.

(** ** The read side of the mutex and the accessor *)

(** [t.mu.RLock()] and [t.mu.RUnlock()] as one caller sees them, with no
    other call waiting: [RLock] cannot proceed while the write hold is
    out; [RUnlock] of a mutex with no read hold out is a fatal run-time
    error. *)
Definition mu_RLock : M unit := fun s =>
  match RWMutex_RLock (mu (thr s)) with
  | None => Blocked s
  | Some m => Ret tt (with_mu m s)
  end.

Definition mu_RUnlock : M unit := fun s =>
  match RWMutex_RUnlock (mu (thr s)) with
  | None => Panic s
  | Some m => Ret tt (with_mu m s)
  end.

(** [FileLastSeen]: the result is evaluated before the deferred
    [RUnlock] runs. *)
Definition FileLastSeen : M Time :=
  do_ mu_RLock;
  do t <- get_thread;
  let result := fileLastSeen t in
  do_ mu_RUnlock;
  ret result.

(** ** Events by phase *)

(** The events discovery produces once it has read the index directory:
    it opens blockfiles and logs. *)
Definition open_or_log_event (e : Event) : bool :=
  match e with
  | EvOpen _ _ | EvLog _ | EvV _ _ => true
  | _ => false
  end.

(** The events eviction produces: it measures, removes, closes, sleeps and
    logs. *)
Definition eviction_event (e : Event) : bool :=
  match e with
  | EvMeasure _ _ | EvRemove _ _ | EvClose _ | EvSleep _ | EvLog _ | EvV _ _ =>
      true
  | _ => false
  end.

(** Eviction only shrinks the tracked set, closes what it drops, and
    neither reads the directory nor opens a handle. *)
Definition eviction_frame (s s' : State) : Prop :=
  files (thr s') ⊆ files (thr s) ∧
  (∃ tr, w_trace (world s') = w_trace (world s) ++ tr ∧
         Forall (fun e => eviction_event e = true) tr) ∧
  (∃ cl, w_closed (world s') = cl ++ w_closed (world s)) ∧
  (∀ n b, files (thr s) !! n = Some b → files (thr s') !! n = None →
          b ∈ w_closed (world s')).

(** ** The index and packets debug handlers *)

Module DebugHandlers.
Import Debug.

(** A string [hex.DecodeString] accepts: an even number of characters,
    each a hexadecimal digit. *)
Definition hex_ok (s : string) : Prop :=
  Nat.Even (String.length s) ∧
  Forall (fun c => is_Some (fromHexChar c)) (list_ascii_of_string s).

Section Handlers.

(** The index dump and the packet dump of package [blockfile] and
    [base.PacketsToFile] are not part of this package; each is
    represented by the bytes it writes to the response. *)
Variable bf_DumpIndex : BlockFile -> list Z -> list Z -> string.
Variable Packets : Type.
Variable bf_AllPackets : BlockFile -> Packets.
Variable base_PacketsToFile : Packets -> string.

(** The handler registered on [/debug/t<id>/index], run under the read
    hold: [name], [start] and [finish] are the values of the query
    parameters of these names (empty when a parameter is absent).  The
    bounds stay nil unless their parameter is not empty. *)
Definition index_handler (t : Thread) (name start finish : string)
  : Response :=
  match files t !! name with
  | None => http_Error "file not found" 404
  | Some file =>
      match (if decide (start = "") then Some [] else hex_DecodeString start)
      with
      | None => http_Error "bad start" 400
      | Some start_bytes =>
          match (if decide (finish = "") then Some []
                 else hex_DecodeString finish) with
          | None => http_Error "bad finish" 400
          | Some finish_bytes =>
              {| status := 200; content_type := "text/plain";
                 body := bf_DumpIndex file start_bytes finish_bytes |}
          end
      end
  end.

(** The handler registered on [/debug/t<id>/packets]. *)
Definition packets_handler (t : Thread) (name : string) : Response :=
  match files t !! name with
  | None => http_Error "file not found" 404
  | Some file =>
      {| status := 200; content_type := "application/octet-stream";
         body := base_PacketsToFile (bf_AllPackets file) |}
  end.

End Handlers.

End DebugHandlers.

(** ** Building the threads *)

Module Setup.

Definition packetPrefix : string := "PKT".
Definition indexPrefix : string := "IDX".

(** The calls the set-up code makes on the file system, with their
    results. *)
Inductive SetupEvent : Type :=
| EvStat (dir : string) (r : FileInfo + error)
| EvMkdirAll (dir : string) (perm : Z) (r : option error)
| EvSymlink (oldname newname : string) (r : option error).

(** The file system and the clock as the set-up code sees them: every
    call is answered from the calls made before it ([fs_trace], oldest
    first), so that a directory created by one call can be found by a
    later one. *)
Record FS : Type := {
  fs_Stat : list SetupEvent -> string -> FileInfo + error;
  fs_MkdirAll : list SetupEvent -> string -> option error;
  fs_Symlink : list SetupEvent -> string -> string -> option error;
  fs_now : list SetupEvent -> Time;
  fs_trace : list SetupEvent
}.

Definition record (e : SetupEvent) (fs : FS) : FS :=
  {| fs_Stat := fs_Stat fs; fs_MkdirAll := fs_MkdirAll fs;
     fs_Symlink := fs_Symlink fs; fs_now := fs_now fs;
     fs_trace := fs_trace fs ++ [e] |}.

(** [os.Stat], [os.MkdirAll], [os.Symlink] and [time.Now]. *)
Definition os_Stat (dir : string) (fs : FS) : (FileInfo + error) * FS :=
  let r := fs_Stat fs (fs_trace fs) dir in (r, record (EvStat dir r) fs).

Definition os_MkdirAll (dir : string) (perm : Z) (fs : FS)
  : option error * FS :=
  let r := fs_MkdirAll fs (fs_trace fs) dir in
  (r, record (EvMkdirAll dir perm r) fs).

Definition os_Symlink (oldname newname : string) (fs : FS)
  : option error * FS :=
  let r := fs_Symlink fs (fs_trace fs) oldname newname in
  (r, record (EvSymlink oldname newname r) fs).

Definition clock_Now (fs : FS) : Time := fs_now fs (fs_trace fs).

(** The [fmt.Errorf] sites of [makeDirIfNecessary]. *)
Inductive dir_error : Type :=
| ErrCouldNotCreateDirectory (dir : string) (err : error)
| ErrCouldNotStatDirectory (dir : string) (err : error)
| ErrNotADirectory (dir : string).

(** The [fmt.Errorf] sites of [createSymlinks]. *)
Inductive symlink_error : Type :=
| ErrPacketDirectory (thread : Z) (err : dir_error)
| ErrPacketSymlink (thread : Z) (dir : string) (err : error)
| ErrIndexDirectory (thread : Z) (err : dir_error)
| ErrIndexSymlink (thread : Z) (dir : string) (err : error).

Section Functions.

(** [filepath.Join], [strconv.Itoa] and [os.IsNotExist] are not part of
    this package. *)
Variable filepath_Join : string -> string -> string.
Variable strconv_Itoa : Z -> string.
Variable os_IsNotExist : error -> bool.

(** [makeDirIfNecessary]; [os.IsNotExist(nil)] is false, and 0700 is 448. *)
Definition makeDirIfNecessary (dir : string) (fs : FS)
  : option dir_error * FS :=
  let '(r, fs1) := os_Stat dir fs in
  match r with
  | inr err =>
      if os_IsNotExist err then
        let '(e, fs2) := os_MkdirAll dir 448 fs1 in
        match e with
        | Some err' => (Some (ErrCouldNotCreateDirectory dir err'), fs2)
        | None => (None, fs2)
        end
      else (Some (ErrCouldNotStatDirectory dir err), fs1)
  | inl stat =>
      if IsDir stat then (None, fs1)
      else (Some (ErrNotADirectory dir), fs1)
  end.

(** [createSymlinks]. *)
Definition createSymlinks (t : Thread) (fs : FS)
  : option symlink_error * FS :=
  let '(e1, fs1) := makeDirIfNecessary (PacketsDirectory (conf t)) fs in
  match e1 with
  | Some err => (Some (ErrPacketDirectory (id t) err), fs1)
  | None =>
      let '(e2, fs2) :=
        os_Symlink (PacketsDirectory (conf t)) (packetPath t) fs1 in
      match e2 with
      | Some err =>
          (Some (ErrPacketSymlink (id t) (PacketsDirectory (conf t)) err), fs2)
      | None =>
          let '(e3, fs3) := makeDirIfNecessary (IndexDirectory (conf t)) fs2 in
          match e3 with
          | Some err => (Some (ErrIndexDirectory (id t) err), fs3)
          | None =>
              let '(e4, fs4) :=
                os_Symlink (IndexDirectory (conf t)) (indexPath t) fs3 in
              match e4 with
              | Some err =>
                  (Some (ErrIndexSymlink (id t) (IndexDirectory (conf t)) err),
                   fs4)
              | None => (None, fs4)
              end
          end
      end
  end.

(** The [for i, conf := range configs] loop of [Threads] from index [i]
    on; [threads] holds the threads built so far.  The zero value of the
    mutex is the free mutex. *)
Fixpoint Threads_loop (baseDir : string) (i : Z) (configs : list ThreadConfig)
    (threads : list Thread) (fs : FS) : (list Thread + symlink_error) * FS :=
  match configs with
  | [] => (inl threads, fs)
  | conf :: rest =>
      let thread :=
        {| id := i;
           conf := conf;
           indexPath := filepath_Join baseDir (indexPrefix +:+ strconv_Itoa i);
           packetPath := filepath_Join baseDir (packetPrefix +:+ strconv_Itoa i);
           files := ∅;
           mu := {| readers := 0; writer := false |};
           fileLastSeen := clock_Now fs |} in
      let '(e, fs1) := createSymlinks thread fs in
      match e with
      | Some err => (inr err, fs1)
      | None => Threads_loop baseDir (i + 1) rest (threads ++ [thread]) fs1
      end
  end.

(** [Threads]. *)
Definition Threads (configs : list ThreadConfig) (baseDir : string) (fs : FS)
  : (list Thread + symlink_error) * FS :=
  Threads_loop baseDir 0 configs [] fs.

End Functions.

(** The symbolic links requested in a trace, with their results. *)
Definition symlinks (tr : list SetupEvent)
  : list (string * string * option error) :=
  omap (fun e => match e with
                 | EvSymlink o n r => Some (o, n, r)
                 | _ => None
                 end) tr.

(** The answers of the file system and the clock are the same functions
    of the history. *)
Definition same_answers (fs fs' : FS) : Prop :=
  fs_Stat fs' = fs_Stat fs ∧ fs_MkdirAll fs' = fs_MkdirAll fs ∧
  fs_Symlink fs' = fs_Symlink fs ∧ fs_now fs' = fs_now fs.

(** The answer an event records is the answer of the file system after
    the calls [hist]. *)
Definition answered (fs : FS) (hist : list SetupEvent) (e : SetupEvent)
  : Prop :=
  match e with
  | EvStat dir r => r = fs_Stat fs hist dir
  | EvMkdirAll dir _ r => r = fs_MkdirAll fs hist dir
  | EvSymlink oldname newname r => r = fs_Symlink fs hist oldname newname
  end.

(** Every call of [tr], made in this order after the calls [hist], was
    answered by the file system. *)
Fixpoint answered_all (fs : FS) (hist tr : list SetupEvent) : Prop :=
  match tr with
  | [] => True
  | e :: rest => answered fs hist e ∧ answered_all fs (hist ++ [e]) rest
  end.

(** The five ways one directory stage can go: the calls it makes on
    [dir], in order, and the error it ends with, if any. *)
Inductive dir_stage (os_IsNotExist : error -> bool) (dir : string)
  : list SetupEvent -> option dir_error -> Prop :=
| stage_is_directory stat :
    IsDir stat = true ->
    dir_stage os_IsNotExist dir [EvStat dir (inl stat)] None
| stage_not_a_directory stat :
    IsDir stat = false ->
    dir_stage os_IsNotExist dir [EvStat dir (inl stat)]
      (Some (ErrNotADirectory dir))
| stage_stat_fails err :
    os_IsNotExist err = false ->
    dir_stage os_IsNotExist dir [EvStat dir (inr err)]
      (Some (ErrCouldNotStatDirectory dir err))
| stage_created err :
    os_IsNotExist err = true ->
    dir_stage os_IsNotExist dir
      [EvStat dir (inr err); EvMkdirAll dir 448 None] None
| stage_not_created err err' :
    os_IsNotExist err = true ->
    dir_stage os_IsNotExist dir
      [EvStat dir (inr err); EvMkdirAll dir 448 (Some err')]
      (Some (ErrCouldNotCreateDirectory dir err')).

(** The thread an error of [createSymlinks] names. *)
Definition failing_thread (e : symlink_error) : Z :=
  match e with
  | ErrPacketDirectory i _ | ErrPacketSymlink i _ _
  | ErrIndexDirectory i _ | ErrIndexSymlink i _ _ => i
  end.

(** The two links of a thread, in the order they are made. *)
Definition links_of (t : Thread) : list (string * string * option error) :=
  [(PacketsDirectory (conf t), packetPath t, None);
   (IndexDirectory (conf t), indexPath t, None)].

End Setup.

(** ** Further scenarios *)

Module Cases.
Import Scenario.

(** A, B and C tracked, threshold 10, measurements 5, 5, 12, and every
    removal succeeds. *)
Definition evict_two_of_ABC : State :=
  {| thr := thread0 tracked_ABC 10;
     world := world0 (inl []) [] [] [inl 5; inl 5; inl 12] |}.

(** A, B and C tracked; the first measurement fails. *)
Definition measurement_fails : State :=
  {| thr := thread0 tracked_ABC 10;
     world := world0 (inl []) [] [] [inr (ErrExt "statfs failed"); inl 5] |}.

(** Nothing tracked; X is on disk and opens. *)
Definition discover_X : State :=
  {| thr := thread0 ∅ 10;
     world := world0 (inl [regular "X"]) [] [] [inl 50] |}.

(** One [SyncFiles] call on a fresh thread has taken the lock. *)
Definition one_sync_inside : Conc.System :=
  {| Conc.sys_state :=
       with_mu {| readers := 0; writer := true |}
         (Conc.sys_state fresh_system);
     Conc.sys_lookups := [];
     Conc.sys_syncs := [Conc.SDiscover] |}.

(** The same call after discovery and eviction, about to unlock. *)
Definition one_sync_before_unlock : Conc.System :=
  {| Conc.sys_state :=
       exec (cleanUpOnLowDiskSpace join)
         (exec (syncFilesWithDisk join same_name)
            (Conc.sys_state one_sync_inside));
     Conc.sys_lookups := [];
     Conc.sys_syncs := [Conc.SUnlock] |}.

(** That call has returned having tracked X; a [Lookup] has then taken
    its read hold and started its per-file query on the handle of X, and
    a second [SyncFiles] call has been made and has not got past [Lock]. *)
Definition lookup_draining_sync_waiting : Conc.System :=
  {| Conc.sys_state :=
       with_mu {| readers := 1; writer := false |}
         (Conc.sys_state one_sync_before_unlock);
     Conc.sys_lookups :=
       [{| Conc.l_pc := Conc.LFanout []; Conc.l_started := [handle "X" 10];
           Conc.l_out_done := false |}];
     Conc.sys_syncs := [Conc.SReturned; Conc.SCalled] |}.

(** A file system on which every directory exists and every link can be
    made. *)
Definition fs_all_ready : Setup.FS :=
  {| Setup.fs_Stat := fun _ dir => inl {| Name := dir; IsDir := true |};
     Setup.fs_MkdirAll := fun _ _ => None;
     Setup.fs_Symlink := fun _ _ _ => None;
     Setup.fs_now := fun _ => 1000;
     Setup.fs_trace := [] |}.

(** A file system on which nothing exists yet, directories can be made
    and links cannot. *)
Definition fs_no_links : Setup.FS :=
  {| Setup.fs_Stat := fun _ _ => inr (ErrExt "no such file or directory");
     Setup.fs_MkdirAll := fun _ _ => None;
     Setup.fs_Symlink := fun _ _ _ => Some (ErrExt "operation not permitted");
     Setup.fs_now := fun _ => 1000;
     Setup.fs_trace := [] |}.

Definition not_exist (e : error) : bool :=
  match e with
  | ErrExt msg => bool_decide (msg = "no such file or directory")
  | _ => false
  end.

Definition digit (i : Z) : string :=
  match i with 0 => "0" | 1 => "1" | _ => "n" end.

Definition two_configs : list ThreadConfig :=
  [{| PacketsDirectory := "/data/pkt0"; IndexDirectory := "/data/idx0";
      DiskFreePercentage := 10 |};
   {| PacketsDirectory := "/data/pkt1"; IndexDirectory := "/data/idx1";
      DiskFreePercentage := 10 |}].

End Cases.

(** * Properties *)

(** ** The order on names is a total order *)

Module StringOrderFacts.

Lemma ascii_compare_refl (c : ascii) : Ascii.compare c c = Eq.
Proof. unfold Ascii.compare. apply N.compare_refl. Qed.

Lemma string_compare_refl (s : string) : String.compare s s = Eq.
Proof.
  induction s as [|c s IH]; simpl; [reflexivity|].
  rewrite ascii_compare_refl. exact IH.
Qed.

Lemma ascii_compare_Lt_trans (a b c : ascii) :
  Ascii.compare a b = Lt -> Ascii.compare b c = Lt -> Ascii.compare a c = Lt.
Proof.
  unfold Ascii.compare. rewrite !N.compare_lt_iff. lia.
Qed.

Lemma string_compare_Lt_trans (s1 : string) :
  forall s2 s3, String.compare s1 s2 = Lt -> String.compare s2 s3 = Lt ->
                String.compare s1 s3 = Lt.
Proof.
  induction s1 as [|a s1 IH]; intros [|b s2] [|c s3]; simpl; try congruence.
  destruct (Ascii.compare a b) eqn:Hab; try congruence;
    destruct (Ascii.compare b c) eqn:Hbc; try congruence; intros H1 H2.
  - apply Ascii.compare_eq_iff in Hab, Hbc. subst.
    rewrite ascii_compare_refl. eauto.
  - apply Ascii.compare_eq_iff in Hab. subst. rewrite Hbc. reflexivity.
  - apply Ascii.compare_eq_iff in Hbc. subst. rewrite Hab. reflexivity.
  - rewrite (ascii_compare_Lt_trans _ _ _ Hab Hbc). reflexivity.
Qed.

Lemma string_le_cases (a b : string) :
  string_le a b <-> a = b \/ String.compare a b = Lt.
Proof.
  unfold string_le, String.leb. split.
  - destruct (String.compare a b) eqn:E; try congruence; intros _.
    + left. apply String.compare_eq_iff. exact E.
    + right. reflexivity.
  - intros [-> | ->]; [rewrite string_compare_refl|]; reflexivity.
Qed.

#[export] Instance string_le_refl : Reflexive string_le.
Proof. intros a. apply string_le_cases. left. reflexivity. Qed.

#[export] Instance string_le_trans : Transitive string_le.
Proof.
  intros a b c Hab Hbc. apply string_le_cases in Hab, Hbc.
  apply string_le_cases.
  destruct Hab as [-> | Hab]; [exact Hbc|].
  destruct Hbc as [<- | Hbc]; [right; exact Hab|].
  right. eapply string_compare_Lt_trans; eassumption.
Qed.

#[export] Instance string_le_antisym : AntiSymm (=) string_le.
Proof. intros a b. apply String.leb_antisym. Qed.

#[export] Instance string_le_total : Total string_le.
Proof. intros a b. apply String.leb_total. Qed.

Lemma string_lt_not_le (a b : string) : string_lt a b <-> ~ string_le b a.
Proof.
  unfold string_lt, string_le, String.ltb, String.leb.
  rewrite (String.compare_antisym a b).
  destruct (String.compare b a); simpl; split; congruence.
Qed.

End StringOrderFacts.
Export StringOrderFacts.

(** ** The sorted list of tracked names *)

Arguments getSortedFiles : simpl never.
Arguments removed : simpl never.
Arguments closed_in : simpl never.
Arguments logged : simpl never.
Arguments measured : simpl never.

Section SortedFiles.

Implicit Types (t : Thread) (n x : string) (l : list string).

Lemma getSortedFiles_Permutation t :
  getSortedFiles t ≡ₚ (map_to_list (files t)).*1.
Proof. apply merge_sort_Permutation. Qed.

Lemma getSortedFiles_Sorted t : Sorted string_le (getSortedFiles t).
Proof. apply (Sorted_merge_sort string_le). Qed.

Lemma getSortedFiles_StronglySorted t :
  StronglySorted string_le (getSortedFiles t).
Proof. apply Sorted_StronglySorted; [apply _|apply getSortedFiles_Sorted]. Qed.

Lemma getSortedFiles_NoDup t : NoDup (getSortedFiles t).
Proof.
  rewrite getSortedFiles_Permutation. apply NoDup_fst_map_to_list.
Qed.

Lemma elem_of_getSortedFiles t n :
  n ∈ getSortedFiles t ↔ is_Some (files t !! n).
Proof.
  rewrite getSortedFiles_Permutation, list_elem_of_fmap. split.
  - intros [[k b] [-> Hin]]. apply elem_of_map_to_list in Hin. eauto.
  - intros [b Hb]. exists (n, b). split; [reflexivity|].
    apply elem_of_map_to_list. exact Hb.
Qed.

(** The result does not depend on the order in which the map is iterated:
    it is the only sorted duplicate-free list of the tracked names. *)
Lemma getSortedFiles_unique t l :
  Sorted string_le l → NoDup l →
  (∀ n, n ∈ l ↔ is_Some (files t !! n)) →
  getSortedFiles t = l.
Proof.
  intros Hs Hnd Hl.
  apply (Sorted_unique string_le); [apply getSortedFiles_Sorted|exact Hs|].
  apply NoDup_Permutation; [apply getSortedFiles_NoDup|exact Hnd|].
  intros n. rewrite elem_of_getSortedFiles, Hl. reflexivity.
Qed.

Lemma getSortedFiles_length t : length (getSortedFiles t) = size (files t).
Proof.
  rewrite getSortedFiles_Permutation, length_fmap. apply length_map_to_list.
Qed.

Lemma getSortedFiles_nil t : getSortedFiles t = [] ↔ size (files t) = 0%nat.
Proof.
  rewrite <- getSortedFiles_length.
  destruct (getSortedFiles t); simpl; split; congruence.
Qed.

Lemma getSortedFiles_head_least t x l n :
  getSortedFiles t = x :: l → is_Some (files t !! n) → string_le x n.
Proof.
  intros E Hn. apply elem_of_getSortedFiles in Hn.
  pose proof (getSortedFiles_StronglySorted t) as Hs.
  rewrite E in Hs, Hn. inversion Hs as [|? ? _ Hall]; subst.
  apply elem_of_cons in Hn as [->|Hn]; [reflexivity|].
  rewrite Forall_forall in Hall. apply Hall. exact Hn.
Qed.

Lemma getSortedFiles_delete_head t x l :
  getSortedFiles t = x :: l →
  getSortedFiles (set_files (delete x (files t)) t) = l.
Proof.
  intros E.
  pose proof (getSortedFiles_Sorted t) as Hs.
  pose proof (getSortedFiles_NoDup t) as Hnd.
  rewrite E in Hs, Hnd. apply NoDup_cons in Hnd as [Hx Hnd].
  apply getSortedFiles_unique; [by inversion Hs|exact Hnd|].
  intros n. simpl. rewrite lookup_delete_is_Some.
  rewrite <- elem_of_getSortedFiles, E, elem_of_cons.
  split; [intros Hn; split; [congruence|by right]|].
  intros [Hne [?|?]]; congruence.
Qed.

Lemma getSortedFiles_set_mu t m :
  getSortedFiles (set_mu m t) = getSortedFiles t.
Proof. reflexivity. Qed.

End SortedFiles.


(** ** Eviction *)

Section EvictionFacts.

Variable filepath_Join : string -> string -> string.



Lemma removed_app tr1 tr2 : removed (tr1 ++ tr2) = removed tr1 ++ removed tr2.
Proof. apply omap_app. Qed.

Lemma removed_snoc tr e :
  removed (tr ++ [e]) =
  removed tr ++ match e with EvRemove p None => [p] | _ => [] end.
Proof. rewrite removed_app. destruct e as [| | | | |? [?|]| |]; reflexivity. Qed.

Lemma measured_snoc tr e :
  measured (tr ++ [e]) =
  measured tr ++ match e with EvMeasure _ r => [r] | _ => [] end.
Proof. unfold measured. rewrite omap_app. destruct e; reflexivity. Qed.

Lemma logged_snoc tr e :
  logged (tr ++ [e]) = logged tr ++ match e with EvLog m => [m] | _ => [] end.
Proof. unfold logged. rewrite omap_app. destruct e; reflexivity. Qed.

Lemma closed_in_snoc tr e :
  closed_in (tr ++ [e]) =
  closed_in tr ++ match e with EvClose b => [b] | _ => [] end.
Proof. unfold closed_in. rewrite omap_app. destruct e; reflexivity. Qed.

Lemma closed_in_app tr1 tr2 :
  closed_in (tr1 ++ tr2) = closed_in tr1 ++ closed_in tr2.
Proof. apply omap_app. Qed.

Lemma logged_app tr1 tr2 : logged (tr1 ++ tr2) = logged tr1 ++ logged tr2.
Proof. apply omap_app. Qed.

Lemma measured_app tr1 tr2 :
  measured (tr1 ++ tr2) = measured tr1 ++ measured tr2.
Proof. apply omap_app. Qed.

(** One pass through the loop body, case by case, down to the calls that
    leave the package. *)
Lemma cleanUp_iteration_unfold s :
  cleanUp_iteration filepath_Join s =
  let t := thr s in
  match w_df (world s) with
  | [] => Starved s
  | inr err :: rest =>
      Ret false
        (exec (log_Printf (LogCouldNotGetFree (id t) (packetPath t) err))
           (measured_state s (inr err) rest))
  | inl df :: rest =>
      let s1 := measured_state s (inl df) rest in
      if df >? DiskFreePercentage (conf t) then
        Ret false (exec (v 1 (VDiskSufficient (id t) df
                                (DiskFreePercentage (conf t)))) s1)
      else
        let s2 := exec (v 0 (VDiskHigh (id t) (packetPath t) df)) s1 in
        if decide (size (files t) = 0%nat) then
          Ret true (exec (time_Sleep 100)
                      (exec (log_Printf (LogNoFilesAvailable (id t))) s2))
        else
          match getSortedFiles t with
          | [] => Panic s2
          | x :: _ =>
              let pkt := getPacketFilePath filepath_Join t x in
              let idx := getIndexFilePath filepath_Join t x in
              let s3 := exec (os_Remove pkt) (exec (v 1 (VRemoving (id t) x)) s2) in
              match w_Remove (world s) pkt with
              | Some err =>
                  Ret false (exec (log_Printf (LogCouldNotDelete (id t) err)) s3)
              | None =>
                  let s4 := exec (os_Remove idx) s3 in
                  match w_Remove (world s) idx with
                  | Some err =>
                      Ret false
                        (exec (log_Printf (LogCouldNotDelete (id t) err)) s4)
                  | None =>
                      let s5 := exec (v 1 (VUntracking (id t) x)) s4 in
                      match files t !! x with
                      | None =>
                          Ret false
                            (exec (log_Printf
                                     (LogCouldNotDelete (id t)
                                        (ErrNotMonitored pkt (id t)))) s5)
                      | Some b =>
                          Ret true
                            (exec (time_Sleep 100)
                               (exec (with_thread
                                        (fun t => set_files (delete x (files t)) t))
                                  (exec (bf_Close b)
                                     (exec (v 1 (VOldBlockfile (id t) (bf_name b)))
                                        s5))))
                      end
                  end
              end
          end
  end.
Proof.
  unfold cleanUp_iteration, bind, get_thread, PathDiskFreePercentage.
  destruct (w_df (world s)) as [|[df|err] rest]; [reflexivity| |reflexivity].
  cbn zeta. destruct (df >? DiskFreePercentage (conf (thr s))); [reflexivity|].
  cbn. destruct (decide (size (files (thr s)) = 0%nat)); [reflexivity|].
  unfold deleteOldestThreadFile, bind, get_thread. cbn.
  destruct (getSortedFiles (thr s)) as [|x l]; [reflexivity|]. cbn.
  destruct (w_Remove (world s) (getPacketFilePath filepath_Join (thr s) x));
    [reflexivity|]. cbn.
  destruct (w_Remove (world s) (getIndexFilePath filepath_Join (thr s) x));
    [reflexivity|]. cbn.
  destruct (files (thr s) !! x); reflexivity.
Qed.

Lemma cleanUp_loop_S fuel s :
  cleanUp_loop filepath_Join (S fuel) s =
  match cleanUp_iteration filepath_Join s with
  | Ret true s1 => cleanUp_loop filepath_Join fuel s1
  | Ret false s1 => Ret tt s1
  | Panic s1 => Panic s1
  | Blocked s1 => Blocked s1
  | Starved s1 => Starved s1
  end.
Proof.
  cbn [cleanUp_loop]. unfold bind.
  destruct (cleanUp_iteration filepath_Join s) as [[|] s1|s1|s1|s1]; reflexivity.
Qed.

(** One iteration of the loop, case by case. *)
Lemma cleanUp_loop_unfold fuel s :
  cleanUp_loop filepath_Join (S fuel) s =
  let t := thr s in
  match w_df (world s) with
  | [] => Starved s
  | inr err :: rest =>
      Ret tt (exec (log_Printf (LogCouldNotGetFree (id t) (packetPath t) err))
                (measured_state s (inr err) rest))
  | inl df :: rest =>
      let s1 := measured_state s (inl df) rest in
      if df >? DiskFreePercentage (conf t) then
        Ret tt (exec (v 1 (VDiskSufficient (id t) df
                             (DiskFreePercentage (conf t)))) s1)
      else
        let s2 := exec (v 0 (VDiskHigh (id t) (packetPath t) df)) s1 in
        if decide (size (files t) = 0%nat) then
          cleanUp_loop filepath_Join fuel
            (exec (time_Sleep 100)
               (exec (log_Printf (LogNoFilesAvailable (id t))) s2))
        else
          match deleteOldestThreadFile filepath_Join s2 with
          | Ret (Some err) s3 =>
              Ret tt (exec (log_Printf (LogCouldNotDelete (id t) err)) s3)
          | Ret None s3 => cleanUp_loop filepath_Join fuel (exec (time_Sleep 100) s3)
          | Panic s3 => Panic s3
          | Blocked s3 => Blocked s3
          | Starved s3 => Starved s3
          end
  end.
Proof.
  cbn [cleanUp_loop]. unfold cleanUp_iteration.
  unfold bind, get_thread, PathDiskFreePercentage.
  destruct (w_df (world s)) as [|[df|err] rest]; [reflexivity| |reflexivity].
  cbn zeta. fold (measured_state s (inl df) rest).
  destruct (df >? DiskFreePercentage (conf (thr s))); [reflexivity|].
  unfold exec, v, emit, with_world, state_of. cbn beta iota.
  destruct (decide (size (files (thr s)) = 0%nat)); [reflexivity|].
  match goal with
  | |- context [deleteOldestThreadFile ?j ?st] =>
      destruct (deleteOldestThreadFile j st) as [[e|] s3|s3|s3|s3]
  end; reflexivity.
Qed.

(** [deleteOldestThreadFile filepath_Join], case by case on the two removals. *)
Lemma deleteOldestThreadFile_unfold s x l :
  getSortedFiles (thr s) = x :: l →
  deleteOldestThreadFile filepath_Join s =
  let t := thr s in
  let s1 := exec (v 1 (VRemoving (id t) x)) s in
  let pkt := getPacketFilePath filepath_Join t x in
  let idx := getIndexFilePath filepath_Join t x in
  match w_Remove (world s) pkt with
  | Some err => Ret (Some err) (exec (os_Remove pkt) s1)
  | None =>
      let s2 := exec (os_Remove pkt) s1 in
      match w_Remove (world s) idx with
      | Some err => Ret (Some err) (exec (os_Remove idx) s2)
      | None => untrackFile filepath_Join x (exec (os_Remove idx) s2)
      end
  end.
Proof.
  intros E. unfold deleteOldestThreadFile, bind, get_thread.
  rewrite E. cbn.
  destruct (w_Remove (world s) _); [reflexivity|]. cbn.
  destruct (w_Remove (world s) _); reflexivity.
Qed.

(** [untrackFile] of a tracked name. *)
Lemma untrackFile_tracked s x b :
  files (thr s) !! x = Some b →
  untrackFile filepath_Join x s =
  Ret None
    {| thr := set_files (delete x (files (thr s))) (thr s);
       world :=
         world (exec (bf_Close b)
                  (exec (v 1 (VOldBlockfile (id (thr s)) (bf_name b)))
                     (exec (v 1 (VUntracking (id (thr s)) x)) s))) |}.
Proof.
  intros E. unfold untrackFile, bind, get_thread. cbn. rewrite E. reflexivity.
Qed.

Lemma cleanUp_loop_removals fuel : ∀ s,
  ∃ rm : list string,
    let s' := state_of (cleanUp_loop filepath_Join fuel s) in
    removed (w_trace (world s')) = removed (w_trace (world s)) ++ rm ∧
    rm `prefix_of` flat_map (artifacts filepath_Join (thr s)) (getSortedFiles (thr s)) ∧
    (length rm ≤ 2 * low_prefix (DiskFreePercentage (conf (thr s)))
                     (w_df (world s)))%nat ∧
    getSortedFiles (thr s') =
      drop (Nat.div2 (length rm)) (getSortedFiles (thr s)).
Proof.
  induction fuel as [|fuel IH]; intros s.
  { exists []. cbn. rewrite app_nil_r. repeat split; auto using prefix_nil with lia. }
  rewrite cleanUp_loop_unfold. cbn zeta.
  destruct (w_df (world s)) as [|[df|err] rest] eqn:Hdf.
  { exists []. cbn. rewrite app_nil_r. repeat split; auto using prefix_nil with lia. }
  2:{ exists []. cbn. rewrite !removed_snoc, !app_nil_r.
      repeat split; auto using prefix_nil with lia. }
  destruct (df >? DiskFreePercentage (conf (thr s))) eqn:Hcmp.
  { exists []. cbn. rewrite !removed_snoc, !app_nil_r, Hcmp.
    repeat split; auto using prefix_nil with lia. }
  destruct (decide (size (files (thr s)) = 0%nat)) as [Hsz|Hsz].
  { match goal with
    | |- context [cleanUp_loop filepath_Join fuel ?s1] =>
        destruct (IH s1) as (rm & H1 & H2 & H3 & H4)
    end.
    cbn in H1, H2, H3, H4. rewrite !removed_snoc, !app_nil_r in H1.
    exists rm. cbn zeta. cbn [low_prefix]. rewrite Hcmp.
    repeat split; auto with lia. }
  destruct (getSortedFiles (thr s)) as [|x l] eqn:Hks.
  { apply getSortedFiles_nil in Hks. contradiction. }
  assert (is_Some (files (thr s) !! x)) as [b Hb].
  { apply elem_of_getSortedFiles. rewrite Hks. left. }
  erewrite deleteOldestThreadFile_unfold by exact Hks. cbn.
  rewrite Hcmp.
  destruct (w_Remove (world s) (getPacketFilePath filepath_Join (thr s) x))
    as [err1|] eqn:Hr1.
  { exists []. cbn. rewrite !removed_snoc, !app_nil_r.
    repeat split; auto using prefix_nil with lia. }
  destruct (w_Remove (world s) (getIndexFilePath filepath_Join (thr s) x))
    as [err2|] eqn:Hr2.
  { exists [filepath_Join (packetPath (thr s)) x]. cbn.
    rewrite !removed_snoc, !app_nil_r.
    repeat split; auto with lia. apply prefix_cons, prefix_nil. }
  rewrite Hb. cbn.
  match goal with
  | |- context [cleanUp_loop filepath_Join fuel ?s1] =>
      destruct (IH s1) as (rm & H1 & H2 & H3 & H4)
  end.
  cbn in H1, H2, H3, H4.
  rewrite (getSortedFiles_delete_head _ _ _ Hks) in H2, H4.
  rewrite !removed_snoc, !app_nil_r, <- !app_assoc in H1. cbn in H1.
  exists (filepath_Join (packetPath (thr s)) x
          :: filepath_Join (indexPath (thr s)) x :: rm).
  cbn zeta. split; [exact H1|]. split; [|split].
  - cbn. apply prefix_cons, prefix_cons. exact H2.
  - cbn [length]. lia.
  - rewrite H4. reflexivity.
Qed.

(** Splits a goal about one pass through the loop body from [s] into the
    nine ways the pass can go. *)
Ltac iteration_cases s :=
  rewrite (cleanUp_iteration_unfold s); cbn zeta;
  destruct (w_df (world s)) as [|[?df|?err] ?rest] eqn:Hdf;
  [ | destruct (_ >? _) eqn:Hcmp;
      [ | destruct (decide (size (files (thr s)) = 0%nat)) as [Hsz|Hsz];
          [ | destruct (getSortedFiles (thr s)) as [|?x ?l] eqn:Hks;
              [ apply getSortedFiles_nil in Hks; contradiction
              | destruct (w_Remove (world s) (getPacketFilePath _ _ _)) eqn:Hr1;
                [ | destruct (w_Remove (world s) (getIndexFilePath _ _ _)) eqn:Hr2;
                    [ | destruct (files (thr s) !! _) eqn:Hb ] ] ] ] ]
  | ].

(** The loop inherits whatever every pass through its body guarantees. *)
Lemma cleanUp_loop_lift (R : State → State → Prop) :
  (∀ s, R s s) → (∀ s1 s2 s3, R s1 s2 → R s2 s3 → R s1 s3) →
  (∀ s, R s (state_of (cleanUp_iteration filepath_Join s))) →
  ∀ fuel s, R s (state_of (cleanUp_loop filepath_Join fuel s)).
Proof.
  intros Hrefl Htrans Hbody. induction fuel as [|fuel IH]; intros s.
  { apply Hrefl. }
  rewrite cleanUp_loop_S. specialize (Hbody s).
  destruct (cleanUp_iteration filepath_Join s) as [[|] s1|s1|s1|s1];
    cbn in *; eauto.
Qed.

Lemma cleanUp_iteration_frame s :
  let s' := state_of (cleanUp_iteration filepath_Join s) in
  same_config (thr s) (thr s') ∧ fileLastSeen (thr s') = fileLastSeen (thr s) ∧
  same_oracles (world s) (world s') ∧
  w_next_handle (world s') = w_next_handle (world s).
Proof.
  unfold same_config, same_oracles.
  iteration_cases s; cbn; auto 10.
Qed.

Lemma cleanUp_loop_frame fuel s :
  let s' := state_of (cleanUp_loop filepath_Join fuel s) in
  same_config (thr s) (thr s') ∧ fileLastSeen (thr s') = fileLastSeen (thr s) ∧
  same_oracles (world s) (world s') ∧
  w_next_handle (world s') = w_next_handle (world s).
Proof.
  revert fuel s. apply (cleanUp_loop_lift (fun s s' =>
    same_config (thr s) (thr s') ∧ fileLastSeen (thr s') = fileLastSeen (thr s) ∧
    same_oracles (world s) (world s') ∧
    w_next_handle (world s') = w_next_handle (world s))).
  - unfold same_config, same_oracles. auto 10.
  - unfold same_config, same_oracles. intros s1 s2 s3.
    intros ((?&?&?&?&?)&?&(?&?&?)&?) ((?&?&?&?&?)&?&(?&?&?)&?).
    repeat split; congruence.
  - apply cleanUp_iteration_frame.
Qed.

(** The loop body neither panics nor blocks; it can only be left without
    a result when the measurements have been used up, and the loop only
    goes round again after a measurement at or below the threshold. *)
Lemma cleanUp_iteration_outcome s :
  match cleanUp_iteration filepath_Join s with
  | Ret again s' =>
      ∃ r, w_df (world s) = r :: w_df (world s') ∧
           (again = true →
            ∃ df, r = inl df ∧ df ≤ DiskFreePercentage (conf (thr s)))
  | Starved s' => s' = s ∧ w_df (world s) = []
  | Panic _ | Blocked _ => False
  end.
Proof.
  iteration_cases s; cbn; eauto;
    (eexists; split; [reflexivity|]; intros Ha;
     first [ discriminate Ha
           | eexists; split; [reflexivity|];
             rewrite Z.gtb_ltb, Z.ltb_ge in Hcmp; exact Hcmp ]).
Qed.

Lemma handles_ok_frame s s' :
  files (thr s') = files (thr s) →
  w_closed (world s') = w_closed (world s) →
  w_next_handle (world s') = w_next_handle (world s) →
  handles_ok s → handles_ok s'.
Proof. unfold handles_ok. intros -> -> ->. auto. Qed.

Lemma handles_ok_untrack s s' x b :
  files (thr s) !! x = Some b →
  files (thr s') = delete x (files (thr s)) →
  w_closed (world s') = b :: w_closed (world s) →
  w_next_handle (world s') = w_next_handle (world s) →
  handles_ok s → handles_ok s'.
Proof.
  unfold handles_ok. intros Hb -> -> -> (Hopen & Hinj & Hcl).
  split; [|split].
  - intros n b' Hn. apply lookup_delete_Some in Hn as [Hne Hn].
    destruct (Hopen n b' Hn) as [Hlt Hncl]. split; [exact Hlt|].
    rewrite not_elem_of_cons. split; [|exact Hncl].
    intros ->. apply Hne. symmetry. eapply Hinj; eauto.
  - intros n1 n2 b1 b2 H1 H2. apply lookup_delete_Some in H1 as [_ H1].
    apply lookup_delete_Some in H2 as [_ H2]. eauto.
  - intros b' [->|Hin]%elem_of_cons; [|auto].
    apply (Hopen _ _ Hb).
Qed.

Lemma cleanUp_iteration_handles_ok s :
  handles_ok s → handles_ok (state_of (cleanUp_iteration filepath_Join s)).
Proof.
  intros Hok.
  iteration_cases s;
    try (apply (handles_ok_frame s); [reflexivity..|exact Hok]).
  eapply (handles_ok_untrack s); [exact Hb|reflexivity..|exact Hok].
Qed.

Lemma cleanUp_loop_handles_ok fuel s :
  handles_ok s → handles_ok (state_of (cleanUp_loop filepath_Join fuel s)).
Proof.
  revert fuel s.
  apply (cleanUp_loop_lift (fun s s' => handles_ok s → handles_ok s')); auto.
  apply cleanUp_iteration_handles_ok.
Qed.

(** The loop returns, or uses the measurements up while every one of them
    is at or below the threshold; it never panics. *)
Lemma cleanUp_loop_outcome fuel : ∀ s,
  (length (w_df (world s)) < fuel)%nat →
  match cleanUp_loop filepath_Join fuel s with
  | Ret _ _ => True
  | Starved s' =>
      low_prefix (DiskFreePercentage (conf (thr s))) (w_df (world s))
      = length (w_df (world s))
  | Panic _ | Blocked _ => False
  end.
Proof.
  induction fuel as [|fuel IH]; intros s Hlen; [lia|].
  rewrite cleanUp_loop_S.
  pose proof (cleanUp_iteration_outcome s) as Ho.
  pose proof (cleanUp_iteration_frame s) as ((_ & Hconf & _) & _).
  destruct (cleanUp_iteration filepath_Join s) as [[|] s1|s1|s1|s1]; auto.
  - destruct Ho as (r & Hr & Hlow). destruct (Hlow eq_refl) as (df & -> & Hdf).
    specialize (IH s1). rewrite Hr in Hlen |- *. cbn in Hlen, Hconf |- *.
    rewrite Hconf in IH.
    destruct (cleanUp_loop filepath_Join fuel s1); auto; try (apply IH; lia).
    destruct (df >? DiskFreePercentage (conf (thr s))) eqn:E; [lia|].
    f_equal. apply IH. lia.
  - destruct Ho as [_ ->]. reflexivity.
Qed.

Lemma cleanUpOnLowDiskSpace_outcome s :
  match cleanUpOnLowDiskSpace filepath_Join s with
  | Ret _ _ => True
  | Starved s' =>
      low_prefix (DiskFreePercentage (conf (thr s))) (w_df (world s))
      = length (w_df (world s))
  | Panic _ | Blocked _ => False
  end.
Proof. apply cleanUp_loop_outcome. lia. Qed.

(** With a measurement that fails or exceeds the threshold among the
    scripted ones, the eviction phase returns. *)
Lemma cleanUpOnLowDiskSpace_returns s :
  (low_prefix (DiskFreePercentage (conf (thr s))) (w_df (world s))
   < length (w_df (world s)))%nat →
  ∃ s', cleanUpOnLowDiskSpace filepath_Join s = Ret tt s'.
Proof.
  intros Hlow. pose proof (cleanUpOnLowDiskSpace_outcome s) as Ho.
  destruct (cleanUpOnLowDiskSpace filepath_Join s) as [[] s'|s'|s'|s']; eauto; try tauto.
  lia.
Qed.

(** With no file tracked the loop never leaves on its own account: as long
    as the measurements stay at or below the threshold it reports the
    condition, sleeps and measures again. *)
Lemma cleanUp_loop_stuck fuel : ∀ s,
  size (files (thr s)) = 0%nat →
  (length (w_df (world s)) < fuel)%nat →
  low_prefix (DiskFreePercentage (conf (thr s))) (w_df (world s))
  = length (w_df (world s)) →
  ∃ s', cleanUp_loop filepath_Join fuel s = Starved s' ∧
        measured (w_trace (world s')) =
          measured (w_trace (world s)) ++ w_df (world s) ∧
        logged (w_trace (world s')) =
          logged (w_trace (world s))
          ++ replicate (length (w_df (world s)))
               (LogNoFilesAvailable (id (thr s))).
Proof.
  induction fuel as [|fuel IH]; intros s Hsz Hlen Hlow; [lia|].
  rewrite cleanUp_loop_S, cleanUp_iteration_unfold. cbn zeta.
  destruct (w_df (world s)) as [|[df|err] rest] eqn:Hdf.
  - exists s. cbn. rewrite !app_nil_r. auto.
  - cbn in Hlow, Hlen.
    destruct (df >? DiskFreePercentage (conf (thr s))) eqn:Hcmp; [lia|].
    destruct (decide (size (files (thr s)) = 0%nat)) as [_|]; [|contradiction].
    match goal with
    | |- context [cleanUp_loop filepath_Join fuel ?s1] =>
        destruct (IH s1) as (s' & -> & Hm & Hl);
          [exact Hsz|cbn; lia|cbn; lia|]
    end.
    exists s'. split; [reflexivity|]. rewrite Hm, Hl. cbn.
    rewrite !measured_snoc, !logged_snoc, !app_nil_r, <- !app_assoc.
    split; reflexivity.
  - cbn in Hlow. lia.
Qed.

(** The three ways [deleteOldestThreadFile filepath_Join] goes on a non-empty tracked
    set, with the events of each. *)
Lemma deleteOldestThreadFile_cases s x l b :
  getSortedFiles (thr s) = x :: l →
  files (thr s) !! x = Some b →
  let t := thr s in
  let pkt := getPacketFilePath filepath_Join t x in
  let idx := getIndexFilePath filepath_Join t x in
  ∃ e s',
    deleteOldestThreadFile filepath_Join s = Ret e s' ∧
    match w_Remove (world s) pkt, w_Remove (world s) idx with
    | Some err, _ =>
        e = Some err ∧ thr s' = t ∧ w_closed (world s') = w_closed (world s) ∧
        w_trace (world s') =
          w_trace (world s)
          ++ [EvV 1 (VRemoving (id t) x); EvRemove pkt (Some err)]
    | None, Some err =>
        e = Some err ∧ thr s' = t ∧ w_closed (world s') = w_closed (world s) ∧
        w_trace (world s') =
          w_trace (world s)
          ++ [EvV 1 (VRemoving (id t) x); EvRemove pkt None;
              EvRemove idx (Some err)]
    | None, None =>
        e = None ∧ thr s' = set_files (delete x (files t)) t ∧
        w_closed (world s') = b :: w_closed (world s) ∧
        w_trace (world s') =
          w_trace (world s)
          ++ [EvV 1 (VRemoving (id t) x); EvRemove pkt None;
              EvRemove idx None; EvV 1 (VUntracking (id t) x);
              EvV 1 (VOldBlockfile (id t) (bf_name b)); EvClose b]
    end.
Proof.
  intros Hks Hb. cbn zeta.
  rewrite (deleteOldestThreadFile_unfold s x l Hks). cbn zeta.
  destruct (w_Remove (world s) (getPacketFilePath filepath_Join (thr s) x))
    as [err1|] eqn:Hr1.
  { eexists _, _. split; [reflexivity|]. cbn. rewrite Hr1, <- !app_assoc.
    destruct (w_Remove _ _); auto. }
  destruct (w_Remove (world s) (getIndexFilePath filepath_Join (thr s) x))
    as [err2|] eqn:Hr2.
  { eexists _, _. split; [reflexivity|]. cbn.
    rewrite Hr1, Hr2, <- !app_assoc. auto. }
  erewrite untrackFile_tracked by exact Hb.
  eexists _, _. split; [reflexivity|]. cbn.
  rewrite Hr1, Hr2, <- !app_assoc. auto.
Qed.

(** A failed removal ends the eviction phase: the error is logged, the
    tracked set and the handles are as before. *)
Lemma cleanUpOnLowDiskSpace_removal_fails s df rest x l err :
  w_df (world s) = inl df :: rest →
  df ≤ DiskFreePercentage (conf (thr s)) →
  getSortedFiles (thr s) = x :: l →
  removal_error filepath_Join s x = Some err →
  ∃ s',
    cleanUpOnLowDiskSpace filepath_Join s = Ret tt s' ∧
    thr s' = thr s ∧
    w_closed (world s') = w_closed (world s) ∧
    closed_in (w_trace (world s')) = closed_in (w_trace (world s)) ∧
    logged (w_trace (world s')) =
      logged (w_trace (world s)) ++ [LogCouldNotDelete (id (thr s)) err].
Proof.
  intros Hdf Hlow Hks Herr. unfold cleanUpOnLowDiskSpace.
  rewrite cleanUp_loop_S, cleanUp_iteration_unfold. cbn zeta.
  rewrite Hdf, Hks.
  assert ((df >? DiskFreePercentage (conf (thr s))) = false) as ->.
  { rewrite Z.gtb_ltb, Z.ltb_ge. exact Hlow. }
  destruct (decide (size (files (thr s)) = 0%nat)) as [Hsz|_].
  { apply getSortedFiles_nil in Hsz. congruence. }
  unfold removal_error in Herr.
  destruct (w_Remove (world s) (getPacketFilePath filepath_Join (thr s) x))
    as [err1|] eqn:Hr1.
  { injection Herr as ->. eexists. split; [reflexivity|]. cbn.
    rewrite !closed_in_snoc, !logged_snoc, !app_nil_r. auto. }
  rewrite Herr. eexists. split; [reflexivity|]. cbn.
  rewrite !closed_in_snoc, !logged_snoc, !app_nil_r. auto.
Qed.

End EvictionFacts.

(** ** Discovery *)

Section DiscoveryLoopFacts.

Variable filepath_Join : string -> string -> string.


(** The body of the discovery loop for one candidate, case by case. *)
Lemma sync_iteration_unfold filename cnt s :
  sync_iteration filepath_Join filename cnt s =
  let t := thr s in
  let path := filepath_Join (packetPath t) filename in
  match files t !! filename with
  | Some _ => Ret cnt s
  | None =>
      match w_NewBlockFile (world s) path with
      | Some err =>
          Ret cnt
            {| thr := t;
               world :=
                 push_event
                   (EvLog (LogErrorTracking (id t) filename
                             (ErrCouldNotOpen path err)))
                   (push_event (EvOpen path (Some err)) (world s)) |}
      | None =>
          Ret (cnt + 1)
            {| thr :=
                 set_fileLastSeen (w_now (world s))
                   (set_files
                      (<[filename :=
                           {| bf_name := path;
                              bf_id := w_next_handle (world s) |}]> (files t))
                      t);
               world :=
                 push_event (EvV 1 (VNewBlockfile path))
                   (push_event (EvOpen path None)
                      (set_next_handle (S (w_next_handle (world s)))
                         (world s))) |}
      end
  end.
Proof.
  unfold sync_iteration, bind, get_thread. cbn zeta.
  destruct (files (thr s) !! filename) as [b|] eqn:Hb.
  { destruct (decide (is_Some (Some b))) as [_|Hn]; [reflexivity|].
    exfalso. apply Hn. eauto. }
  destruct (decide (is_Some None)) as [[? Hn]|_]; [discriminate Hn|].
  unfold trackNewFile, bind, get_thread, NewBlockFile. cbn.
  destruct (w_NewBlockFile (world s) _); reflexivity.
Qed.

Lemma sync_loop_cons filename rest cnt s :
  sync_loop filepath_Join (filename :: rest) cnt s =
  match sync_iteration filepath_Join filename cnt s with
  | Ret cnt' s1 => sync_loop filepath_Join rest cnt' s1
  | Panic s1 => Panic s1
  | Blocked s1 => Blocked s1
  | Starved s1 => Starved s1
  end.
Proof. reflexivity. Qed.

(** What the two spec-side lists depend on. *)
Lemma newly_tracked_ext s s1 names :
  files (thr s1) = files (thr s) → packetPath (thr s1) = packetPath (thr s) →
  w_NewBlockFile (world s1) = w_NewBlockFile (world s) →
  newly_tracked filepath_Join s1 names = newly_tracked filepath_Join s names.
Proof.
  intros Hf Hp Ho. unfold newly_tracked, open_error.
  rewrite Hf, Hp, Ho. reflexivity.
Qed.

Lemma tracking_errors_ext s s1 names :
  files (thr s1) = files (thr s) → packetPath (thr s1) = packetPath (thr s) →
  id (thr s1) = id (thr s) →
  w_NewBlockFile (world s1) = w_NewBlockFile (world s) →
  tracking_errors filepath_Join s1 names = tracking_errors filepath_Join s names.
Proof.
  intros Hf Hp Hi Ho. unfold tracking_errors, open_error.
  rewrite Hf, Hp, Hi, Ho. reflexivity.
Qed.

Lemma elem_of_newly_tracked s names n :
  n ∈ newly_tracked filepath_Join s names ↔
  n ∈ names ∧ files (thr s) !! n = None ∧ open_error filepath_Join s n = None.
Proof.
  unfold newly_tracked. rewrite list_elem_of_filter.
  split; [intros [[? ?] ?]|intros (?&?&?)]; auto.
Qed.

(** Tracking one more name that opens does not change what is logged for
    the remaining candidates. *)
Lemma tracking_errors_insert s s1 f h names :
  files (thr s1) = <[f := h]> (files (thr s)) →
  packetPath (thr s1) = packetPath (thr s) → id (thr s1) = id (thr s) →
  w_NewBlockFile (world s1) = w_NewBlockFile (world s) →
  open_error filepath_Join s f = None →
  tracking_errors filepath_Join s1 names = tracking_errors filepath_Join s names.
Proof.
  intros Hf Hp Hi Ho Hopen.
  unfold tracking_errors, open_error in *.
  rewrite Hf, Hp, Hi, Ho.
  induction names as [|n names IH]; [reflexivity|]. cbn. rewrite IH.
  destruct (decide (n = f)) as [->|Hne].
  - rewrite lookup_insert_eq, Hopen.
    destruct (files (thr s) !! f); reflexivity.
  - rewrite lookup_insert_ne by congruence. reflexivity.
Qed.

Lemma handles_ok_track s s1 f :
  files (thr s) !! f = None →
  files (thr s1) =
    <[f := {| bf_name := filepath_Join (packetPath (thr s)) f;
              bf_id := w_next_handle (world s) |}]> (files (thr s)) →
  w_closed (world s1) = w_closed (world s) →
  w_next_handle (world s1) = S (w_next_handle (world s)) →
  handles_ok s → handles_ok s1.
Proof.
  unfold handles_ok. intros Hnone -> -> -> (Hopen & Hinj & Hcl).
  split; [|split].
  - intros n b Hn. apply lookup_insert_Some in Hn as [[<- <-]|[Hne Hn]].
    + cbn. split; [lia|]. intros Hin. apply Hcl in Hin. cbn in Hin. lia.
    + destruct (Hopen n b Hn). split; [lia|assumption].
  - intros n1 n2 b1 b2 H1 H2 Hid.
    apply lookup_insert_Some in H1 as [[<- <-]|[Hne1 H1]];
      apply lookup_insert_Some in H2 as [[<- <-]|[Hne2 H2]]; cbn in Hid.
    + reflexivity.
    + apply Hopen in H2 as [? _]. lia.
    + apply Hopen in H1 as [? _]. lia.
    + eauto.
  - intros b Hin. apply Hcl in Hin. lia.
Qed.

(** The discovery loop: it always returns; it tracks exactly the
    candidates that were not tracked and whose blockfile opens, keeps what
    was tracked, logs one error per failed candidate and goes on. *)
Lemma sync_loop_spec names : ∀ cnt s,
  ∃ cnt' s',
    sync_loop filepath_Join names cnt s = Ret cnt' s' ∧
    same_config (thr s) (thr s') ∧
    discovery_frame (world s) (world s') ∧
    dom (files (thr s')) =
      dom (files (thr s)) ∪ list_to_set (newly_tracked filepath_Join s names) ∧
    files (thr s) ⊆ files (thr s') ∧
    logged (w_trace (world s')) =
      logged (w_trace (world s)) ++ tracking_errors filepath_Join s names ∧
    (newly_tracked filepath_Join s names = [] → thr s' = thr s ∧ cnt' = cnt) ∧
    (newly_tracked filepath_Join s names ≠ [] →
       fileLastSeen (thr s') = w_now (world s) ∧ cnt < cnt') ∧
    (handles_ok s → handles_ok s').
Proof.
  induction names as [|f rest IH]; intros cnt s.
  { exists cnt, s. cbn. unfold same_config, discovery_frame, same_oracles.
    rewrite app_nil_r. split_and!; auto.
    - symmetry. apply (right_id_L ∅ (∪)).
    - intros H. contradiction. }
  rewrite sync_loop_cons, sync_iteration_unfold. cbn zeta.
  destruct (files (thr s) !! f) as [b|] eqn:Hb.
  { destruct (IH cnt s) as (cnt' & s' & -> & Hc & Hw & Hd & Hsub & Hl & Hz & Hnz & Hok).
    exists cnt', s'. split; [reflexivity|].
    assert (newly_tracked filepath_Join s (f :: rest) = newly_tracked filepath_Join s rest) as ->.
    { unfold newly_tracked. rewrite filter_cons.
      destruct (decide _) as [[Hn _]|_]; [congruence|reflexivity]. }
    assert (tracking_errors filepath_Join s (f :: rest) = tracking_errors filepath_Join s rest) as ->.
    { unfold tracking_errors. cbn. rewrite Hb. reflexivity. }
    auto 10. }
  destruct (w_NewBlockFile (world s) (filepath_Join (packetPath (thr s)) f))
    as [err|] eqn:Ho.
  { match goal with
    | |- context [sync_loop filepath_Join rest cnt ?s1] =>
        destruct (IH cnt s1)
          as (cnt' & s' & -> & Hc & Hw & Hd & Hsub & Hl & Hz & Hnz & Hok);
        rewrite (newly_tracked_ext s s1) in Hd, Hz, Hnz by reflexivity;
        rewrite (tracking_errors_ext s s1) in Hl by reflexivity
    end.
    exists cnt', s'. split; [reflexivity|].
    assert (newly_tracked filepath_Join s (f :: rest) = newly_tracked filepath_Join s rest) as ->.
    { unfold newly_tracked. rewrite filter_cons.
      destruct (decide _) as [[_ Hn]|_]; [|reflexivity].
      unfold open_error in Hn. congruence. }
    assert (tracking_errors filepath_Join s (f :: rest) =
            LogErrorTracking (id (thr s)) f
              (ErrCouldNotOpen (filepath_Join (packetPath (thr s)) f) err)
            :: tracking_errors filepath_Join s rest) as ->.
    { unfold tracking_errors, open_error. cbn.
      rewrite Hb, Ho. reflexivity. }
    cbn in Hc, Hw, Hd, Hsub, Hl, Hnz.
    rewrite !logged_snoc, app_nil_r, <- app_assoc in Hl.
    split_and!; tauto. }
  match goal with
  | |- context [sync_loop filepath_Join rest (cnt + 1) ?s1] =>
      destruct (IH (cnt + 1) s1)
        as (cnt' & s' & -> & Hc & Hw & Hd & Hsub & Hl & Hz & Hnz & Hok);
      pose proof (tracking_errors_insert s s1 f _ rest eq_refl eq_refl eq_refl
                    eq_refl Ho) as Hte;
      pose proof (handles_ok_track s s1 f Hb eq_refl eq_refl eq_refl) as Hht;
      assert (∀ n, n ∈ newly_tracked filepath_Join s1 rest ↔
                   n ∈ newly_tracked filepath_Join s rest ∧ n ≠ f) as Hnt
  end.
  { intros n. rewrite !elem_of_newly_tracked. cbn.
    unfold open_error. cbn. rewrite lookup_insert_None.
    split; [intros (?&(?&?)&?)|intros ((?&?&?)&?)]; auto. }
  rewrite Hte in Hl. clear Hte.
  exists cnt', s'. split; [reflexivity|].
  assert (newly_tracked filepath_Join s (f :: rest) = f :: newly_tracked filepath_Join s rest) as ->.
  { unfold newly_tracked. rewrite filter_cons.
    destruct (decide _) as [_|Hn]; [reflexivity|].
    exfalso. apply Hn. split; [exact Hb|exact Ho]. }
  assert (tracking_errors filepath_Join s (f :: rest) = tracking_errors filepath_Join s rest) as ->.
  { unfold tracking_errors, open_error. cbn.
    rewrite Hb, Ho. reflexivity. }
  cbn in Hc, Hw, Hd, Hsub, Hl, Hz, Hnz.
  rewrite !logged_snoc, !app_nil_r in Hl.
  unfold same_config, discovery_frame, same_oracles in *. cbn in Hc, Hw.
  split_and!; try tauto.
  - destruct Hw as (_&_&_&_&?). lia.
  - rewrite Hd, dom_insert_L, list_to_set_cons.
    apply set_eq. intros n. specialize (Hnt n).
    rewrite !elem_of_union, !elem_of_list_to_set, !elem_of_singleton.
    destruct (decide (n = f)); tauto.
  - etransitivity; [|exact Hsub]. apply insert_subseteq. exact Hb.
  - intros H. discriminate H.
  - intros _. destruct (newly_tracked filepath_Join _ rest) eqn:E.
    + destruct (Hz eq_refl) as [-> ->]. cbn. split; [reflexivity|lia].
    + destruct Hnz as [-> ?]; [discriminate|]. cbn. split; [reflexivity|lia].
Qed.

End DiscoveryLoopFacts.

Section DiscoveryFacts.

Variable filepath_Join : string -> string -> string.
Variable BlockfilePathFromIndexPath : string -> string.


Lemma listed_spec f :
  listed f ↔ IsDir f = false ∧ starts_with_dot (Name f) = false.
Proof.
  unfold listed. destruct (IsDir f), (starts_with_dot (Name f)); cbn;
    split; intros H; try done; destruct H; done.
Qed.

(** The loop over the directory entries collects, in order, the names
    derived from the entries that are neither directories nor dot-prefixed. *)
Lemma listing_loop_spec entries : ∀ out s,
  Forall well_named entries →
  listing_loop BlockfilePathFromIndexPath entries out s = Ret (out ++ candidates BlockfilePathFromIndexPath entries) s.
Proof.
  induction entries as [|f rest IH]; intros out s Hwn.
  { cbn. unfold ret. rewrite app_nil_r. reflexivity. }
  inversion Hwn as [|? ? Hf Hrest]; subst.
  cbn [listing_loop]. unfold candidates.
  rewrite filter_cons. unfold well_named in Hf.
  destruct (decide (listed f)) as [Hl|Hl]; rewrite listed_spec in Hl.
  - destruct Hl as [Hd Hdot]. rewrite Hd.
    destruct (Name f) as [|c n'] eqn:Hn; [exfalso; by apply Hf|].
    cbn in Hdot. apply bool_decide_eq_false in Hdot.
    destruct (decide (c = "."%char)); [contradiction|].
    rewrite IH by exact Hrest. cbn. rewrite Hn, <- app_assoc. reflexivity.
  - destruct (IsDir f) eqn:Hd; [apply IH; exact Hrest|].
    destruct (Name f) as [|c n'] eqn:Hn; [exfalso; by apply Hf|].
    destruct (decide (c = "."%char)) as [->|Hc]; [apply IH; exact Hrest|].
    exfalso. apply Hl. split; [reflexivity|]. cbn.
    apply bool_decide_eq_false. exact Hc.
Qed.

(** A regular entry with an empty name makes the listing panic. *)
Lemma listing_loop_panics rest out s :
  listing_loop BlockfilePathFromIndexPath ({| Name := ""; IsDir := false |} :: rest) out s = Panic s.
Proof. reflexivity. Qed.

Lemma listPacketFilesOnDisk_unfold s :
  disk_well_named s →
  listPacketFilesOnDisk BlockfilePathFromIndexPath s =
  Ret (disk_candidates BlockfilePathFromIndexPath s)
    match w_ReadDir (world s) (indexPath (thr s)) with
    | inl _ => exec (ioutil_ReadDir (indexPath (thr s))) s
    | inr err =>
        exec (log_Printf (LogCouldNotReadDir (id (thr s)) (indexPath (thr s)) err))
          (exec (ioutil_ReadDir (indexPath (thr s))) s)
    end.
Proof.
  unfold disk_well_named, disk_candidates,
    listPacketFilesOnDisk, bind, get_thread, ioutil_ReadDir.
  destruct (w_ReadDir (world s) (indexPath (thr s))) as [entries|err];
    [|reflexivity].
  intros Hwn. rewrite listing_loop_spec by exact Hwn. reflexivity.
Qed.

(** [syncFilesWithDisk filepath_Join BlockfilePathFromIndexPath] as a whole. *)
Lemma syncFilesWithDisk_spec s :
  disk_well_named s →
  ∃ s',
    syncFilesWithDisk filepath_Join BlockfilePathFromIndexPath s = Ret tt s' ∧
    same_config (thr s) (thr s') ∧
    discovery_frame (world s) (world s') ∧
    dom (files (thr s')) =
      dom (files (thr s)) ∪ list_to_set (newly_tracked filepath_Join s (disk_candidates BlockfilePathFromIndexPath s)) ∧
    files (thr s) ⊆ files (thr s') ∧
    logged (w_trace (world s')) =
      logged (w_trace (world s)) ++ readdir_errors s
      ++ tracking_errors filepath_Join s (disk_candidates BlockfilePathFromIndexPath s) ∧
    (newly_tracked filepath_Join s (disk_candidates BlockfilePathFromIndexPath s) = [] → thr s' = thr s) ∧
    (newly_tracked filepath_Join s (disk_candidates BlockfilePathFromIndexPath s) ≠ [] →
       fileLastSeen (thr s') = w_now (world s)) ∧
    (handles_ok s → handles_ok s').
Proof.
  intros Hwn. unfold syncFilesWithDisk, bind.
  rewrite (listPacketFilesOnDisk_unfold s Hwn).
  set (names := disk_candidates BlockfilePathFromIndexPath s).
  match goal with
  | |- context [sync_loop _ names 0 ?s0] =>
      set (s1 := s0);
      destruct (sync_loop_spec filepath_Join names 0 s1)
        as (cnt' & s' & -> & Hc & Hw & Hd & Hsub & Hl & Hz & Hnz & Hok)
  end.
  assert (thr s1 = thr s ∧ w_NewBlockFile (world s1) = w_NewBlockFile (world s)
          ∧ discovery_frame (world s) (world s1)
          ∧ w_next_handle (world s1) = w_next_handle (world s)
          ∧ logged (w_trace (world s1)) =
              logged (w_trace (world s)) ++ readdir_errors s)
    as (Ht & Ho & Hw1 & Hnh & Hl1).
  { unfold s1, readdir_errors, discovery_frame, same_oracles.
    destruct (w_ReadDir (world s) (indexPath (thr s))); cbn;
      rewrite ?logged_snoc, ?app_nil_r; auto 10. }
  clearbody s1.
  rewrite (newly_tracked_ext filepath_Join s s1) in Hd, Hz, Hnz by (rewrite ?Ht; auto).
  rewrite (tracking_errors_ext filepath_Join s s1) in Hl by (rewrite ?Ht; auto).
  rewrite Ht in Hc, Hd, Hsub. rewrite Hl1, <- app_assoc in Hl.
  assert (discovery_frame (world s) (world s')) as Hw'.
  { unfold discovery_frame, same_oracles in *.
    destruct Hw as ((?&?&?)&?&?&?&?), Hw1 as ((?&?&?)&?&?&?&?).
    split_and!; try congruence; try lia. }
  assert (handles_ok s → handles_ok s1) as Hok1.
  { apply handles_ok_frame; [rewrite Ht; reflexivity| |exact Hnh].
    apply Hw1. }
  assert (w_now (world s1) = w_now (world s)) as Hnow by apply Hw1.
  unfold get_thread. cbn beta iota.
  destruct (cnt' >? 0).
  - eexists. split; [reflexivity|]. cbn. rewrite logged_snoc, app_nil_r.
    unfold discovery_frame, same_oracles in *. cbn.
    split_and!; try tauto.
    + intros H. rewrite <- Ht. apply Hz. exact H.
    + intros H. rewrite <- Hnow. apply Hnz. exact H.
  - eexists. split; [reflexivity|].
    split_and!; try tauto.
    + intros H. rewrite <- Ht. apply Hz. exact H.
    + intros H. rewrite <- Hnow. apply Hnz. exact H.
Qed.

Lemma SyncFiles_unfold s :
  SyncFiles filepath_Join BlockfilePathFromIndexPath s =
  match RWMutex_Lock (mu (thr s)) with
  | None => Blocked s
  | Some m =>
      match syncFilesWithDisk filepath_Join BlockfilePathFromIndexPath (with_mu m s) with
      | Ret _ s1 =>
          match cleanUpOnLowDiskSpace filepath_Join s1 with
          | Ret _ s2 => mu_Unlock s2
          | Panic s2 => Panic s2
          | Blocked s2 => Blocked s2
          | Starved s2 => Starved s2
          end
      | Panic s1 => Panic s1
      | Blocked s1 => Blocked s1
      | Starved s1 => Starved s1
      end
  end.
Proof.
  unfold SyncFiles, bind, mu_Lock.
  destruct (RWMutex_Lock (mu (thr s))); reflexivity.
Qed.

(** With nothing new on disk and enough free space, [SyncFiles] is a no-op
    on the thread. *)
Lemma SyncFiles_noop s df rest :
  mu (thr s) = {| readers := 0; writer := false |} →
  disk_well_named s →
  (∀ n, n ∈ disk_candidates BlockfilePathFromIndexPath s → is_Some (files (thr s) !! n)) →
  w_df (world s) = inl df :: rest →
  df > DiskFreePercentage (conf (thr s)) →
  ∃ s',
    SyncFiles filepath_Join BlockfilePathFromIndexPath s = Ret tt s' ∧
    thr s' = thr s.
Proof.
  intros Hmu Hwn Hold Hdf Hgt.
  rewrite SyncFiles_unfold, Hmu. cbn [RWMutex_Lock writer readers].
  set (s1 := with_mu _ s).
  destruct (syncFilesWithDisk_spec s1) as (s2 & -> & _ & Hw & _ & _ & _ & Hz & _).
  { exact Hwn. }
  assert (thr s2 = thr s1) as Ht.
  { apply Hz. apply elem_of_nil_inv. intros n Hn.
    apply elem_of_newly_tracked in Hn as (Hn & Hnone & _).
    apply Hold in Hn as [b Hb]. cbn in Hnone. congruence. }
  assert (w_df (world s2) = inl df :: rest) as Hdf2.
  { destruct Hw as (_ & -> & _). exact Hdf. }
  unfold cleanUpOnLowDiskSpace. rewrite cleanUp_loop_S, cleanUp_iteration_unfold.
  cbn zeta. rewrite Hdf2, Ht.
  assert ((df >? DiskFreePercentage (conf (thr s1))) = true) as ->.
  { apply Z.gtb_lt. cbn. lia. }
  unfold mu_Unlock. cbn. rewrite Ht. cbn.
  eexists. split; [reflexivity|]. cbn.
  destruct (thr s) as [i c ip pp fs m fl]. cbn in *. subst m. reflexivity.
Qed.

End DiscoveryFacts.

(** ** Lookup *)

Section LookupFacts.

Variable Packet : Type.
Variable Query : Type.
Variable bf_Lookup : BlockFile -> Query -> list Packet.


Lemma StronglySorted_take {A} (R : relation A) (l : list A) n :
  StronglySorted R l → StronglySorted R (take n l).
Proof.
  intros Hs. rewrite <- (take_drop n l) in Hs.
  eapply StronglySorted_app_1_l. exact Hs.
Qed.

Lemma StronglySorted_cut {A} (R : relation A) (l : list A) limit :
  StronglySorted R l → StronglySorted R (cut limit l).
Proof. destruct limit; [apply StronglySorted_take|auto]. Qed.

Lemma StronglySorted_lookup {A} (R : relation A) (l : list A) i j x y :
  StronglySorted R l → l !! i = Some x → l !! j = Some y → (i < j)%nat →
  R x y.
Proof.
  intros Hs. revert i j. induction Hs as [|a l Hs IH Hall]; intros i j Hi Hj Hlt.
  { rewrite lookup_nil in Hi. discriminate Hi. }
  destruct j as [|j]; [lia|]. cbn in Hj.
  destruct i as [|i]; cbn in Hi.
  - injection Hi as <-. rewrite Forall_forall in Hall. apply Hall.
    eapply list_elem_of_lookup_2. exact Hj.
  - eapply IH; eauto. lia.
Qed.

Lemma elem_of_cut {A} (l : list A) limit x : x ∈ cut limit l → x ∈ l.
Proof.
  destruct limit as [k|]; [|auto]. cbn. apply subseteq_take.
Qed.

(** The fan-out over tracked names never dereferences nil, and every
    packet of the channel admitted for a file carries that file's name. *)
Lemma Lookup_fanout_spec t ctx q names :
  (∀ f, f ∈ names → is_Some (files t !! f)) →
  ∃ streams,
    Lookup_fanout Packet Query bf_Lookup t ctx q names = Some streams ∧
    Forall2 (fun f st => Forall (fun x => x.1 = f) st) names streams.
Proof.
  induction names as [|f rest IH]; intros Htr.
  { exists []. split; [reflexivity|constructor]. }
  destruct IH as (streams & Hs & Hall).
  { intros g Hg. apply Htr. right. exact Hg. }
  destruct (Htr f) as [b Hb]; [left|].
  cbn. rewrite Hb, Hs. cbn. eexists. split; [reflexivity|].
  constructor; [|exact Hall].
  apply Forall_forall. intros x Hx. apply list_elem_of_fmap in Hx as (p & -> & _).
  reflexivity.
Qed.

(** Channels admitted in sorted order concatenate to a stream whose
    files of origin are sorted. *)
Lemma origins_sorted names (streams : list (list (string * Packet))) :
  StronglySorted string_le names →
  Forall2 (fun f st => Forall (fun x => x.1 = f) st) names streams →
  StronglySorted string_le ((concat streams).*1) ∧
  ∀ f, f ∈ (concat streams).*1 → f ∈ names.
Proof.
  intros Hs Hall. induction Hall as [|f st names streams Hst Hall IH].
  { cbn. split; [constructor|]. intros f Hf. exact Hf. }
  apply StronglySorted_cons in Hs as [Hle Hs].
  destruct (IH Hs) as [IHs IHin]. cbn. rewrite fmap_app.
  assert (∀ g, g ∈ st.*1 → g = f) as Hf.
  { intros g Hg. apply list_elem_of_fmap in Hg as (x & -> & Hx).
    rewrite Forall_forall in Hst. apply Hst. exact Hx. }
  split.
  - apply StronglySorted_app_2; [| |exact IHs].
    + intros g1 g2 H1 H2. rewrite (Hf g1 H1).
      rewrite Forall_forall in Hle. apply Hle, IHin. exact H2.
    + clear -Hf. induction (st.*1) as [|g l IHl]; constructor.
      * apply IHl. intros g' Hg'. apply Hf. right. exact Hg'.
      * apply Forall_forall. intros g' Hg'.
        rewrite (Hf g) by left. rewrite (Hf g') by (right; exact Hg').
        reflexivity.
  - intros g [Hg|Hg]%elem_of_app; [rewrite (Hf g Hg); left|].
    right. apply IHin. exact Hg.
Qed.

Lemma Lookup_fanout_background t q names :
  Lookup_fanout Packet Query bf_Lookup t Background q names =
  mapM (fun f => b ← files t !! f;
                 Some (map (fun p => (f, p)) (bf_Lookup b q))) names.
Proof.
  induction names as [|f rest IH]; [reflexivity|].
  cbn. rewrite IH. destruct (files t !! f); reflexivity.
Qed.

End LookupFacts.

(** ** The debug handler *)

Module DebugFacts.
Import Debug.

(** A check that holds for the 256 byte values holds for every byte. *)
Lemma forall_bytes (P : Z → bool) :
  forallb P (map Z.of_nat (seq 0 256)) = true →
  ∀ x, 0 ≤ x < 256 → P x = true.
Proof.
  intros Hall x Hx. rewrite forallb_forall in Hall. apply Hall.
  apply in_map_iff. exists (Z.to_nat x). split; [lia|].
  apply in_seq. lia.
Qed.

Lemma hex_byte_round_trip x rest :
  0 ≤ x < 256 →
  hex_DecodeString (hex_EncodeToString (x :: rest)) =
  match hex_DecodeString (hex_EncodeToString rest) with
  | Some l => Some (x :: l)
  | None => None
  end.
Proof.
  intros Hx.
  pose proof (forall_bytes byte_round_trips eq_refl x Hx) as Hb.
  unfold byte_round_trips in Hb. cbn [hex_EncodeToString hex_DecodeString].
  destruct (fromHexChar (hexdigit (Z.shiftr x 4))) as [a|]; [|discriminate Hb].
  destruct (fromHexChar (hexdigit (Z.land x 15))) as [b|]; [|discriminate Hb].
  apply Z.eqb_eq in Hb. rewrite Hb. reflexivity.
Qed.

Lemma hex_round_trip (l : list Z) :
  Forall (fun x => 0 ≤ x < 256) l →
  hex_DecodeString (hex_EncodeToString l) = Some l.
Proof.
  induction 1 as [|x l Hx _ IH]; [reflexivity|].
  rewrite hex_byte_round_trip by exact Hx. rewrite IH. reflexivity.
Qed.

Lemma byte_of_range x : 0 ≤ byte_of x < 256.
Proof.
  unfold byte_of. change 255 with (Z.ones 8). rewrite Z.land_ones by lia.
  apply Z.mod_pos_bound. lia.
Qed.

Lemma testbit_byte_of x n :
  0 ≤ n → Z.testbit (byte_of x) n = Z.testbit x n && (n <? 8).
Proof.
  intros Hn. unfold byte_of. change 255 with (Z.ones 8).
  rewrite Z.land_spec. f_equal.
  destruct (n <? 8) eqn:E.
  - apply Z.ltb_lt in E. apply Z.ones_spec_low. lia.
  - apply Z.ltb_ge in E. apply Z.ones_spec_high. lia.
Qed.

(** Writing a 32-bit value big-endian and reading it back. *)
Lemma Uint32_PutUint32 x :
  0 ≤ x < 2 ^ 32 → Uint32 (PutUint32 x) = Some x.
Proof.
  intros Hx. unfold PutUint32, Uint32. f_equal.
  apply Z.bits_inj'. intros n Hn.
  rewrite !Z.lor_spec.
  assert (∀ k, 0 ≤ k →
            Z.testbit (Z.shiftl (byte_of (Z.shiftr x k)) k) n
            = Z.testbit x n && (k <=? n) && (n <? k + 8)) as Hshift.
  { intros k Hk. rewrite Z.shiftl_spec by lia.
    destruct (k <=? n) eqn:E1.
    - apply Z.leb_le in E1. rewrite testbit_byte_of by lia.
      rewrite Z.shiftr_spec by lia. replace (n - k + k) with n by lia.
      rewrite andb_true_r. f_equal.
      destruct (n <? k + 8) eqn:E2; [apply Z.ltb_lt in E2|apply Z.ltb_ge in E2].
      + apply Z.ltb_lt. lia.
      + apply Z.ltb_ge. lia.
    - apply Z.leb_gt in E1. rewrite Z.testbit_neg_r by lia.
      rewrite andb_false_r. reflexivity. }
  rewrite !Hshift by lia. rewrite testbit_byte_of by lia.
  destruct (Z.testbit x n) eqn:Hbit; [|reflexivity]. cbn.
  assert (n < 32) as Hlt.
  { destruct (Z.lt_ge_cases n 32) as [|Hge]; [assumption|exfalso].
    rewrite Z.bits_above_log2 in Hbit; [discriminate| lia |].
    destruct (Z.eq_dec x 0) as [->|]; [rewrite Z.log2_nonpos by lia; lia|].
    assert (2 ^ 32 ≤ 2 ^ n) by (apply Z.pow_le_mono_r; lia).
    apply Z.log2_lt_pow2; lia. }
  repeat match goal with
         | |- context [?a <? ?b] => destruct (Z.ltb_spec a b)
         | |- context [?a <=? ?b] => destruct (Z.leb_spec a b)
         end; cbn; try reflexivity; lia.
Qed.

Lemma uint32_range pos : 0 ≤ uint32 pos < 2 ^ 32.
Proof. unfold uint32. apply Z.mod_pos_bound. lia. Qed.

(** An emitted offset reads back as the low 32 bits of the position. *)
Lemma decode_offset_encode pos :
  decode_offset (hex_EncodeToString (PutUint32 (uint32 pos)))
  = Some (uint32 pos).
Proof.
  unfold decode_offset. rewrite hex_round_trip.
  - cbn [length PutUint32].
    destruct (decide (4%nat = 4%nat)) as [_|Hne]; [|contradiction].
    apply Uint32_PutUint32, uint32_range.
  - unfold PutUint32. repeat constructor; apply byte_of_range.
Qed.

Lemma offset_string_length pos :
  String.length (hex_EncodeToString (PutUint32 (uint32 pos))) = 8%nat.
Proof. reflexivity. Qed.

Section HandlerFacts.

Variable Query : Type.
Variable query_NewQuery : string -> Query + string.
Variable bf_Positions : BlockFile -> Query -> list Z + string.
Variable IsAllPositions : list Z -> bool.

Lemma write_positions_lines positions :
  write_positions positions =
  String.concat ""
    (map (fun h => tab +:+ h +:+ nl) (offset_strings positions)).
Proof.
  induction positions as [|pos rest IH]; [reflexivity|].
  cbn [write_positions offset_strings map]. rewrite IH.
  destruct rest as [|pos' rest]; [reflexivity|].
  cbn [offset_strings map String.concat]. reflexivity.
Qed.

End HandlerFacts.

End DebugFacts.

(** ** Lookup against SyncFiles *)

Module ConcFacts.
Import Conc.

Lemma length_filter_insert {A} (P : A → Prop) `{!∀ x, Decision (P x)}
    (l : list A) i x y :
  l !! i = Some x →
  (length (filter P (<[i:=y]> l)) + (if decide (P x) then 1 else 0)
   = length (filter P l) + (if decide (P y) then 1 else 0))%nat.
Proof.
  revert i. induction l as [|a l IH]; intros i Hi.
  { rewrite lookup_nil in Hi. discriminate Hi. }
  destruct i as [|i]; cbn in Hi.
  - injection Hi as ->. change (<[0%nat:=y]> (x :: l)) with (y :: l).
    rewrite !filter_cons.
    destruct (decide (P x)), (decide (P y)); cbn [length]; lia.
  - specialize (IH i Hi).
    change (<[S i:=y]> (a :: l)) with (a :: <[i:=y]> l).
    rewrite !filter_cons.
    destruct (decide (P a)); cbn [length]; lia.
Qed.

Lemma read_holds_insert ls i l l' :
  ls !! i = Some l →
  (read_holds (<[i:=l']> ls) + (if holds_read l then 1 else 0)
   = read_holds ls + (if holds_read l' then 1 else 0))%nat.
Proof.
  intros Hi. unfold read_holds.
  pose proof (length_filter_insert (fun l => holds_read l = true) ls i l l' Hi)
    as H.
  destruct (decide (holds_read l = true)) as [->|Hn],
           (decide (holds_read l' = true)) as [->|Hn'];
    try (apply not_true_is_false in Hn; rewrite Hn);
    try (apply not_true_is_false in Hn'; rewrite Hn'); exact H.
Qed.

Lemma write_holds_insert ys j y y' :
  ys !! j = Some y →
  (write_holds (<[j:=y']> ys) + (if holds_write y then 1 else 0)
   = write_holds ys + (if holds_write y' then 1 else 0))%nat.
Proof.
  intros Hj. unfold write_holds.
  pose proof (length_filter_insert (fun y => holds_write y = true) ys j y y' Hj)
    as H.
  destruct (decide (holds_write y = true)) as [->|Hn],
           (decide (holds_write y' = true)) as [->|Hn'];
    try (apply not_true_is_false in Hn; rewrite Hn);
    try (apply not_true_is_false in Hn'; rewrite Hn'); exact H.
Qed.

Lemma read_holds_app ls l :
  read_holds (ls ++ [l]) = (read_holds ls + (if holds_read l then 1 else 0))%nat.
Proof.
  unfold read_holds. rewrite filter_app, length_app.
  rewrite (filter_cons _ l []), filter_nil.
  destruct (decide (holds_read l = true)) as [Ht|Hn]; [rewrite Ht; reflexivity|].
  apply not_true_is_false in Hn. rewrite Hn. reflexivity.
Qed.

Lemma write_holds_app ys y :
  write_holds (ys ++ [y]) = (write_holds ys + (if holds_write y then 1 else 0))%nat.
Proof.
  unfold write_holds. rewrite filter_app, length_app.
  rewrite (filter_cons _ y []), filter_nil.
  destruct (decide (holds_write y = true)) as [Ht|Hn]; [rewrite Ht; reflexivity|].
  apply not_true_is_false in Hn. rewrite Hn. reflexivity.
Qed.

Lemma read_holds_zero ls l :
  read_holds ls = 0%nat → l ∈ ls → holds_read l = false.
Proof.
  unfold read_holds. intros Hz Hl.
  apply length_zero_iff_nil in Hz.
  apply not_true_is_false. intros Ht.
  exact (filter_nil_not_elem_of _ _ _ Hz Ht Hl).
Qed.

Lemma write_holds_zero ys y :
  write_holds ys = 0%nat → y ∈ ys → holds_write y = false.
Proof.
  unfold write_holds. intros Hz Hy.
  apply length_zero_iff_nil in Hz.
  apply not_true_is_false. intros Ht.
  exact (filter_nil_not_elem_of _ _ _ Hz Ht Hy).
Qed.

Lemma read_holds_pos ls l :
  l ∈ ls → holds_read l = true → (0 < read_holds ls)%nat.
Proof.
  intros Hl Ht. destruct (read_holds ls) eqn:E; [|lia].
  rewrite (read_holds_zero ls l E Hl) in Ht. discriminate Ht.
Qed.

Lemma write_holds_pos ys y :
  y ∈ ys → holds_write y = true → (0 < write_holds ys)%nat.
Proof.
  intros Hy Ht. destruct (write_holds ys) eqn:E; [|lia].
  rewrite (write_holds_zero ys y E Hy) in Ht. discriminate Ht.
Qed.

(** While a [Lookup] holds the lock, no [SyncFiles] is inside. *)
Lemma lock_inv_excludes m ls ys l y :
  lock_inv m ls ys → l ∈ ls → holds_read l = true → y ∈ ys →
  holds_write y = false.
Proof.
  intros (Hr & Hw & Hx) Hl Hh Hy.
  pose proof (read_holds_pos ls l Hl Hh) as Hpos.
  destruct (writer m) eqn:Ew.
  - specialize (Hx eq_refl). lia.
  - apply (write_holds_zero ys y Hw Hy).
Qed.

Lemma task_ok_ext s s' l :
  files (thr s') = files (thr s) → task_ok s l → task_ok s' l.
Proof. unfold task_ok. intros ->. auto. Qed.

Lemma task_ok_released s s' l :
  holds_read l = false → task_ok s l → task_ok s' l.
Proof.
  unfold task_ok. intros Hf [_ Hd]. split; [|exact Hd].
  intros Ht. congruence.
Qed.

Section StepFacts.

Variable filepath_Join : string -> string -> string.
Variable BlockfilePathFromIndexPath : string -> string.

Abbreviation step := (step filepath_Join BlockfilePathFromIndexPath).
Abbreviation reachable := (reachable filepath_Join BlockfilePathFromIndexPath).

Lemma initial_Inv sys : initial sys → Inv sys.
Proof.
  destruct sys as [s ls ys]. unfold initial, Inv. cbn.
  intros (Hf & Hm & Hc & -> & ->). rewrite Hm. split_and!.
  - split_and!; cbn; [reflexivity|reflexivity|discriminate].
  - unfold handles_ok. rewrite Hf, Hc. split_and!.
    + intros n b Hn. rewrite lookup_empty in Hn. discriminate Hn.
    + intros n1 n2 b1 b2 Hn. rewrite lookup_empty in Hn. discriminate Hn.
    + intros b Hb. apply elem_of_nil in Hb. destruct Hb.
  - constructor.
Qed.

Lemma bind_Ret_inv {A B} (m : M A) (k : A → M B) s b s' :
  bind m k s = Ret b s' → ∃ a s1, m s = Ret a s1 ∧ k a s1 = Ret b s'.
Proof.
  unfold bind. destruct (m s) as [a s1|s1|s1|s1]; try discriminate.
  intros H. exists a, s1. auto.
Qed.

Lemma listing_loop_Ret_well_named entries : ∀ out s r s',
  listing_loop BlockfilePathFromIndexPath entries out s = Ret r s' →
  Forall well_named entries.
Proof.
  induction entries as [|f rest IH]; intros out s r s' Hret; [constructor|].
  cbn [listing_loop] in Hret. unfold well_named, panic in *.
  destruct (IsDir f) eqn:Hd.
  { constructor; [intros Hf; congruence|]. eapply IH. exact Hret. }
  destruct (Name f) as [|c n'] eqn:Hn; [discriminate Hret|].
  constructor; [intros _ He; rewrite Hn in He; discriminate He|].
  destruct (decide (c = "."%char)); eapply IH; exact Hret.
Qed.

(** A discovery pass that returns saw a well-named directory. *)
Lemma syncFilesWithDisk_Ret_well_named s s' :
  syncFilesWithDisk filepath_Join BlockfilePathFromIndexPath s = Ret tt s' →
  disk_well_named s.
Proof.
  intros Hret. unfold syncFilesWithDisk in Hret.
  apply bind_Ret_inv in Hret as (names & s1 & Hlist & _).
  unfold listPacketFilesOnDisk in Hlist.
  apply bind_Ret_inv in Hlist as (t & s2 & Ht & Hlist).
  injection Ht as <- <-.
  apply bind_Ret_inv in Hlist as (r & s3 & Hrd & Hlist).
  unfold ioutil_ReadDir in Hrd. injection Hrd as <- <-.
  unfold disk_well_named.
  destruct (w_ReadDir (world s) (indexPath (thr s))) as [entries|err];
    [|exact I].
  eapply listing_loop_Ret_well_named. exact Hlist.
Qed.

(** While a [SyncFiles] is inside, the writer flag is set and no
    [Lookup] holds the lock. *)
Lemma writer_inside m ls ys j y :
  lock_inv m ls ys → ys !! j = Some y → holds_write y = true →
  writer m = true ∧ ∀ l, l ∈ ls → holds_read l = false.
Proof.
  intros (Hr & Hw & Hx) Hj Hy.
  pose proof (write_holds_pos ys y (list_elem_of_lookup_2 _ _ _ Hj) Hy) as Hpos.
  destruct (writer m) eqn:Ew; [|lia]. split; [reflexivity|].
  intros l Hl. apply (read_holds_zero ls); [|exact Hl].
  rewrite <- Hr. apply Hx. reflexivity.
Qed.

(** Moving a [Lookup] between two program points at which it holds the
    lock keeps the mutex in agreement with the calls. *)
Lemma lock_inv_lookup_moves m ls ys i l l' :
  lock_inv m ls ys → ls !! i = Some l →
  holds_read l = true → holds_read l' = true →
  lock_inv m (<[i:=l']> ls) ys.
Proof.
  intros (Hr & Hw & Hx) Hi Hl Hl'. split_and!; [|exact Hw|exact Hx].
  pose proof (read_holds_insert ls i l l' Hi) as H.
  rewrite Hl, Hl' in H. lia.
Qed.

Lemma lock_inv_sync_moves m ls ys j y y' :
  lock_inv m ls ys → ys !! j = Some y →
  holds_write y = holds_write y' →
  lock_inv m ls (<[j:=y']> ys).
Proof.
  intros (Hr & Hw & Hx) Hj Hy. split_and!; [exact Hr| |exact Hx].
  pose proof (write_holds_insert ys j y y' Hj) as H.
  rewrite Hy in H. destruct (holds_write y'); lia.
Qed.

Lemma Forall_task_ok_insert s ls i l' :
  Forall (task_ok s) ls → task_ok s l' → Forall (task_ok s) (<[i:=l']> ls).
Proof. apply Forall_insert. Qed.

Lemma step_preserves_Inv sys sys' : Inv sys → step sys sys' → Inv sys'.
Proof.
  intros (Hlock & Hok & Htasks) Hstep.
  inversion Hstep; subst; unfold Inv; cbn [sys_state sys_lookups sys_syncs] in *.
  - (* Lookup: RLock *)
    unfold RWMutex_RLock in *. destruct (writer (mu (thr s))) eqn:Ew;
      [discriminate|]. match goal with H : Some _ = Some _ |- _ =>
                                         injection H as <- end.
    destruct Hlock as (Hr & Hw & Hx). rewrite Ew in Hw. split_and!.
    + unfold lock_inv, with_mu. cbn [thr mu set_mu readers writer]. split_and!; [|exact Hw|discriminate].
      rewrite read_holds_app. cbn. lia.
    + revert Hok. apply handles_ok_frame; reflexivity.
    + apply Forall_app. split.
      * eapply Forall_impl; [exact Htasks|]. intros l. apply task_ok_ext.
        reflexivity.
      * constructor; [|constructor]. split; cbn; [|discriminate].
        intros _ b Hb. apply elem_of_nil in Hb. destruct Hb.
  - (* Lookup: the goroutine reads the sorted names *)
    assert (task_ok s l) as [Hst Hdone].
    { rewrite Forall_forall in Htasks. apply Htasks.
      eapply list_elem_of_lookup_2; eassumption. }
    assert (holds_read l = true) as Hh.
    { unfold holds_read. match goal with H : l_pc l = _ |- _ => rewrite H end.
      reflexivity. }
    split_and!; [|exact Hok|].
    + eapply lock_inv_lookup_moves; eauto.
    + apply Forall_task_ok_insert; [exact Htasks|].
      split; cbn; [auto|discriminate].
  - (* Lookup: a per-file query is started *)
    assert (task_ok s l) as [Hst Hdone].
    { rewrite Forall_forall in Htasks. apply Htasks.
      eapply list_elem_of_lookup_2; eassumption. }
    assert (holds_read l = true) as Hh.
    { unfold holds_read. match goal with H : l_pc l = _ |- _ => rewrite H end.
      reflexivity. }
    split_and!; [|exact Hok|].
    + eapply lock_inv_lookup_moves; eauto.
    + apply Forall_task_ok_insert; [exact Htasks|].
      split; cbn; [|discriminate].
      intros _ b' [->|Hb']%elem_of_cons; [eauto|auto].
  - (* Lookup: cancelled during the fan-out *)
    assert (task_ok s l) as [Hst Hdone].
    { rewrite Forall_forall in Htasks. apply Htasks.
      eapply list_elem_of_lookup_2; eassumption. }
    assert (holds_read l = true) as Hh.
    { unfold holds_read. match goal with H : l_pc l = _ |- _ => rewrite H end.
      reflexivity. }
    split_and!; [|exact Hok|].
    + eapply lock_inv_lookup_moves; eauto.
    + apply Forall_task_ok_insert; [exact Htasks|].
      split; cbn; [auto|discriminate].
  - (* Lookup: the fan-out loop ends *)
    assert (task_ok s l) as [Hst Hdone].
    { rewrite Forall_forall in Htasks. apply Htasks.
      eapply list_elem_of_lookup_2; eassumption. }
    assert (holds_read l = true) as Hh.
    { unfold holds_read. match goal with H : l_pc l = _ |- _ => rewrite H end.
      reflexivity. }
    split_and!; [|exact Hok|].
    + eapply lock_inv_lookup_moves; eauto.
    + apply Forall_task_ok_insert; [exact Htasks|].
      split; cbn; [auto|discriminate].
  - (* Lookup: close(inputs) *)
    assert (task_ok s l) as [Hst Hdone].
    { rewrite Forall_forall in Htasks. apply Htasks.
      eapply list_elem_of_lookup_2; eassumption. }
    assert (holds_read l = true) as Hh.
    { unfold holds_read. match goal with H : l_pc l = _ |- _ => rewrite H end.
      reflexivity. }
    split_and!; [|exact Hok|].
    + eapply lock_inv_lookup_moves; eauto.
    + apply Forall_task_ok_insert; [exact Htasks|].
      split; cbn; [auto|discriminate].
  - (* the merged stream reports done *)
    assert (task_ok s l) as [Hst Hdone].
    { rewrite Forall_forall in Htasks. apply Htasks.
      eapply list_elem_of_lookup_2; eassumption. }
    split_and!; [|exact Hok|].
    + destruct Hlock as (Hr & Hw & Hx). split_and!; [|exact Hw|exact Hx].
      match goal with H : ls !! i = Some l |- _ =>
        pose proof (read_holds_insert ls i l
                      {| l_pc := l_pc l; l_started := l_started l;
                         l_out_done := true |} H) as Hc end.
      unfold holds_read in Hc. cbn [l_pc] in Hc.
      destruct (l_pc l); lia.
    + apply Forall_task_ok_insert; [exact Htasks|].
      split; cbn; [exact Hst|reflexivity].
  - (* Lookup: done received *)
    assert (task_ok s l) as [Hst Hdone].
    { rewrite Forall_forall in Htasks. apply Htasks.
      eapply list_elem_of_lookup_2; eassumption. }
    assert (holds_read l = true) as Hh.
    { unfold holds_read. match goal with H : l_pc l = _ |- _ => rewrite H end.
      reflexivity. }
    split_and!; [|exact Hok|].
    + eapply lock_inv_lookup_moves; eauto.
    + apply Forall_task_ok_insert; [exact Htasks|].
      split; cbn; [auto|reflexivity].
  - (* Lookup: RUnlock *)
    assert (task_ok s l) as [Hst Hdone].
    { rewrite Forall_forall in Htasks. apply Htasks.
      eapply list_elem_of_lookup_2; eassumption. }
    assert (holds_read l = true ∧ in_flight l = false) as [Hh Hfl].
    { unfold holds_read, in_flight.
      match goal with H : l_pc l = _ |- _ => rewrite H end. auto. }
    unfold RWMutex_RUnlock in *.
    destruct (readers (mu (thr s))) as [|k] eqn:Ek; [discriminate|].
    match goal with H : Some _ = Some _ |- _ => injection H as <- end.
    destruct Hlock as (Hr & Hw & Hx). split_and!.
    + unfold lock_inv, with_mu. cbn [thr mu set_mu readers writer]. split_and!; [|exact Hw|].
      * match goal with H : ls !! i = Some l |- _ =>
          pose proof (read_holds_insert ls i l
                        {| l_pc := LFinished; l_started := l_started l;
                           l_out_done := l_out_done l |} H) as Hc end.
        rewrite Hh in Hc. cbn [holds_read l_pc] in Hc. cbn [readers]. lia.
      * cbn [writer]. intros Ht. specialize (Hx Ht). rewrite Ek in Hx.
        discriminate Hx.
    + revert Hok. apply handles_ok_frame; reflexivity.
    + apply Forall_task_ok_insert.
      * eapply Forall_impl; [exact Htasks|]. intros l0. apply task_ok_ext.
        reflexivity.
      * split; cbn; [discriminate|auto].
  - (* SyncFiles is called *)
    split_and!; [|exact Hok|exact Htasks].
    destruct Hlock as (Hr & Hw & Hx). split_and!; [exact Hr| |exact Hx].
    rewrite write_holds_app. cbn. lia.
  - (* SyncFiles: Lock *)
    unfold RWMutex_Lock in *. destruct (writer (mu (thr s))) eqn:Ew;
      [discriminate|].
    destruct (readers (mu (thr s))) as [|k] eqn:Ek; [|discriminate].
    match goal with H : Some _ = Some _ |- _ => injection H as <- end.
    destruct Hlock as (Hr & Hw & Hx). rewrite Ew in Hw. split_and!.
    + unfold lock_inv, with_mu. cbn [thr mu set_mu readers writer]. split_and!; [rewrite <- Hr, Ek; reflexivity| |reflexivity].
      match goal with H : ys !! j = Some SCalled |- _ =>
        pose proof (write_holds_insert ys j SCalled SDiscover H) as Hc end.
      cbn [holds_write] in Hc. lia.
    + revert Hok. apply handles_ok_frame; reflexivity.
    + eapply Forall_impl; [exact Htasks|]. intros l0. apply task_ok_ext.
      reflexivity.
  - (* SyncFiles: discovery *)
    match goal with
    | Hj : ys !! j = Some SDiscover, Hret : syncFilesWithDisk _ _ _ = _ |- _ =>
        destruct (writer_inside _ _ _ _ _ Hlock Hj eq_refl) as [Ew Hnone];
        pose proof (syncFilesWithDisk_Ret_well_named _ _ Hret) as Hwn;
        destruct (syncFilesWithDisk_spec filepath_Join
                    BlockfilePathFromIndexPath s Hwn)
          as (s'' & Hr' & Hc & _ & _ & _ & _ & _ & _ & Hok');
        rewrite Hret in Hr'; injection Hr' as <-;
        pose proof (lock_inv_sync_moves _ _ _ j SDiscover SCleanUp Hlock Hj
                      eq_refl) as Hlock'
    end.
    destruct Hc as (_ & _ & _ & _ & Hmu). rewrite Hmu.
    split_and!; [exact Hlock'|auto|].
    rewrite Forall_forall in Htasks |- *. intros l0 Hl0.
    eapply task_ok_released; [apply Hnone; exact Hl0|apply Htasks; exact Hl0].
  - (* SyncFiles: eviction *)
    match goal with
    | Hj : ys !! j = Some SCleanUp, Hret : cleanUpOnLowDiskSpace _ _ = _ |- _ =>
        destruct (writer_inside _ _ _ _ _ Hlock Hj eq_refl) as [Ew Hnone];
        pose proof (cleanUp_loop_frame filepath_Join
                      (S (length (w_df (world s)))) s) as Hfr;
        pose proof (cleanUp_loop_handles_ok filepath_Join
                      (S (length (w_df (world s)))) s Hok) as Hok';
        unfold cleanUpOnLowDiskSpace in Hret; rewrite Hret in Hfr, Hok';
        pose proof (lock_inv_sync_moves _ _ _ j SCleanUp SUnlock Hlock Hj
                      eq_refl) as Hlock'
    end.
    cbn in Hfr, Hok'. destruct Hfr as ((_ & _ & _ & _ & Hmu) & _).
    rewrite Hmu. split_and!; [exact Hlock'|exact Hok'|].
    rewrite Forall_forall in Htasks |- *. intros l0 Hl0.
    eapply task_ok_released; [apply Hnone; exact Hl0|apply Htasks; exact Hl0].
  - (* SyncFiles: Unlock *)
    unfold RWMutex_Unlock in *. destruct (writer (mu (thr s))) eqn:Ew;
      [|discriminate].
    match goal with H : Some _ = Some _ |- _ => injection H as <- end.
    destruct Hlock as (Hr & Hw & Hx). rewrite Ew in Hw. split_and!.
    + unfold lock_inv, with_mu. cbn [thr mu set_mu readers writer]. split_and!; [exact Hr| |discriminate].
      match goal with H : ys !! j = Some SUnlock |- _ =>
        pose proof (write_holds_insert ys j SUnlock SReturned H) as Hc end.
      cbn [holds_write] in Hc. lia.
    + revert Hok. apply handles_ok_frame; reflexivity.
    + eapply Forall_impl; [exact Htasks|]. intros l0. apply task_ok_ext.
      reflexivity.
  - (* the world moves on *)
    match goal with H : same_program_side _ _ |- _ =>
      destruct H as (Hn & Hc & _) end.
    split_and!; [exact Hlock| |].
    + revert Hok. apply handles_ok_frame; [reflexivity|exact Hc|exact Hn].
    + eapply Forall_impl; [exact Htasks|]. intros l0. apply task_ok_ext.
      reflexivity.
Qed.

Lemma reachable_Inv sys : reachable sys → Inv sys.
Proof.
  induction 1 as [sys Hinit|sys sys' _ IH Hstep].
  - apply initial_Inv. exact Hinit.
  - eapply step_preserves_Inv; eassumption.
Qed.

End StepFacts.

End ConcFacts.

(** * The claims *)

Import Scenario.

(** ** Eviction (C2, C4, C9) *)

(** C2. In every eviction phase the paths removed from disk are, in order,
    the packet and index artifacts of the tracked names taken in ascending
    lexicographic order (each deletion hits the smallest name still
    tracked), there are at most two removals per leading measurement at or
    below the threshold (none once a measurement exceeds it or fails), the
    names still tracked afterwards are the sorted names minus the evicted
    prefix, and the phase never panics.  With tracked set A, B, C,
    threshold 10 and measurements 5, 5, 12 exactly A and then B are
    deleted and C stays tracked. *)
Theorem eviction_deletes_oldest_while_low :
  (∀ (filepath_Join : string → string → string) (s : State),
     let o := cleanUpOnLowDiskSpace filepath_Join s in
     let s' := state_of o in
     let sorted := getSortedFiles (thr s) in
     panicked o = false ∧
     Sorted string_le sorted ∧
     (∀ n, n ∈ sorted ↔ is_Some (files (thr s) !! n)) ∧
     ∃ rm : list string,
       removed (w_trace (world s')) = removed (w_trace (world s)) ++ rm ∧
       rm `prefix_of` flat_map (artifacts filepath_Join (thr s)) sorted ∧
       (length rm ≤ 2 * low_prefix (DiskFreePercentage (conf (thr s)))
                        (w_df (world s)))%nat ∧
       getSortedFiles (thr s') = drop (Nat.div2 (length rm)) sorted)
  ∧
  (∀ filepath_Join : string → string → string,
     let s := {| thr := thread0 tracked_ABC 10;
                 world := world0 (inl []) [] [] [inl 5; inl 5; inl 12] |} in
     ∃ s',
       cleanUpOnLowDiskSpace filepath_Join s = Ret tt s' ∧
       removed (w_trace (world s')) =
         [filepath_Join "PKT0" "A"; filepath_Join "IDX0" "A";
          filepath_Join "PKT0" "B"; filepath_Join "IDX0" "B"] ∧
       closed_in (w_trace (world s')) = [handle "A" 0; handle "B" 1] ∧
       measured (w_trace (world s')) = [inl 5; inl 5; inl 12] ∧
       files (thr s') = {["C" := handle "C" 2]}).
Proof.
  split.
  - intros filepath_Join s. cbn zeta. split_and!.
    + pose proof (cleanUpOnLowDiskSpace_outcome filepath_Join s) as Ho.
      destruct (cleanUpOnLowDiskSpace filepath_Join s); cbn; tauto.
    + apply getSortedFiles_Sorted.
    + apply elem_of_getSortedFiles.
    + apply cleanUp_loop_removals.
  - intros filepath_Join. cbn zeta. eexists. split; [vm_compute; reflexivity|].
    split_and!; vm_compute; reflexivity.
Qed.

(** With no file tracked and every scripted measurement at or below the
    threshold, the eviction phase does not return: it reports the stuck
    condition after each measurement and measures again until the script
    is used up. *)
Lemma cleanUpOnLowDiskSpace_stuck_does_not_return
    (filepath_Join : string → string → string) (s : State) :
  size (files (thr s)) = 0%nat →
  low_prefix (DiskFreePercentage (conf (thr s))) (w_df (world s))
  = length (w_df (world s)) →
  ∃ s', cleanUpOnLowDiskSpace filepath_Join s = Starved s' ∧
        measured (w_trace (world s')) =
          measured (w_trace (world s)) ++ w_df (world s) ∧
        logged (w_trace (world s')) =
          logged (w_trace (world s))
          ++ replicate (length (w_df (world s)))
               (LogNoFilesAvailable (id (thr s))).
Proof. intros Hsz Hlow. apply cleanUp_loop_stuck; [exact Hsz|lia|exact Hlow]. Qed.

(** C4. The stuck condition (at or below the threshold with nothing
    tracked) is reported, but the eviction phase is not left: with no file
    tracked, threshold 10 and measurements 5, 5, 12 the phase reports the
    condition twice and takes all three measurements, returning only when
    the third one exceeds the threshold. *)
Theorem stuck_eviction_keeps_measuring :
  ∀ filepath_Join : string → string → string,
    let s := {| thr := thread0 ∅ 10;
                world := world0 (inl []) [] [] [inl 5; inl 5; inl 12] |} in
    ∃ s',
      cleanUpOnLowDiskSpace filepath_Join s = Ret tt s' ∧
      measured (w_trace (world s')) = [inl 5; inl 5; inl 12] ∧
      logged (w_trace (world s')) =
        [LogNoFilesAvailable 0; LogNoFilesAvailable 0] ∧
      w_trace (world s') =
        [EvMeasure "PKT0" (inl 5); EvV 0 (VDiskHigh 0 "PKT0" 5);
         EvLog (LogNoFilesAvailable 0); EvSleep 100;
         EvMeasure "PKT0" (inl 5); EvV 0 (VDiskHigh 0 "PKT0" 5);
         EvLog (LogNoFilesAvailable 0); EvSleep 100;
         EvMeasure "PKT0" (inl 12); EvV 1 (VDiskSufficient 0 12 10)].
Proof.
  intros filepath_Join. cbn zeta. eexists. split; [vm_compute; reflexivity|].
  split_and!; vm_compute; reflexivity.
Qed.

(** C9. Eviction of the oldest file [x] with handle [b]: the packet
    artifact is removed first, then the index artifact, and only after both
    removals succeeded is [x] untracked and [b] closed.  If either removal
    fails, the thread (so the tracked set) and the closed handles are as
    before, and an eviction phase that starts with a measurement at or
    below the threshold logs the error and returns. *)
Theorem eviction_untracks_only_after_both_removals
    (filepath_Join : string → string → string) (s : State)
    (x : string) (l : list string) (b : BlockFile) :
  getSortedFiles (thr s) = x :: l →
  files (thr s) !! x = Some b →
  let t := thr s in
  let pkt := getPacketFilePath filepath_Join t x in
  let idx := getIndexFilePath filepath_Join t x in
  (∃ e s',
     deleteOldestThreadFile filepath_Join s = Ret e s' ∧
     match w_Remove (world s) pkt, w_Remove (world s) idx with
     | Some err, _ =>
         e = Some err ∧ thr s' = t ∧ w_closed (world s') = w_closed (world s) ∧
         w_trace (world s') =
           w_trace (world s)
           ++ [EvV 1 (VRemoving (id t) x); EvRemove pkt (Some err)]
     | None, Some err =>
         e = Some err ∧ thr s' = t ∧ w_closed (world s') = w_closed (world s) ∧
         w_trace (world s') =
           w_trace (world s)
           ++ [EvV 1 (VRemoving (id t) x); EvRemove pkt None;
               EvRemove idx (Some err)]
     | None, None =>
         e = None ∧ thr s' = set_files (delete x (files t)) t ∧
         w_closed (world s') = b :: w_closed (world s) ∧
         w_trace (world s') =
           w_trace (world s)
           ++ [EvV 1 (VRemoving (id t) x); EvRemove pkt None;
               EvRemove idx None; EvV 1 (VUntracking (id t) x);
               EvV 1 (VOldBlockfile (id t) (bf_name b)); EvClose b]
     end)
  ∧
  (∀ df rest err,
     w_df (world s) = inl df :: rest →
     df ≤ DiskFreePercentage (conf t) →
     removal_error filepath_Join s x = Some err →
     ∃ s',
       cleanUpOnLowDiskSpace filepath_Join s = Ret tt s' ∧
       thr s' = t ∧
       w_closed (world s') = w_closed (world s) ∧
       closed_in (w_trace (world s')) = closed_in (w_trace (world s)) ∧
       logged (w_trace (world s')) =
         logged (w_trace (world s)) ++ [LogCouldNotDelete (id t) err]).
Proof.
  intros Hks Hb. cbn zeta. split.
  - exact (deleteOldestThreadFile_cases filepath_Join s x l b Hks Hb).
  - intros df rest err Hdf Hlow Herr.
    exact (cleanUpOnLowDiskSpace_removal_fails filepath_Join s df rest x l err
             Hdf Hlow Hks Herr).
Qed.

(** The index artifact of A cannot be removed: A stays tracked, its handle
    open, and the error is logged. *)
Lemma eviction_untracks_only_after_both_removals_witness :
  ∃ s',
    cleanUpOnLowDiskSpace join evict_ABC_index_of_A_stays = Ret tt s' ∧
    thr s' = thr evict_ABC_index_of_A_stays ∧
    w_closed (world s') = [] ∧
    closed_in (w_trace (world s')) = [] ∧
    logged (w_trace (world s')) =
      [LogCouldNotDelete 0 (ErrExt "remove failed")].
Proof.
  refine (proj2 (eviction_untracks_only_after_both_removals join
                   evict_ABC_index_of_A_stays
                   "A" ["B"; "C"] (handle "A" 0) _ _)
                5 [inl 5; inl 12] (ErrExt "remove failed") _ _ _).
  - vm_compute. reflexivity.
  - vm_compute. reflexivity.
  - reflexivity.
  - cbn. lia.
  - vm_compute. reflexivity.
Defined.

(** ** Discovery (C5, C6, C7, C10) *)

(** C5, as stated, fails: A is tracked and its index artifact is gone from
    disk; after the discovery cycle A is still tracked, although no name
    is derived from the (empty) index directory. *)
Lemma discovery_keeps_names_missing_from_disk :
  ∃ s',
    syncFilesWithDisk join same_name A_tracked_disk_empty = Ret tt s' ∧
    dom (files (thr s')) ≠ disk_minus_failed join same_name A_tracked_disk_empty.
Proof.
  eexists. split; [vm_compute; reflexivity|].
  intros H. apply (f_equal (fun X : gset string => bool_decide ("A" ∈ X))) in H.
  vm_compute in H. discriminate H.
Qed.

(** C5, amended. A discovery cycle returns and only adds: the tracked set
    afterwards is the tracked set before together with the candidates
    (names derived from the regular, not dot-prefixed index entries) that
    were not tracked and whose blockfile opens; everything tracked before
    stays tracked with its handle.  When every name tracked before is
    among the candidates that open, the tracked set afterwards is exactly
    the set of candidates that open. *)
Theorem discovery_extends_tracked_set
    (filepath_Join : string → string → string)
    (BlockfilePathFromIndexPath : string → string) (s : State) :
  disk_well_named s →
  ∃ s',
    syncFilesWithDisk filepath_Join BlockfilePathFromIndexPath s = Ret tt s' ∧
    dom (files (thr s')) =
      dom (files (thr s))
      ∪ list_to_set (newly_tracked filepath_Join s
                       (disk_candidates BlockfilePathFromIndexPath s)) ∧
    files (thr s) ⊆ files (thr s') ∧
    (dom (files (thr s))
       ⊆ disk_minus_failed filepath_Join BlockfilePathFromIndexPath s →
     dom (files (thr s'))
       = disk_minus_failed filepath_Join BlockfilePathFromIndexPath s).
Proof.
  intros Hwn.
  destruct (syncFilesWithDisk_spec filepath_Join BlockfilePathFromIndexPath s Hwn)
    as (s' & Hr & _ & _ & Hd & Hsub & _).
  exists s'. split_and!; [exact Hr|exact Hd|exact Hsub|].
  intros Hold. rewrite Hd. apply set_eq. intros n.
  unfold disk_minus_failed in *.
  rewrite elem_of_union, !elem_of_list_to_set, elem_of_newly_tracked,
    list_elem_of_filter.
  split.
  - intros [Hn|(Hn & _ & Ho)]; [|tauto].
    apply Hold in Hn. rewrite elem_of_list_to_set, list_elem_of_filter in Hn.
    exact Hn.
  - intros [Ho Hn]. destruct (files (thr s) !! n) as [b|] eqn:Hb.
    + left. apply elem_of_dom. exists b. exact Hb.
    + right. tauto.
Qed.

Lemma discovery_extends_tracked_set_witness :
  ∃ s',
    syncFilesWithDisk join same_name discover_X_and_broken_Y = Ret tt s' ∧
    dom (files (thr s')) =
      dom (files (thr discover_X_and_broken_Y))
      ∪ list_to_set (newly_tracked join discover_X_and_broken_Y
                       (disk_candidates same_name discover_X_and_broken_Y)) ∧
    files (thr discover_X_and_broken_Y) ⊆ files (thr s') ∧
    (dom (files (thr discover_X_and_broken_Y))
       ⊆ disk_minus_failed join same_name discover_X_and_broken_Y →
     dom (files (thr s'))
       = disk_minus_failed join same_name discover_X_and_broken_Y).
Proof.
  apply (discovery_extends_tracked_set join same_name discover_X_and_broken_Y).
  vm_compute. repeat constructor; discriminate.
Defined.

(** C6. [SyncFiles] called with the lock free, no candidate on disk that
    is not tracked already, and a first measurement above the threshold
    returns and leaves the tracked set and the last-discovery timestamp
    (indeed the whole thread) as they were. *)
Theorem SyncFiles_without_news_is_noop
    (filepath_Join : string → string → string)
    (BlockfilePathFromIndexPath : string → string)
    (s : State) (df : Z) (rest : list (Z + error)) :
  mu (thr s) = {| readers := 0; writer := false |} →
  disk_well_named s →
  (∀ n, n ∈ disk_candidates BlockfilePathFromIndexPath s →
        is_Some (files (thr s) !! n)) →
  w_df (world s) = inl df :: rest →
  df > DiskFreePercentage (conf (thr s)) →
  ∃ s',
    SyncFiles filepath_Join BlockfilePathFromIndexPath s = Ret tt s' ∧
    files (thr s') = files (thr s) ∧
    fileLastSeen (thr s') = fileLastSeen (thr s) ∧
    thr s' = thr s.
Proof.
  intros Hmu Hwn Hold Hdf Hgt.
  destruct (SyncFiles_noop filepath_Join BlockfilePathFromIndexPath s df rest
              Hmu Hwn Hold Hdf Hgt) as (s' & Hr & Ht).
  exists s'. rewrite Ht. auto.
Qed.

Lemma SyncFiles_without_news_is_noop_witness :
  ∃ s',
    SyncFiles join same_name ABC_tracked_and_on_disk = Ret tt s' ∧
    files (thr s') = tracked_ABC ∧
    fileLastSeen (thr s') = 0 ∧
    thr s' = thr ABC_tracked_and_on_disk.
Proof.
  apply (SyncFiles_without_news_is_noop join same_name
           ABC_tracked_and_on_disk 50 []).
  - reflexivity.
  - vm_compute. repeat constructor; discriminate.
  - intros n Hn. vm_compute in Hn.
    repeat (apply elem_of_cons in Hn as [->|Hn]; [vm_compute; eauto|]).
    apply elem_of_nil in Hn. destruct Hn.
  - reflexivity.
  - cbn. lia.
Defined.

(** C7. Discovery returns whatever fails to open: for every candidate that
    is not tracked and does not open exactly one error is logged per
    occurrence (nothing else is logged by the loop), that candidate is not
    tracked afterwards, and every other untracked candidate that opens is
    tracked afterwards; [SyncFiles] then goes on to the eviction phase and
    returns.  With candidates X and Y on disk and Y failing to open, the
    tracked set ends as X alone and the one error logged is about Y. *)
Theorem discovery_skips_failed_candidate_only :
  (∀ (filepath_Join : string → string → string)
     (BlockfilePathFromIndexPath : string → string) (s : State),
     disk_well_named s →
     ∃ s',
       syncFilesWithDisk filepath_Join BlockfilePathFromIndexPath s
         = Ret tt s' ∧
       logged (w_trace (world s')) =
         logged (w_trace (world s)) ++ readdir_errors s
         ++ tracking_errors filepath_Join s
              (disk_candidates BlockfilePathFromIndexPath s) ∧
       (∀ n, n ∈ disk_candidates BlockfilePathFromIndexPath s →
             files (thr s) !! n = None →
             (n ∈ dom (files (thr s')) ↔ open_error filepath_Join s n = None)) ∧
       files (thr s) ⊆ files (thr s'))
  ∧
  (∃ s',
     SyncFiles join same_name discover_X_and_broken_Y = Ret tt s' ∧
     files (thr s') = {["X" := handle "X" 10]} ∧
     logged (w_trace (world s')) =
       [LogErrorTracking 0 "Y"
          (ErrCouldNotOpen "PKT0/Y" (ErrExt "open failed"))] ∧
     measured (w_trace (world s')) = [inl 50]).
Proof.
  split.
  - intros filepath_Join BlockfilePathFromIndexPath s Hwn.
    destruct (syncFilesWithDisk_spec filepath_Join BlockfilePathFromIndexPath
                s Hwn) as (s' & Hr & _ & _ & Hd & Hsub & Hl & _).
    exists s'. split_and!; [exact Hr|exact Hl| |exact Hsub].
    intros n Hn Hnone. rewrite Hd, elem_of_union, elem_of_list_to_set,
      elem_of_newly_tracked, elem_of_dom, Hnone.
    split.
    + intros [[? Hx]|(_ & _ & Ho)]; [discriminate Hx|exact Ho].
    + intros Ho. right. auto.
  - eexists. split; [vm_compute; reflexivity|].
    split_and!; vm_compute; reflexivity.
Qed.

Lemma discovery_skips_failed_candidate_only_witness :
  ∃ s',
    syncFilesWithDisk join same_name discover_X_and_broken_Y = Ret tt s' ∧
    logged (w_trace (world s')) =
      logged (w_trace (world discover_X_and_broken_Y))
      ++ readdir_errors discover_X_and_broken_Y
      ++ tracking_errors join discover_X_and_broken_Y
           (disk_candidates same_name discover_X_and_broken_Y) ∧
    (∀ n, n ∈ disk_candidates same_name discover_X_and_broken_Y →
          files (thr discover_X_and_broken_Y) !! n = None →
          (n ∈ dom (files (thr s'))
           ↔ open_error join discover_X_and_broken_Y n = None)) ∧
    files (thr discover_X_and_broken_Y) ⊆ files (thr s').
Proof.
  apply (proj1 discovery_skips_failed_candidate_only join same_name
           discover_X_and_broken_Y).
  vm_compute. repeat constructor; discriminate.
Defined.

(** C10. Listing the candidates: when the index directory can be read, the
    result is, in directory order, the names derived from the entries that
    are not directories and do not start with a dot; when it cannot be
    read, the error is logged, the result is empty, and discovery returns
    without touching the thread, so that [SyncFiles] goes on. *)
Theorem listing_skips_directories_and_dot_files
    (BlockfilePathFromIndexPath : string → string) (s : State) :
  disk_well_named s →
  ∃ names s',
    listPacketFilesOnDisk BlockfilePathFromIndexPath s = Ret names s' ∧
    thr s' = thr s ∧
    match w_ReadDir (world s) (indexPath (thr s)) with
    | inl entries =>
        names =
          map (fun f => BlockfilePathFromIndexPath (Name f))
            (filter (fun f => IsDir f = false ∧
                              starts_with_dot (Name f) = false) entries) ∧
        logged (w_trace (world s')) = logged (w_trace (world s))
    | inr err =>
        names = [] ∧
        logged (w_trace (world s')) =
          logged (w_trace (world s))
          ++ [LogCouldNotReadDir (id (thr s)) (indexPath (thr s)) err] ∧
        ∀ filepath_Join : string → string → string,
          ∃ s'',
            syncFilesWithDisk filepath_Join BlockfilePathFromIndexPath s
              = Ret tt s'' ∧
            thr s'' = thr s
    end.
Proof.
  intros Hwn.
  rewrite (listPacketFilesOnDisk_unfold BlockfilePathFromIndexPath s Hwn).
  eexists _, _. split; [reflexivity|].
  pose proof (fun j => syncFilesWithDisk_spec j BlockfilePathFromIndexPath s Hwn)
    as Hsync.
  unfold disk_candidates, candidates in *.
  destruct (w_ReadDir (world s) (indexPath (thr s))) as [entries|err] eqn:Hrd.
  - cbn. rewrite logged_snoc, app_nil_r. split_and!; try reflexivity.
    f_equal. apply list_filter_iff. intros f. apply listed_spec.
  - cbn. rewrite !logged_snoc, app_nil_r. split_and!; try reflexivity.
    intros j. destruct (Hsync j) as (s'' & Hr & _ & _ & _ & _ & _ & Hz & _).
    exists s''. split; [exact Hr|]. apply Hz. reflexivity.
Qed.

Lemma listing_skips_directories_and_dot_files_witness :
  ∃ names s',
    listPacketFilesOnDisk same_name ABC_tracked_and_on_disk = Ret names s' ∧
    thr s' = thr ABC_tracked_and_on_disk ∧
    names = ["A"; "B"; "C"] ∧
    logged (w_trace (world s')) = [].
Proof.
  apply (listing_skips_directories_and_dot_files same_name
           ABC_tracked_and_on_disk).
  vm_compute. repeat constructor; discriminate.
Defined.

(** ** Lookup (C3) *)

(** C3. Every [Lookup], cancelled or not, delivers a stream (the nil
    dereference cannot happen) whose files of origin are in non-decreasing
    lexicographic order: a packet of a file that sorts strictly before
    another file comes before every packet of that other file. *)
Theorem lookup_output_in_file_order
    (Packet Query : Type) (bf_Lookup : BlockFile → Query → list Packet)
    (t : Thread) (ctx : Context) (q : Query) :
  ∃ out : list (string * Packet),
    Lookup Packet Query bf_Lookup t ctx q = Some out ∧
    StronglySorted string_le (out.*1) ∧
    (∀ (i j : nat) (f1 f2 : string) (p1 p2 : Packet),
       out !! i = Some (f1, p1) → out !! j = Some (f2, p2) →
       string_lt f1 f2 → (i < j)%nat) ∧
    (∀ f p, (f, p) ∈ out → is_Some (files t !! f)).
Proof.
  unfold Lookup.
  destruct (Lookup_fanout_spec Packet Query bf_Lookup t ctx q
              (cut (fanout_limit ctx) (getSortedFiles t)))
    as (streams & -> & Hall).
  { intros f Hf. apply elem_of_getSortedFiles. eapply elem_of_cut. exact Hf. }
  destruct (origins_sorted Packet _ streams
              (StronglySorted_cut _ _ (fanout_limit ctx)
                 (getSortedFiles_StronglySorted t)) Hall) as [Hs Hin].
  cbn. eexists. split; [reflexivity|].
  assert (StronglySorted string_le
            ((ConcatPacketChans ctx streams).*1)) as Hout.
  { unfold ConcatPacketChans. destruct (out_limit ctx) as [k|]; cbn; [|exact Hs].
    rewrite fmap_take. apply StronglySorted_take. exact Hs. }
  split_and!; [exact Hout| |].
  - intros i j f1 f2 p1 p2 Hi Hj Hlt.
    destruct (decide (i < j)%nat) as [|Hge]; [assumption|exfalso].
    apply string_lt_not_le in Hlt. apply Hlt.
    assert (((ConcatPacketChans ctx streams).*1) !! i = Some f1) as Hi'.
    { rewrite list_lookup_fmap, Hi. reflexivity. }
    assert (((ConcatPacketChans ctx streams).*1) !! j = Some f2) as Hj'.
    { rewrite list_lookup_fmap, Hj. reflexivity. }
    destruct (decide (i = j)) as [->|Hne].
    + rewrite Hi' in Hj'. injection Hj' as ->. reflexivity.
    + eapply (StronglySorted_lookup string_le _ j i); eauto. lia.
  - intros f p Hfp. apply elem_of_getSortedFiles.
    apply (elem_of_cut _ (fanout_limit ctx)). apply Hin.
    apply list_elem_of_fmap. exists (f, p). split; [reflexivity|].
    eapply elem_of_cut. exact Hfp.
Qed.

(** ** The positions debug handler (C8) *)

(** C8, as stated, fails: the file A answers a query that goes through
    with the position 4294967301 (2^32 + 5).  The handler writes the line
    00000005, which reads back as 5 and not as the position. *)
Lemma position_beyond_four_bytes_reads_back_wrong :
  Debug.query_succeeds unit (fun _ => inl tt) (fun _ _ => inl [4294967301])
    (thread0 tracked_ABC 10) "A" (inl "port 80") [4294967301] ∧
  Debug.positions_handler unit (fun _ => inl tt)
    (fun _ _ => inl [4294967301]) (fun l => bool_decide (l = [-1]))
    (thread0 tracked_ABC 10) "A" (inl "port 80") =
  {| Debug.status := 200; Debug.content_type := "text/plain";
     Debug.body :=
       "POSITIONS:" +:+ Debug.nl +:+
       Debug.tab +:+ "00000005" +:+ Debug.nl |} ∧
  Debug.decode_offset "00000005" = Some 5 ∧
  Debug.decode_offset "00000005" ≠ Some 4294967301.
Proof.
  split_and!.
  - exists (handle "A" 0), "port 80", tt. repeat split.
  - vm_compute. reflexivity.
  - vm_compute. reflexivity.
  - vm_compute. discriminate.
Qed.

(** C8, amended. A positions query that goes through answers with status
    200 and a text body that is the header line followed either by the
    sentinel ALL (when the blockfile reports all positions) or by one line
    per position holding eight hexadecimal digits: the big-endian four-byte
    encoding of the low 32 bits of the position.  Each line reads back on
    its own as the position modulo 2^32, so it reads back as the position
    itself exactly when the position is a 4-byte offset (0 up to
    2^32 - 1). *)
Theorem positions_response_decodes
    (Query : Type) (query_NewQuery : string → Query + string)
    (bf_Positions : BlockFile → Query → list Z + string)
    (IsAllPositions : list Z → bool)
    (t : Thread) (name : string) (req_body : string + string)
    (positions : list Z) :
  Debug.query_succeeds Query query_NewQuery bf_Positions t name req_body
    positions →
  let r := Debug.positions_handler Query query_NewQuery bf_Positions
             IsAllPositions t name req_body in
  let offsets := Debug.offset_strings positions in
  Debug.status r = 200 ∧
  Debug.content_type r = "text/plain" ∧
  Debug.body r =
    "POSITIONS:" +:+ Debug.nl +:+
    (if IsAllPositions positions then Debug.tab +:+ "ALL"
     else String.concat ""
            (map (fun h => Debug.tab +:+ h +:+ Debug.nl) offsets)) ∧
  Forall2 (fun pos h => String.length h = 8%nat ∧
                        Debug.decode_offset h = Some (pos mod 2 ^ 32) ∧
                        (Debug.decode_offset h = Some pos
                         ↔ 0 ≤ pos < 2 ^ 32))
    positions offsets.
Proof.
  intros (file & queryStr & q & Hfile & -> & Hq & Hpos). cbn zeta.
  unfold Debug.positions_handler. rewrite Hfile, Hq, Hpos. cbn.
  split; [reflexivity|]. split; [reflexivity|]. split.
  - destruct (IsAllPositions positions); [reflexivity|].
    rewrite DebugFacts.write_positions_lines. reflexivity.
  - unfold Debug.offset_strings. apply Forall2_fmap_r.
    apply Forall_Forall2_diag. apply Forall_forall. intros pos _.
    unfold compose. cbn beta.
    rewrite DebugFacts.decode_offset_encode. unfold Debug.uint32.
    split_and!; [reflexivity..|]. split.
    + intros H. injection H as H. rewrite <- H. apply Z.mod_pos_bound. lia.
    + intros H. rewrite Z.mod_small by exact H. reflexivity.
Qed.

(** The file A answers one query with all positions (the sentinel list
    holding -1) and another with the positions 0, 255 and 305419896
    (hexadecimal 12345678). *)
Lemma positions_response_decodes_witness :
  Debug.body
    (Debug.positions_handler unit (fun _ => inl tt)
       (fun _ _ => inl [-1]) (fun l => bool_decide (l = [-1]))
       (thread0 tracked_ABC 10) "A" (inl "port 80"))
  = "POSITIONS:" +:+ Debug.nl +:+ Debug.tab +:+ "ALL"
  ∧ Debug.body
      (Debug.positions_handler unit (fun _ => inl tt)
         (fun _ _ => inl [0; 255; 305419896]) (fun l => bool_decide (l = [-1]))
         (thread0 tracked_ABC 10) "A" (inl "port 80"))
    = "POSITIONS:" +:+ Debug.nl +:+
      Debug.tab +:+ "00000000" +:+ Debug.nl +:+
      Debug.tab +:+ "000000ff" +:+ Debug.nl +:+
      Debug.tab +:+ "12345678" +:+ Debug.nl
  ∧ Forall2 (fun pos h => String.length h = 8%nat ∧
                          Debug.decode_offset h = Some (pos mod 2 ^ 32) ∧
                          (Debug.decode_offset h = Some pos
                           ↔ 0 ≤ pos < 2 ^ 32))
      [0; 255; 305419896] ["00000000"; "000000ff"; "12345678"].
Proof.
  split.
  - refine (proj1 (proj2 (proj2
              (positions_response_decodes unit (fun _ => inl tt)
                 (fun _ _ => inl [-1]) (fun l => bool_decide (l = [-1]))
                 (thread0 tracked_ABC 10) "A" (inl "port 80") [-1] _)))).
    exists (handle "A" 0), "port 80", tt. repeat split.
  - refine (proj2 (proj2
              (positions_response_decodes unit (fun _ => inl tt)
                 (fun _ _ => inl [0; 255; 305419896])
                 (fun l => bool_decide (l = [-1]))
                 (thread0 tracked_ABC 10) "A" (inl "port 80")
                 [0; 255; 305419896] _))).
    exists (handle "A" 0), "port 80", tt. repeat split.
Defined.

(** ** Reachable states of the scenarios *)

Lemma one_sync_inside_reachable :
  Conc.reachable join same_name Cases.one_sync_inside.
Proof.
  apply (Conc.reachable_step join same_name
           {| Conc.sys_state := Conc.sys_state fresh_system;
              Conc.sys_lookups := []; Conc.sys_syncs := [Conc.SCalled] |}).
  - apply (Conc.reachable_step join same_name fresh_system).
    + apply Conc.reachable_initial. repeat split.
    + apply (Conc.step_SyncFiles_call join same_name
               (Conc.sys_state fresh_system) [] []).
  - apply (Conc.step_SyncFiles_Lock join same_name
             (Conc.sys_state fresh_system) [] [Conc.SCalled] 0
             {| readers := 0; writer := true |}); reflexivity.
Defined.

Lemma one_sync_before_unlock_reachable :
  Conc.reachable join same_name Cases.one_sync_before_unlock.
Proof.
  apply (Conc.reachable_step join same_name
           {| Conc.sys_state :=
                exec (syncFilesWithDisk join same_name)
                  (Conc.sys_state Cases.one_sync_inside);
              Conc.sys_lookups := []; Conc.sys_syncs := [Conc.SCleanUp] |}).
  - apply (Conc.reachable_step join same_name Cases.one_sync_inside).
    + exact one_sync_inside_reachable.
    + apply (Conc.step_SyncFiles_discover join same_name
               (Conc.sys_state Cases.one_sync_inside) [] [Conc.SDiscover] 0);
        reflexivity.
  - apply (Conc.step_SyncFiles_cleanUp join same_name
             (exec (syncFilesWithDisk join same_name)
                (Conc.sys_state Cases.one_sync_inside)) [] [Conc.SCleanUp] 0);
      reflexivity.
Defined.

Lemma lookup_draining_sync_waiting_reachable :
  Conc.reachable join same_name Cases.lookup_draining_sync_waiting.
Proof.
  set (s4 := Conc.sys_state Cases.one_sync_before_unlock).
  set (s5 := with_mu {| readers := 0; writer := false |} s4).
  set (s6 := with_mu {| readers := 1; writer := false |} s4).
  set (l0 := {| Conc.l_pc := Conc.LSpawned; Conc.l_started := [];
                Conc.l_out_done := false |}).
  set (l1 := {| Conc.l_pc := Conc.LFanout ["X"]; Conc.l_started := [];
                Conc.l_out_done := false |}).
  set (l2 := {| Conc.l_pc := Conc.LFanout [];
                Conc.l_started := [handle "X" 10];
                Conc.l_out_done := false |}).
  apply (Conc.reachable_step join same_name
           {| Conc.sys_state := s6; Conc.sys_lookups := [l2];
              Conc.sys_syncs := [Conc.SReturned] |}).
  2:{ apply (Conc.step_SyncFiles_call join same_name s6 [l2] [Conc.SReturned]). }
  apply (Conc.reachable_step join same_name
           {| Conc.sys_state := s6; Conc.sys_lookups := [l1];
              Conc.sys_syncs := [Conc.SReturned] |}).
  2:{ apply (Conc.step_Lookup_admit join same_name s6 [l1] [Conc.SReturned]
               0 l1 "X" [] (handle "X" 10)); reflexivity. }
  apply (Conc.reachable_step join same_name
           {| Conc.sys_state := s6; Conc.sys_lookups := [l0];
              Conc.sys_syncs := [Conc.SReturned] |}).
  2:{ apply (Conc.step_Lookup_range join same_name s6 [l0] [Conc.SReturned]
               0 l0); reflexivity. }
  apply (Conc.reachable_step join same_name
           {| Conc.sys_state := s5; Conc.sys_lookups := [];
              Conc.sys_syncs := [Conc.SReturned] |}).
  2:{ apply (Conc.step_Lookup_call join same_name s5 [] [Conc.SReturned]
               {| readers := 1; writer := false |}); reflexivity. }
  apply (Conc.reachable_step join same_name Cases.one_sync_before_unlock).
  2:{ apply (Conc.step_SyncFiles_Unlock join same_name s4 [] [Conc.SUnlock]
               0 {| readers := 0; writer := false |}); reflexivity. }
  exact one_sync_before_unlock_reachable.
Defined.

(** ** Lookup against SyncFiles (C1) *)

(** C1. In every state the thread can reach, a [Lookup] gives its read
    hold back only after its merged stream has reported done; and as long
    as it holds the lock (from the [RLock] at its start on), the writer
    flag is clear, no [SyncFiles] is between [Lock] and [Unlock], every
    handle a per-file query of this [Lookup] was started on is tracked and
    not closed, and no step of any goroutine changes the tracked set or
    closes a handle. *)
Theorem lookup_hold_excludes_eviction
    (filepath_Join : string → string → string)
    (BlockfilePathFromIndexPath : string → string)
    (sys : Conc.System) (l : Conc.LookupTask) :
  Conc.reachable filepath_Join BlockfilePathFromIndexPath sys →
  l ∈ Conc.sys_lookups sys →
  let s := Conc.sys_state sys in
  (Conc.in_flight l = true → Conc.holds_read l = true) ∧
  (Conc.holds_read l = false → Conc.l_out_done l = true) ∧
  (Conc.holds_read l = true →
     (0 < readers (mu (thr s)))%nat ∧
     writer (mu (thr s)) = false ∧
     (∀ y, y ∈ Conc.sys_syncs sys → Conc.holds_write y = false) ∧
     (∀ b, b ∈ Conc.l_started l →
           (b ∉ w_closed (world s)) ∧ (∃ n, files (thr s) !! n = Some b)) ∧
     (∀ sys', Conc.step filepath_Join BlockfilePathFromIndexPath sys sys' →
              files (thr (Conc.sys_state sys')) = files (thr s) ∧
              w_closed (world (Conc.sys_state sys')) = w_closed (world s))).
Proof.
  intros Hreach Hl. cbn zeta.
  destruct (ConcFacts.reachable_Inv _ _ _ Hreach) as (Hlock & Hok & Htasks).
  rewrite Forall_forall in Htasks. destruct (Htasks l Hl) as [Hst Hdone].
  split_and!.
  - unfold Conc.in_flight, Conc.holds_read. destruct (Conc.l_pc l); auto.
  - intros Hrel. apply Hdone. revert Hrel.
    unfold Conc.in_flight, Conc.holds_read. destruct (Conc.l_pc l); auto.
  - intros Hh.
    assert (∀ y, y ∈ Conc.sys_syncs sys → Conc.holds_write y = false) as Hex.
    { intros y Hy. eapply ConcFacts.lock_inv_excludes; eauto. }
    pose proof (ConcFacts.read_holds_pos _ _ Hl Hh) as Hpos.
    destruct Hlock as (Hr & Hw & Hx).
    split_and!.
    + lia.
    + destruct (writer (mu (thr (Conc.sys_state sys)))) eqn:Ew; [|reflexivity].
      specialize (Hx eq_refl). lia.
    + exact Hex.
    + intros b Hb. destruct (Hst Hh b Hb) as [n Hn]. split; [|eauto].
      destruct Hok as (Hopen & _). apply (Hopen n b Hn).
    + intros sys' Hstep. inversion Hstep; subst; cbn in *; auto.
      * match goal with H : _ !! _ = Some Conc.SDiscover |- _ =>
          apply list_elem_of_lookup_2, Hex in H; discriminate H end.
      * match goal with H : _ !! _ = Some Conc.SCleanUp |- _ =>
          apply list_elem_of_lookup_2, Hex in H; discriminate H end.
      * match goal with H : Conc.same_program_side _ _ |- _ =>
          destruct H as (_ & Hc & _) end. auto.
Qed.

(** A first [SyncFiles] has tracked X and returned; a [Lookup] holds the
    lock with its per-file query started on the handle of X; a second
    [SyncFiles] has been called.  The second call is not inside the lock,
    the handle of X is tracked and open, and no step from this state
    changes the tracked set or closes a handle. *)
Lemma lookup_hold_excludes_eviction_witness :
  let sys := Cases.lookup_draining_sync_waiting in
  let l := {| Conc.l_pc := Conc.LFanout [];
              Conc.l_started := [handle "X" 10];
              Conc.l_out_done := false |} in
  let s := Conc.sys_state sys in
  Conc.reachable join same_name sys ∧
  l ∈ Conc.sys_lookups sys ∧
  Conc.SCalled ∈ Conc.sys_syncs sys ∧
  (0 < readers (mu (thr s)))%nat ∧
  writer (mu (thr s)) = false ∧
  (∀ y, y ∈ Conc.sys_syncs sys → Conc.holds_write y = false) ∧
  (∀ b, b ∈ Conc.l_started l →
        (b ∉ w_closed (world s)) ∧ (∃ n, files (thr s) !! n = Some b)) ∧
  (∀ sys', Conc.step join same_name sys sys' →
           files (thr (Conc.sys_state sys')) = files (thr s) ∧
           w_closed (world (Conc.sys_state sys')) = w_closed (world s)).
Proof.
  cbn zeta.
  split; [exact lookup_draining_sync_waiting_reachable|].
  split; [left|]. split; [right; left|].
  exact (proj2 (proj2
           (lookup_hold_excludes_eviction join same_name
              Cases.lookup_draining_sync_waiting
              {| Conc.l_pc := Conc.LFanout [];
                 Conc.l_started := [handle "X" 10];
                 Conc.l_out_done := false |}
              lookup_draining_sync_waiting_reachable
              (list_elem_of_here _ _))) eq_refl).
Defined.

(** * Further properties of the package *)

(** ** The tracked set and its sorted view *)

(** X1. [getSortedFiles] returns the tracked names in ascending
    lexicographic order, each once; it is the only list that does, so the
    result does not depend on the order in which the map is iterated. *)
Theorem getSortedFiles_characterised (t : Thread) :
  Sorted string_le (getSortedFiles t) ∧
  NoDup (getSortedFiles t) ∧
  (∀ n, n ∈ getSortedFiles t ↔ is_Some (files t !! n)) ∧
  length (getSortedFiles t) = size (files t) ∧
  (∀ l, Sorted string_le l → NoDup l →
        (∀ n, n ∈ l ↔ is_Some (files t !! n)) → l = getSortedFiles t).
Proof.
  split_and!.
  - apply getSortedFiles_Sorted.
  - apply getSortedFiles_NoDup.
  - apply elem_of_getSortedFiles.
  - apply getSortedFiles_length.
  - intros l Hs Hnd Hl. symmetry. apply getSortedFiles_unique; assumption.
Qed.

(** X2. [untrackFile] of a name that is not tracked returns the
    not-monitored error and changes nothing: the thread is as before and no
    handle is closed.  Of a tracked name it closes that name's handle,
    removes that entry and leaves every other entry alone. *)
Theorem untrackFile_cases
    (filepath_Join : string → string → string) (x : string) (s : State) :
  ∃ e s',
    untrackFile filepath_Join x s = Ret e s' ∧
    removed (w_trace (world s')) = removed (w_trace (world s)) ∧
    match files (thr s) !! x with
    | None =>
        e = Some (ErrNotMonitored (getPacketFilePath filepath_Join (thr s) x)
                    (id (thr s))) ∧
        thr s' = thr s ∧
        w_closed (world s') = w_closed (world s) ∧
        closed_in (w_trace (world s')) = closed_in (w_trace (world s))
    | Some b =>
        e = None ∧
        files (thr s') = delete x (files (thr s)) ∧
        (∀ n, n ≠ x → files (thr s') !! n = files (thr s) !! n) ∧
        files (thr s') !! x = None ∧
        w_closed (world s') = b :: w_closed (world s) ∧
        closed_in (w_trace (world s')) = closed_in (w_trace (world s)) ++ [b]
    end.
Proof.
  unfold untrackFile, bind, get_thread. cbn.
  destruct (files (thr s) !! x) as [b|] eqn:Hb.
  - eexists _, _. split; [reflexivity|]. cbn.
    rewrite !removed_snoc, !closed_in_snoc, !app_nil_r.
    split_and!; auto.
    + intros n Hn. apply lookup_delete_ne. congruence.
    + apply lookup_delete_eq.
  - eexists _, _. split; [reflexivity|]. cbn.
    rewrite !removed_snoc, !closed_in_snoc, !app_nil_r. auto.
Qed.

(** X3. [deleteOldestThreadFile] panics exactly when no file is tracked
    (the index into the empty slice), and then before any [os.Remove]. *)
Theorem deleteOldestThreadFile_panics_iff_empty
    (filepath_Join : string → string → string) (s : State) :
  (panicked (deleteOldestThreadFile filepath_Join s) = true
   ↔ size (files (thr s)) = 0%nat) ∧
  (size (files (thr s)) = 0%nat →
   deleteOldestThreadFile filepath_Join s = Panic s).
Proof.
  assert (size (files (thr s)) = 0%nat →
          deleteOldestThreadFile filepath_Join s = Panic s) as Hp.
  { intros Hz. apply getSortedFiles_nil in Hz.
    unfold deleteOldestThreadFile, bind, get_thread. rewrite Hz. reflexivity. }
  split; [|exact Hp]. split.
  - intros Hpan. destruct (getSortedFiles (thr s)) as [|x l] eqn:Hks.
    { apply getSortedFiles_nil. exact Hks. }
    assert (is_Some (files (thr s) !! x)) as [b Hb].
    { apply elem_of_getSortedFiles. rewrite Hks. left. }
    destruct (deleteOldestThreadFile_cases filepath_Join s x l b Hks Hb)
      as (e & s' & Hr & _).
    rewrite Hr in Hpan. discriminate Hpan.
  - intros Hz. rewrite (Hp Hz). reflexivity.
Qed.

Import Cases.

(** ** Eviction *)

Lemma omap_lookup_delete_notin (m : gmap string BlockFile) x (l : list string) :
  x ∉ l → omap (fun n => delete x m !! n) l = omap (fun n => m !! n) l.
Proof.
  induction l as [|n l IH]; [reflexivity|].
  rewrite not_elem_of_cons. intros [Hne Hl]. cbn.
  rewrite lookup_delete_ne by congruence. rewrite IH by exact Hl. reflexivity.
Qed.

Ltac snoc_tidy H :=
  rewrite ?removed_snoc, ?closed_in_snoc, ?measured_snoc in H;
  cbv beta iota in H;
  rewrite ?app_nil_r in H.

Lemma cleanUp_loop_exact (filepath_Join : string → string → string) fuel :
  ∀ s k,
    (∀ p, w_Remove (world s) p = None) →
    low_prefix (DiskFreePercentage (conf (thr s))) (w_df (world s)) = k →
    (k < length (w_df (world s)))%nat →
    (length (w_df (world s)) < fuel)%nat →
    ∃ s',
      cleanUp_loop filepath_Join fuel s = Ret tt s' ∧
      getSortedFiles (thr s') = drop k (getSortedFiles (thr s)) ∧
      removed (w_trace (world s')) =
        removed (w_trace (world s))
        ++ flat_map (artifacts filepath_Join (thr s))
             (take k (getSortedFiles (thr s))) ∧
      closed_in (w_trace (world s')) =
        closed_in (w_trace (world s))
        ++ omap (fun n => files (thr s) !! n) (take k (getSortedFiles (thr s))) ∧
      measured (w_trace (world s')) =
        measured (w_trace (world s)) ++ take (S k) (w_df (world s)).
Proof.
  induction fuel as [|fuel IH]; intros s k Hrm Hk Hlt Hfuel; [lia|].
  rewrite cleanUp_loop_S, cleanUp_iteration_unfold. cbn zeta.
  destruct (w_df (world s)) as [|[df|err] rest] eqn:Hdf; [cbn in Hlt; lia| |].
  2:{ cbn in Hk. subst k. eexists. split; [reflexivity|]. cbn.
      rewrite !removed_snoc, !closed_in_snoc, !measured_snoc, !app_nil_r.
      rewrite drop_0. auto. }
  cbn [low_prefix] in Hk.
  destruct (df >? DiskFreePercentage (conf (thr s))) eqn:Hcmp.
  { subst k. eexists. split; [reflexivity|]. cbn.
    rewrite !removed_snoc, !closed_in_snoc, !measured_snoc, !app_nil_r.
    rewrite drop_0. auto. }
  destruct k as [|k]; [discriminate Hk|]. injection Hk as Hk.
  cbn [length] in Hlt, Hfuel.
  destruct (decide (size (files (thr s)) = 0%nat)) as [Hsz|Hsz].
  { match goal with
    | |- context [cleanUp_loop filepath_Join fuel ?s1] =>
        destruct (IH s1 k) as (s' & Hr & Hs & Hre & Hcl & Hme);
          [exact Hrm|exact Hk|cbn; lia|cbn; lia|]
    end.
    exists s'. split; [exact Hr|].
    apply getSortedFiles_nil in Hsz.
    cbn in Hs, Hre, Hcl, Hme. rewrite Hsz in *.
    snoc_tidy Hre. snoc_tidy Hcl. snoc_tidy Hme.
    rewrite take_nil in Hre, Hcl. rewrite drop_nil in Hs.
    rewrite take_nil, drop_nil. cbn [flat_map omap] in *.
    rewrite app_nil_r in *. cbn [take]. rewrite <- app_assoc in Hme.
    split_and!; [exact Hs|exact Hre|cbn; rewrite app_nil_r; exact Hcl|exact Hme]. }
  destruct (getSortedFiles (thr s)) as [|x l] eqn:Hks.
  { apply getSortedFiles_nil in Hks. contradiction. }
  assert (is_Some (files (thr s) !! x)) as [b Hb].
  { apply elem_of_getSortedFiles. rewrite Hks. left. }
  assert (x ∉ l) as Hxl.
  { pose proof (getSortedFiles_NoDup (thr s)) as Hnd. rewrite Hks in Hnd.
    apply NoDup_cons in Hnd. apply Hnd. }
  rewrite !Hrm, Hb.
  match goal with
  | |- context [cleanUp_loop filepath_Join fuel ?s1] =>
      destruct (IH s1 k) as (s' & Hr & Hs & Hre & Hcl & Hme);
        [exact Hrm|exact Hk|cbn; lia|cbn; lia|]
  end.
  exists s'. split; [exact Hr|].
  cbn in Hs, Hre, Hcl, Hme.
  rewrite (getSortedFiles_delete_head _ _ _ Hks) in Hs, Hre, Hcl.
  snoc_tidy Hre. snoc_tidy Hcl. snoc_tidy Hme.
  rewrite omap_lookup_delete_notin in Hcl.
  2:{ intros Hin. apply Hxl. eapply subseteq_take. exact Hin. }
  rewrite !Hrm in Hre. rewrite <- !app_assoc in Hre, Hcl, Hme.
  cbn [take drop flat_map omap list_omap]. cbv beta. rewrite Hb.
  split_and!; [exact Hs| |exact Hcl|exact Hme].
  rewrite Hre, <- !app_assoc. reflexivity.
Qed.

(** X4. When every removal succeeds and the scripted measurements start
    with exactly [k] values at or below the threshold before one that
    fails or exceeds it, the eviction phase returns having taken [k + 1]
    measurements, removed the artifacts of exactly the [k] oldest tracked
    files (all of them if fewer are tracked), oldest first, and closed
    exactly their handles; the names still tracked are the sorted names
    without the first [k]. *)
Theorem eviction_evicts_exactly_the_oldest
    (filepath_Join : string → string → string) (s : State) (k : nat) :
  (∀ p, w_Remove (world s) p = None) →
  low_prefix (DiskFreePercentage (conf (thr s))) (w_df (world s)) = k →
  (k < length (w_df (world s)))%nat →
  ∃ s',
    cleanUpOnLowDiskSpace filepath_Join s = Ret tt s' ∧
    getSortedFiles (thr s') = drop k (getSortedFiles (thr s)) ∧
    removed (w_trace (world s')) =
      removed (w_trace (world s))
      ++ flat_map (artifacts filepath_Join (thr s))
           (take k (getSortedFiles (thr s))) ∧
    closed_in (w_trace (world s')) =
      closed_in (w_trace (world s))
      ++ omap (fun n => files (thr s) !! n) (take k (getSortedFiles (thr s))) ∧
    measured (w_trace (world s')) =
      measured (w_trace (world s)) ++ take (S k) (w_df (world s)).
Proof.
  intros Hrm Hk Hlt. apply cleanUp_loop_exact; auto.
Qed.

(** A, B and C tracked, threshold 10, measurements 5, 5, 12: A and B go,
    C stays. *)
Lemma eviction_evicts_exactly_the_oldest_witness :
  ∃ s',
    cleanUpOnLowDiskSpace join evict_two_of_ABC = Ret tt s' ∧
    getSortedFiles (thr s') = drop 2 (getSortedFiles (thr evict_two_of_ABC)) ∧
    removed (w_trace (world s')) =
      removed (w_trace (world evict_two_of_ABC))
      ++ flat_map (artifacts join (thr evict_two_of_ABC))
           (take 2 (getSortedFiles (thr evict_two_of_ABC))) ∧
    closed_in (w_trace (world s')) =
      closed_in (w_trace (world evict_two_of_ABC))
      ++ omap (fun n => files (thr evict_two_of_ABC) !! n)
           (take 2 (getSortedFiles (thr evict_two_of_ABC))) ∧
    measured (w_trace (world s')) =
      measured (w_trace (world evict_two_of_ABC))
      ++ take 3 (w_df (world evict_two_of_ABC)).
Proof.
  apply (eviction_evicts_exactly_the_oldest join evict_two_of_ABC 2).
  - intros p. reflexivity.
  - reflexivity.
  - cbn. lia.
Defined.

(** X5. The eviction phase returns as soon as a measurement fails or
    exceeds the threshold: if the scripted measurements contain one, the
    phase returns (it neither panics nor runs on) with the configuration,
    the paths, the mutex and the last-discovery timestamp unchanged; and
    if the very first measurement fails, the thread is unchanged and the
    measurement and the log line reporting its failure are the only
    events. *)
Theorem eviction_returns_at_first_stop
    (filepath_Join : string → string → string) (s : State) :
  (low_prefix (DiskFreePercentage (conf (thr s))) (w_df (world s))
   < length (w_df (world s)))%nat →
  ∃ s',
    cleanUpOnLowDiskSpace filepath_Join s = Ret tt s' ∧
    same_config (thr s) (thr s') ∧
    fileLastSeen (thr s') = fileLastSeen (thr s) ∧
    (∀ err rest, w_df (world s) = inr err :: rest →
       thr s' = thr s ∧
       w_trace (world s') =
         w_trace (world s)
         ++ [EvMeasure (packetPath (thr s)) (inr err);
             EvLog (LogCouldNotGetFree (id (thr s)) (packetPath (thr s)) err)]).
Proof.
  intros Hlow.
  destruct (cleanUpOnLowDiskSpace_returns filepath_Join s Hlow) as (s' & Hr).
  exists s'. split; [exact Hr|].
  pose proof (cleanUp_loop_frame filepath_Join
                (S (length (w_df (world s)))) s) as Hfr.
  unfold cleanUpOnLowDiskSpace in Hr. rewrite Hr in Hfr. cbn in Hfr.
  destruct Hfr as (Hc & Hf & _). split_and!; [exact Hc|exact Hf|].
  intros err rest Hdf. revert Hr.
  rewrite cleanUp_loop_S, cleanUp_iteration_unfold. cbn zeta. rewrite Hdf.
  intros Hr. injection Hr as <-. cbn. rewrite <- app_assoc. auto.
Qed.

Lemma eviction_returns_at_first_stop_witness :
  ∃ s',
    cleanUpOnLowDiskSpace join measurement_fails = Ret tt s' ∧
    same_config (thr measurement_fails) (thr s') ∧
    fileLastSeen (thr s') = fileLastSeen (thr measurement_fails) ∧
    (∀ err rest, w_df (world measurement_fails) = inr err :: rest →
       thr s' = thr measurement_fails ∧
       w_trace (world s') =
         w_trace (world measurement_fails)
         ++ [EvMeasure (packetPath (thr measurement_fails)) (inr err);
             EvLog (LogCouldNotGetFree (id (thr measurement_fails))
                      (packetPath (thr measurement_fails)) err)]).
Proof.
  apply (eviction_returns_at_first_stop join measurement_fails).
  cbn. lia.
Defined.

Lemma eviction_frame_refl s : eviction_frame s s.
Proof.
  split_and!; [reflexivity| | |].
  - exists []. rewrite app_nil_r. auto.
  - exists []. reflexivity.
  - intros n b H1 H2. congruence.
Qed.

Lemma eviction_frame_trans s1 s2 s3 :
  eviction_frame s1 s2 → eviction_frame s2 s3 → eviction_frame s1 s3.
Proof.
  intros (Hf1 & (tr1 & Ht1 & Ha1) & (cl1 & Hc1) & Hd1)
         (Hf2 & (tr2 & Ht2 & Ha2) & (cl2 & Hc2) & Hd2).
  split_and!.
  - etrans; eassumption.
  - exists (tr1 ++ tr2). rewrite Ht2, Ht1, app_assoc. split; [reflexivity|].
    apply Forall_app. auto.
  - exists (cl2 ++ cl1). rewrite Hc2, Hc1, app_assoc. reflexivity.
  - intros n b Hn Hnone.
    destruct (files (thr s2) !! n) as [b'|] eqn:Hn2.
    + assert (b' = b) as ->.
      { eapply lookup_weaken in Hn2; [|exact Hf1]. congruence. }
      eauto.
    + rewrite Hc2. apply elem_of_app. right. eauto.
Qed.

Ltac pass_cases j s :=
  rewrite (cleanUp_iteration_unfold j s); cbn zeta;
  destruct (w_df (world s)) as [|[?df|?err] ?rest] eqn:Hdf;
  [ | destruct (_ >? _) eqn:Hcmp;
      [ | destruct (decide (size (files (thr s)) = 0%nat)) as [Hsz|Hsz];
          [ | destruct (getSortedFiles (thr s)) as [|?x ?l] eqn:Hks;
              [ apply getSortedFiles_nil in Hks; contradiction
              | destruct (w_Remove (world s) (getPacketFilePath _ _ _)) eqn:Hr1;
                [ | destruct (w_Remove (world s) (getIndexFilePath _ _ _)) eqn:Hr2;
                    [ | destruct (files (thr s) !! _) eqn:Hb ] ] ] ] ]
  | ].

Lemma eviction_frame_same_files s s' tr :
  files (thr s') = files (thr s) →
  w_closed (world s') = w_closed (world s) →
  w_trace (world s') = w_trace (world s) ++ tr →
  Forall (fun e => eviction_event e = true) tr →
  eviction_frame s s'.
Proof.
  intros Hf Hc Ht Ha. split_and!.
  - rewrite Hf. reflexivity.
  - eauto.
  - exists []. exact Hc.
  - intros n b H1 H2. rewrite Hf in H2. congruence.
Qed.

Lemma cleanUp_iteration_eviction_frame j s :
  eviction_frame s (state_of (cleanUp_iteration j s)).
Proof.
  pass_cases j s;
    try (eapply eviction_frame_same_files;
         [reflexivity|reflexivity|cbn; rewrite <- ?app_assoc; reflexivity|];
         repeat constructor).
  - apply eviction_frame_refl.
  - split_and!.
    + cbn. apply delete_subseteq.
    + eexists. split; [cbn; rewrite <- ?app_assoc; reflexivity|].
      repeat constructor.
    + exists [b]. reflexivity.
    + cbn. intros n b' Hn Hnone. apply lookup_delete_None in Hnone.
      destruct Hnone as [->|Hnone]; [|congruence].
      rewrite Hb in Hn. injection Hn as ->. left.
Qed.

Lemma cleanUp_loop_eviction_frame j fuel s :
  eviction_frame s (state_of (cleanUp_loop j fuel s)).
Proof.
  revert fuel s. apply (cleanUp_loop_lift j eviction_frame).
  - apply eviction_frame_refl.
  - apply eviction_frame_trans.
  - apply cleanUp_iteration_eviction_frame.
Qed.

(** X6. However the eviction phase ends, it only shrinks the tracked set:
    what is tracked afterwards was tracked before under the same handle,
    every name it stopped tracking had its handle closed, handles closed
    earlier stay closed, the events it produced are measurements,
    removals, closes, sleeps and log lines (it never reads the index
    directory and never opens a blockfile), and the configuration, the
    paths, the mutex and the last-discovery timestamp are unchanged. *)
Theorem eviction_only_shrinks
    (filepath_Join : string → string → string) (s : State) :
  let s' := state_of (cleanUpOnLowDiskSpace filepath_Join s) in
  files (thr s') ⊆ files (thr s) ∧
  (∀ n b, files (thr s) !! n = Some b → files (thr s') !! n = None →
          b ∈ w_closed (world s')) ∧
  (∀ b, b ∈ w_closed (world s) → b ∈ w_closed (world s')) ∧
  (∃ tr, w_trace (world s') = w_trace (world s) ++ tr ∧
         Forall (fun e => eviction_event e = true) tr) ∧
  w_next_handle (world s') = w_next_handle (world s) ∧
  same_config (thr s) (thr s') ∧
  fileLastSeen (thr s') = fileLastSeen (thr s).
Proof.
  cbn zeta. unfold cleanUpOnLowDiskSpace.
  destruct (cleanUp_loop_eviction_frame filepath_Join
              (S (length (w_df (world s)))) s)
    as (Hsub & Htr & (cl & Hcl) & Hdrop).
  destruct (cleanUp_loop_frame filepath_Join
              (S (length (w_df (world s)))) s) as (Hc & Hf & _ & Hnh).
  split_and!; auto.
  intros b Hb. rewrite Hcl. apply elem_of_app. auto.
Qed.

(** ** Discovery *)

Lemma sync_loop_trace (j : string → string → string) names : ∀ cnt s,
  ∃ cnt' s' tr,
    sync_loop j names cnt s = Ret cnt' s' ∧
    w_trace (world s') = w_trace (world s) ++ tr ∧
    Forall (fun e => open_or_log_event e = true) tr.
Proof.
  induction names as [|f rest IH]; intros cnt s.
  { exists cnt, s, []. rewrite app_nil_r. auto. }
  rewrite sync_loop_cons, sync_iteration_unfold. cbn zeta.
  destruct (files (thr s) !! f); [apply IH|].
  destruct (w_NewBlockFile (world s) _).
  - match goal with |- context [sync_loop j rest cnt ?s1] =>
      destruct (IH cnt s1) as (cnt' & s' & tr & Hr & Ht & Ha) end.
    eexists cnt', s', (_ :: _ :: tr). split; [exact Hr|].
    split; [rewrite Ht; cbn; rewrite <- !app_assoc; reflexivity|].
    repeat constructor. exact Ha.
  - match goal with |- context [sync_loop j rest (cnt + 1) ?s1] =>
      destruct (IH (cnt + 1) s1) as (cnt' & s' & tr & Hr & Ht & Ha) end.
    eexists cnt', s', (_ :: _ :: tr). split; [exact Hr|].
    split; [rewrite Ht; cbn; rewrite <- !app_assoc; reflexivity|].
    repeat constructor. exact Ha.
Qed.

Lemma open_or_log_events_silent tr :
  Forall (fun e => open_or_log_event e = true) tr →
  removed tr = [] ∧ closed_in tr = [] ∧ measured tr = [].
Proof.
  induction 1 as [|e tr He _ IH]; [auto|].
  destruct IH as (H1 & H2 & H3).
  change (e :: tr) with ([e] ++ tr).
  rewrite removed_app, closed_in_app, measured_app, H1, H2, H3.
  destruct e; try discriminate He; auto.
Qed.

(** X7. Discovery only reads and opens: when the directory entries are
    well named it returns, and the events it produced are one read of the
    index directory followed only by blockfile opens and log lines (no
    second directory read among them).  It removes nothing, closes
    nothing, takes no measurement, leaves the clock, the scripted
    measurements, the configuration, the paths and the mutex alone, and
    the last-discovery timestamp afterwards is the current time if a new
    file was tracked and the old timestamp otherwise. *)
Theorem discovery_only_reads_and_opens
    (filepath_Join : string → string → string)
    (BlockfilePathFromIndexPath : string → string) (s : State) :
  disk_well_named s →
  ∃ s' tr,
    syncFilesWithDisk filepath_Join BlockfilePathFromIndexPath s = Ret tt s' ∧
    w_trace (world s') =
      w_trace (world s) ++ EvReadDir (indexPath (thr s)) :: tr ∧
    Forall (fun e => open_or_log_event e = true) tr ∧
    removed (w_trace (world s')) = removed (w_trace (world s)) ∧
    closed_in (w_trace (world s')) = closed_in (w_trace (world s)) ∧
    measured (w_trace (world s')) = measured (w_trace (world s)) ∧
    w_closed (world s') = w_closed (world s) ∧
    w_df (world s') = w_df (world s) ∧
    w_now (world s') = w_now (world s) ∧
    same_config (thr s) (thr s') ∧
    fileLastSeen (thr s') =
      match newly_tracked filepath_Join s
              (disk_candidates BlockfilePathFromIndexPath s) with
      | [] => fileLastSeen (thr s)
      | _ :: _ => w_now (world s)
      end.
Proof.
  intros Hwn.
  destruct (syncFilesWithDisk_spec filepath_Join BlockfilePathFromIndexPath
              s Hwn) as (s' & Hr & Hc & Hw & _ & _ & _ & Hz & Hnz & _).
  assert (∃ tr, w_trace (world s') =
                  w_trace (world s) ++ EvReadDir (indexPath (thr s)) :: tr ∧
                Forall (fun e => open_or_log_event e = true) tr)
    as (tr & Ht & Ha).
  { revert Hr. unfold syncFilesWithDisk, bind.
    rewrite (listPacketFilesOnDisk_unfold BlockfilePathFromIndexPath s Hwn).
    match goal with |- context [sync_loop _ ?names 0 ?s0] =>
      destruct (sync_loop_trace filepath_Join names 0 s0)
        as (cnt' & s1 & tr & -> & Ht & Ha);
      assert (∃ tr0, w_trace (world s0) =
                       w_trace (world s) ++ EvReadDir (indexPath (thr s)) :: tr0 ∧
                     Forall (fun e => open_or_log_event e = true) tr0)
        as (tr0 & Ht0 & Ha0)
    end.
    { destruct (w_ReadDir (world s) (indexPath (thr s))); cbn.
      - exists []. auto.
      - eexists [_]. rewrite <- app_assoc. split; [reflexivity|].
        repeat constructor. }
    unfold get_thread. cbn beta iota.
    destruct (cnt' >? 0); intros Hr; injection Hr as <-.
    - exists (tr0 ++ tr ++ [EvV 0 (VFoundNew (id (thr s1)) cnt')]). cbn.
      rewrite Ht, Ht0, <- !app_assoc. split; [reflexivity|].
      rewrite !Forall_app. repeat split; auto; repeat constructor.
    - exists (tr0 ++ tr). rewrite Ht, Ht0, <- !app_assoc.
      split; [reflexivity|]. rewrite Forall_app. auto. }
  exists s', tr. split; [exact Hr|]. split; [exact Ht|]. split; [exact Ha|].
  destruct (open_or_log_events_silent tr Ha) as (H1 & H2 & H3).
  rewrite Ht, cons_middle, app_assoc.
  rewrite removed_app, closed_in_app, measured_app, H1, H2, H3, !app_nil_r.
  rewrite removed_snoc, closed_in_snoc, measured_snoc, !app_nil_r.
  destruct Hw as (_ & Hdf & Hnow & Hcl & _).
  split_and!; auto.
  destruct (newly_tracked filepath_Join s
              (disk_candidates BlockfilePathFromIndexPath s)) eqn:Hnt.
  - rewrite (Hz eq_refl). reflexivity.
  - apply Hnz. discriminate.
Qed.

Lemma discovery_only_reads_and_opens_witness :
  ∃ s' tr,
    syncFilesWithDisk join same_name discover_X_and_broken_Y = Ret tt s' ∧
    w_trace (world s') =
      w_trace (world discover_X_and_broken_Y)
      ++ EvReadDir (indexPath (thr discover_X_and_broken_Y)) :: tr ∧
    Forall (fun e => open_or_log_event e = true) tr ∧
    removed (w_trace (world s')) =
      removed (w_trace (world discover_X_and_broken_Y)) ∧
    closed_in (w_trace (world s')) =
      closed_in (w_trace (world discover_X_and_broken_Y)) ∧
    measured (w_trace (world s')) =
      measured (w_trace (world discover_X_and_broken_Y)) ∧
    w_closed (world s') = w_closed (world discover_X_and_broken_Y) ∧
    w_df (world s') = w_df (world discover_X_and_broken_Y) ∧
    w_now (world s') = w_now (world discover_X_and_broken_Y) ∧
    same_config (thr discover_X_and_broken_Y) (thr s') ∧
    fileLastSeen (thr s') =
      match newly_tracked join discover_X_and_broken_Y
              (disk_candidates same_name discover_X_and_broken_Y) with
      | [] => fileLastSeen (thr discover_X_and_broken_Y)
      | _ :: _ => w_now (world discover_X_and_broken_Y)
      end.
Proof.
  apply (discovery_only_reads_and_opens join same_name
           discover_X_and_broken_Y).
  vm_compute. repeat constructor; discriminate.
Defined.

(** X8. Discovery is idempotent against an unchanged disk: a second pass
    right after the first finds nothing new and leaves the thread, the
    last-discovery timestamp included, exactly as the first pass left
    it. *)
Theorem discovery_twice_changes_nothing
    (filepath_Join : string → string → string)
    (BlockfilePathFromIndexPath : string → string) (s : State) :
  disk_well_named s →
  ∃ s1 s2,
    syncFilesWithDisk filepath_Join BlockfilePathFromIndexPath s = Ret tt s1 ∧
    syncFilesWithDisk filepath_Join BlockfilePathFromIndexPath s1 = Ret tt s2 ∧
    newly_tracked filepath_Join s1
      (disk_candidates BlockfilePathFromIndexPath s1) = [] ∧
    thr s2 = thr s1.
Proof.
  intros Hwn.
  destruct (syncFilesWithDisk_spec filepath_Join BlockfilePathFromIndexPath
              s Hwn) as (s1 & Hr1 & Hc & Hw & Hd & _).
  destruct Hc as (_ & _ & Hip & Hpp & _).
  destruct Hw as ((Hrd & Hnb & _) & _).
  assert (disk_candidates BlockfilePathFromIndexPath s1 =
          disk_candidates BlockfilePathFromIndexPath s) as Hcand.
  { unfold disk_candidates. rewrite Hip, Hrd. reflexivity. }
  assert (disk_well_named s1) as Hwn1.
  { unfold disk_well_named in *. rewrite Hip, Hrd. exact Hwn. }
  destruct (syncFilesWithDisk_spec filepath_Join BlockfilePathFromIndexPath
              s1 Hwn1) as (s2 & Hr2 & _ & _ & _ & _ & _ & Hz & _).
  assert (newly_tracked filepath_Join s1
            (disk_candidates BlockfilePathFromIndexPath s1) = []) as Hnone.
  { apply elem_of_nil_inv. intros n Hn.
    apply elem_of_newly_tracked in Hn as (Hn & Hnt & Ho).
    apply not_elem_of_dom in Hnt. apply Hnt. rewrite Hd.
    apply elem_of_union. right. apply elem_of_list_to_set.
    apply elem_of_newly_tracked. rewrite <- Hcand. split; [exact Hn|].
    unfold open_error in *. rewrite Hpp, Hnb in Ho. split; [|exact Ho].
    apply not_elem_of_dom. intros Hdom. apply Hnt. rewrite Hd.
    apply elem_of_union. left. exact Hdom. }
  exists s1, s2. auto.
Qed.

Lemma discovery_twice_changes_nothing_witness :
  ∃ s1 s2,
    syncFilesWithDisk join same_name discover_X_and_broken_Y = Ret tt s1 ∧
    syncFilesWithDisk join same_name s1 = Ret tt s2 ∧
    newly_tracked join s1 (disk_candidates same_name s1) = [] ∧
    thr s2 = thr s1.
Proof.
  apply (discovery_twice_changes_nothing join same_name
           discover_X_and_broken_Y).
  vm_compute. repeat constructor; discriminate.
Defined.

(** X9. Tracking a name and untracking it again is a round trip on the
    thread: for a name that is not tracked and whose blockfile opens,
    [trackNewFile] followed by [untrackFile] both report no error and
    leave the thread as it was; the handle that was opened in between is
    the one handle that was closed, and the invariant of the tracked
    handles is kept at both steps. *)
Theorem track_then_untrack_restores
    (filepath_Join : string → string → string) (name : string) (s : State) :
  files (thr s) !! name = None →
  w_NewBlockFile (world s) (filepath_Join (packetPath (thr s)) name) = None →
  ∃ s1 s2,
    trackNewFile filepath_Join name s = Ret None s1 ∧
    untrackFile filepath_Join name s1 = Ret None s2 ∧
    files (thr s1) !! name =
      Some {| bf_name := filepath_Join (packetPath (thr s)) name;
              bf_id := w_next_handle (world s) |} ∧
    thr s2 = thr s ∧
    closed_in (w_trace (world s2)) =
      closed_in (w_trace (world s))
      ++ [{| bf_name := filepath_Join (packetPath (thr s)) name;
             bf_id := w_next_handle (world s) |}] ∧
    (handles_ok s → handles_ok s1 ∧ handles_ok s2).
Proof.
  intros Hnone Hopen.
  set (b := {| bf_name := filepath_Join (packetPath (thr s)) name;
               bf_id := w_next_handle (world s) |}).
  assert (∃ s1, trackNewFile filepath_Join name s = Ret None s1 ∧
                files (thr s1) = <[name := b]> (files (thr s)) ∧
                same_config (thr s) (thr s1) ∧
                fileLastSeen (thr s1) = fileLastSeen (thr s) ∧
                w_closed (world s1) = w_closed (world s) ∧
                w_next_handle (world s1) = S (w_next_handle (world s)) ∧
                closed_in (w_trace (world s1)) = closed_in (w_trace (world s)))
    as (s1 & Hr1 & Hf1 & Hc1 & Hl1 & Hcl1 & Hnh1 & Htr1).
  { unfold trackNewFile, bind, get_thread, NewBlockFile. cbn zeta.
    rewrite Hopen. eexists. split; [reflexivity|]. cbn.
    rewrite !closed_in_snoc, !app_nil_r. unfold same_config. auto 10. }
  assert (files (thr s1) !! name = Some b) as Hb.
  { rewrite Hf1. apply lookup_insert_eq. }
  exists s1. eexists. split; [exact Hr1|].
  split; [apply (untrackFile_tracked filepath_Join s1 name b Hb)|].
  split; [exact Hb|].
  split_and!.
  - cbn. rewrite Hf1, delete_insert_eq, delete_id by exact Hnone.
    destruct Hc1 as (H1 & H2 & H3 & H4 & H5).
    destruct (thr s) as [i c ip pp fs m fl], (thr s1) as [i1 c1 ip1 pp1 fs1 m1 fl1].
    cbn in *. subst. reflexivity.
  - cbn. rewrite !closed_in_snoc, !app_nil_r, Htr1. reflexivity.
  - intros Hok.
    assert (handles_ok s1) as Hok1.
    { apply (handles_ok_track filepath_Join s s1 name); auto. }
    split; [exact Hok1|].
    eapply (handles_ok_untrack s1 _ name b); [exact Hb|..|exact Hok1];
      reflexivity.
Qed.

Lemma track_then_untrack_restores_witness :
  ∃ s1 s2,
    trackNewFile join "X" discover_X = Ret None s1 ∧
    untrackFile join "X" s1 = Ret None s2 ∧
    files (thr s1) !! "X" =
      Some {| bf_name := join (packetPath (thr discover_X)) "X";
              bf_id := w_next_handle (world discover_X) |} ∧
    thr s2 = thr discover_X ∧
    closed_in (w_trace (world s2)) =
      closed_in (w_trace (world discover_X))
      ++ [{| bf_name := join (packetPath (thr discover_X)) "X";
             bf_id := w_next_handle (world discover_X) |}] ∧
    (handles_ok discover_X → handles_ok s1 ∧ handles_ok s2).
Proof.
  apply (track_then_untrack_restores join "X" discover_X).
  - reflexivity.
  - reflexivity.
Defined.

Lemma listing_loop_not_well_named
    (BlockfilePathFromIndexPath : string → string) entries : ∀ out s,
  ¬ Forall well_named entries →
  listing_loop BlockfilePathFromIndexPath entries out s = Panic s.
Proof.
  induction entries as [|f rest IH]; intros out s Hn.
  { exfalso. apply Hn. constructor. }
  cbn [listing_loop].
  destruct (IsDir f) eqn:Hd.
  { apply IH. intros Hrest. apply Hn. constructor; [|exact Hrest].
    intros Hf. congruence. }
  destruct (Name f) as [|c n'] eqn:Hname; [reflexivity|].
  assert (¬ Forall well_named rest) as Hrest.
  { intros Hrest. apply Hn. constructor; [|exact Hrest].
    intros _ He. rewrite Hname in He. discriminate He. }
  destruct (decide (c = "."%char)); apply IH; exact Hrest.
Qed.

Lemma listPacketFilesOnDisk_not_well_named
    (BlockfilePathFromIndexPath : string → string) s :
  ¬ disk_well_named s →
  listPacketFilesOnDisk BlockfilePathFromIndexPath s =
  Panic (exec (ioutil_ReadDir (indexPath (thr s))) s).
Proof.
  unfold disk_well_named, listPacketFilesOnDisk, bind, get_thread,
    ioutil_ReadDir.
  destruct (w_ReadDir (world s) (indexPath (thr s))) as [entries|err];
    [|intros Hn; exfalso; apply Hn; exact I].
  intros Hn. rewrite listing_loop_not_well_named by exact Hn. reflexivity.
Qed.

(** X10. Listing the index directory panics exactly when the directory
    holds an entry that is not a directory and has an empty name (the
    index expression on the name is out of range); otherwise it returns.
    When it panics, reading the directory is all that has happened: no
    candidate was opened and the thread is untouched. *)
Theorem listing_panics_exactly_on_empty_name
    (BlockfilePathFromIndexPath : string → string) (s : State) :
  let o := listPacketFilesOnDisk BlockfilePathFromIndexPath s in
  (panicked o = true ↔ ¬ disk_well_named s) ∧
  (returned o = true ↔ disk_well_named s) ∧
  (panicked o = true →
   thr (state_of o) = thr s ∧
   w_trace (world (state_of o)) =
     w_trace (world s) ++ [EvReadDir (indexPath (thr s))]).
Proof.
  cbn zeta.
  assert (Decision (disk_well_named s)) as [Hwn|Hwn].
  { unfold disk_well_named. destruct (w_ReadDir _ _); apply _. }
  - rewrite (listPacketFilesOnDisk_unfold _ s Hwn). cbn.
    split_and!; [split; [discriminate|contradiction]|tauto|discriminate].
  - rewrite (listPacketFilesOnDisk_not_well_named _ s Hwn). cbn.
    split_and!; [tauto|split; [discriminate|contradiction]|auto].
Qed.

Lemma SyncFiles_locked_blocks
    (j : string → string → string) (p : string → string) s :
  RWMutex_Lock (mu (thr s)) = None → SyncFiles j p s = Blocked s.
Proof. intros H. rewrite SyncFiles_unfold, H. reflexivity. Qed.

(** X11. [SyncFiles] panics exactly when it finds the lock free and the
    listing comes upon an entry that is not a directory and has an empty
    name.  On every directory whose entries are named, a call that finds
    the lock free never panics and never waits: it returns with the lock
    free again, or it is still in the eviction loop, the write hold out,
    when the scripted measurements, every one of them at or below the
    threshold, are used up.  The index into the sorted names and the
    [Unlock] are never what fails. *)
Theorem SyncFiles_panics_exactly_on_empty_name
    (filepath_Join : string → string → string)
    (BlockfilePathFromIndexPath : string → string) (s : State) :
  let o := SyncFiles filepath_Join BlockfilePathFromIndexPath s in
  (panicked o = true ↔
   mu (thr s) = {| readers := 0; writer := false |} ∧ ¬ disk_well_named s) ∧
  (mu (thr s) = {| readers := 0; writer := false |} → disk_well_named s →
   match o with
   | Ret _ s' => mu (thr s') = {| readers := 0; writer := false |}
   | Starved s' =>
       mu (thr s') = {| readers := 0; writer := true |} ∧
       low_prefix (DiskFreePercentage (conf (thr s))) (w_df (world s))
       = length (w_df (world s))
   | Panic _ | Blocked _ => False
   end).
Proof.
  cbn zeta.
  assert (mu (thr s) = {| readers := 0; writer := false |} →
          disk_well_named s →
          match SyncFiles filepath_Join BlockfilePathFromIndexPath s with
          | Ret _ s' => mu (thr s') = {| readers := 0; writer := false |}
          | Starved s' =>
              mu (thr s') = {| readers := 0; writer := true |} ∧
              low_prefix (DiskFreePercentage (conf (thr s))) (w_df (world s))
              = length (w_df (world s))
          | Panic _ | Blocked _ => False
          end) as Hnamed.
  { intros Hmu Hwn. rewrite SyncFiles_unfold, Hmu.
    cbn [RWMutex_Lock writer readers].
    set (s1 := with_mu {| readers := 0; writer := true |} s).
    destruct (syncFilesWithDisk_spec filepath_Join BlockfilePathFromIndexPath
                s1 Hwn) as (s2 & -> & Hc2 & Hw2 & _).
    destruct Hc2 as (_ & Hcf2 & _ & _ & Hmu2).
    destruct Hw2 as (_ & Hdf2 & _).
    pose proof (cleanUpOnLowDiskSpace_outcome filepath_Join s2) as Ho.
    pose proof (cleanUp_loop_frame filepath_Join
                  (S (length (w_df (world s2)))) s2) as ((_ & _ & _ & _ & Hmu3) & _).
    unfold cleanUpOnLowDiskSpace in *.
    destruct (cleanUp_loop filepath_Join (S (length (w_df (world s2)))) s2)
      as [[] s3|s3|s3|s3]; cbn [state_of] in Hmu3; try contradiction.
    - unfold mu_Unlock, RWMutex_Unlock. rewrite Hmu3, Hmu2. reflexivity.
    - split; [rewrite Hmu3, Hmu2; reflexivity|].
      rewrite Hcf2, Hdf2 in Ho. exact Ho. }
  split; [|exact Hnamed].
  assert (Decision (disk_well_named s)) as [Hwn|Hwn].
  { unfold disk_well_named. destruct (w_ReadDir _ _); apply _. }
  - split; [|intros [_ Hn]; contradiction].
    intros Hpan. exfalso. revert Hpan Hnamed. rewrite SyncFiles_unfold.
    destruct (mu (thr s)) as [[|n] [|]];
      cbn [RWMutex_Lock writer readers panicked]; try discriminate.
    intros Hpan Hnamed. specialize (Hnamed eq_refl Hwn).
    destruct (match syncFilesWithDisk _ _ _ with Ret _ _ => _ | _ => _ end);
      first [discriminate Hpan|contradiction].
  - split.
    + intros Hpan. split; [|exact Hwn]. revert Hpan. rewrite SyncFiles_unfold.
      destruct (mu (thr s)) as [[|n] [|]];
        cbn [RWMutex_Lock writer readers panicked];
        first [discriminate|reflexivity].
    + intros [Hmu _]. rewrite SyncFiles_unfold, Hmu.
      cbn [RWMutex_Lock writer readers]. unfold syncFilesWithDisk, bind.
      rewrite listPacketFilesOnDisk_not_well_named by exact Hwn. reflexivity.
Qed.

(** ** The accessor and [SyncFiles] as a whole *)

Lemma FileLastSeen_free s :
  writer (mu (thr s)) = false →
  FileLastSeen s = Ret (fileLastSeen (thr s)) s.
Proof.
  destruct s as [[i c ip pp fs [n w] fl] wd]. cbn. intros ->. reflexivity.
Qed.

(** X13. A [SyncFiles] call that finds the lock free, well-named
    directory entries and, among the scripted measurements, one that fails
    or exceeds the threshold, returns with the lock free again.  The
    configuration and the paths are unchanged, tracked handles stay open
    and distinct, every name tracked afterwards was tracked before or is
    a candidate on disk, and [FileLastSeen] called next returns the time
    of the call's discovery phase if that phase tracked a new file, and
    the old timestamp if it did not. *)
Theorem SyncFiles_returns_and_releases
    (filepath_Join : string → string → string)
    (BlockfilePathFromIndexPath : string → string) (s : State) :
  mu (thr s) = {| readers := 0; writer := false |} →
  disk_well_named s →
  (low_prefix (DiskFreePercentage (conf (thr s))) (w_df (world s))
   < length (w_df (world s)))%nat →
  ∃ s',
    SyncFiles filepath_Join BlockfilePathFromIndexPath s = Ret tt s' ∧
    same_config (thr s) (thr s') ∧
    (handles_ok s → handles_ok s') ∧
    dom (files (thr s')) ⊆
      dom (files (thr s))
      ∪ list_to_set (disk_candidates BlockfilePathFromIndexPath s) ∧
    FileLastSeen s' =
      Ret match newly_tracked filepath_Join s
                  (disk_candidates BlockfilePathFromIndexPath s) with
          | [] => fileLastSeen (thr s)
          | _ :: _ => w_now (world s)
          end s'.
Proof.
  intros Hmu Hwn Hlow.
  rewrite SyncFiles_unfold, Hmu. cbn [RWMutex_Lock writer readers].
  set (s1 := with_mu {| readers := 0; writer := true |} s).
  destruct (syncFilesWithDisk_spec filepath_Join BlockfilePathFromIndexPath
              s1 Hwn)
    as (s2 & -> & Hc2 & Hw2 & Hd2 & _ & _ & Hz & Hnz & Hok2).
  assert (newly_tracked filepath_Join s1
            (disk_candidates BlockfilePathFromIndexPath s1) =
          newly_tracked filepath_Join s
            (disk_candidates BlockfilePathFromIndexPath s)) as Hnt.
  { apply newly_tracked_ext; reflexivity. }
  change (disk_candidates BlockfilePathFromIndexPath s1)
    with (disk_candidates BlockfilePathFromIndexPath s) in *.
  rewrite Hnt in Hd2, Hz, Hnz.
  destruct Hc2 as (Hi2 & Hcf2 & Hip2 & Hpp2 & Hmu2).
  destruct Hw2 as (_ & Hdf2 & _).
  destruct (cleanUpOnLowDiskSpace_returns filepath_Join s2) as (s3 & Hr3).
  { rewrite Hcf2, Hdf2. exact Hlow. }
  rewrite Hr3.
  pose proof (cleanUp_loop_eviction_frame filepath_Join
                (S (length (w_df (world s2)))) s2) as (Hsub & _).
  pose proof (cleanUp_loop_frame filepath_Join
                (S (length (w_df (world s2)))) s2) as (Hc3 & Hf3 & _).
  pose proof (cleanUp_loop_handles_ok filepath_Join
                (S (length (w_df (world s2)))) s2) as Hok3.
  unfold cleanUpOnLowDiskSpace in Hr3. rewrite Hr3 in Hsub, Hc3, Hf3, Hok3.
  cbn [state_of] in Hsub, Hc3, Hf3, Hok3.
  destruct Hc3 as (Hi3 & Hcf3 & Hip3 & Hpp3 & Hmu3).
  assert (mu (thr s3) = {| readers := 0; writer := true |}) as Hm3.
  { rewrite Hmu3, Hmu2. reflexivity. }
  unfold mu_Unlock, RWMutex_Unlock. rewrite Hm3. cbn [writer readers].
  eexists. split; [reflexivity|]. split_and!.
  - unfold same_config. cbn. rewrite Hi3, Hcf3, Hip3, Hpp3, Hi2, Hcf2, Hip2, Hpp2.
    cbn. auto.
  - intros Hok. apply (handles_ok_frame s3); [reflexivity..|].
    apply Hok3, Hok2. apply (handles_ok_frame s); [reflexivity..|exact Hok].
  - cbn. etrans; [apply subseteq_dom; exact Hsub|]. rewrite Hd2. cbn.
    apply union_mono_l. intros n Hn. apply elem_of_list_to_set in Hn.
    apply elem_of_newly_tracked in Hn as (Hn & _).
    apply elem_of_list_to_set. exact Hn.
  - rewrite FileLastSeen_free by reflexivity. cbn. f_equal.
    rewrite Hf3.
    destruct (newly_tracked filepath_Join s
                (disk_candidates BlockfilePathFromIndexPath s)) eqn:E.
    + rewrite (Hz eq_refl). reflexivity.
    + rewrite Hnz by discriminate. reflexivity.
Qed.

Lemma SyncFiles_returns_and_releases_witness :
  ∃ s',
    SyncFiles join same_name discover_X_and_broken_Y = Ret tt s' ∧
    same_config (thr discover_X_and_broken_Y) (thr s') ∧
    (handles_ok discover_X_and_broken_Y → handles_ok s') ∧
    dom (files (thr s')) ⊆
      dom (files (thr discover_X_and_broken_Y))
      ∪ list_to_set (disk_candidates same_name discover_X_and_broken_Y) ∧
    FileLastSeen s' =
      Ret match newly_tracked join discover_X_and_broken_Y
                  (disk_candidates same_name discover_X_and_broken_Y) with
          | [] => fileLastSeen (thr discover_X_and_broken_Y)
          | _ :: _ => w_now (world discover_X_and_broken_Y)
          end s'.
Proof.
  apply (SyncFiles_returns_and_releases join same_name
           discover_X_and_broken_Y).
  - reflexivity.
  - vm_compute. repeat constructor; discriminate.
  - cbn. lia.
Defined.

(** X14. [SyncFiles] waits exactly when the lock is not free: with a read
    hold or the write hold out the call does not get past [Lock] and
    changes nothing, and with the lock free it never ends waiting.  It
    never gives the lock back without having taken it: a call that
    returns found the lock free. *)
Theorem SyncFiles_waits_iff_lock_held
    (filepath_Join : string → string → string)
    (BlockfilePathFromIndexPath : string → string) (s : State) :
  let o := SyncFiles filepath_Join BlockfilePathFromIndexPath s in
  (mu (thr s) ≠ {| readers := 0; writer := false |} → o = Blocked s) ∧
  (mu (thr s) = {| readers := 0; writer := false |} →
   ∀ s', o ≠ Blocked s') ∧
  (returned o = true → mu (thr s) = {| readers := 0; writer := false |}).
Proof.
  cbn zeta.
  assert (mu (thr s) ≠ {| readers := 0; writer := false |} →
          RWMutex_Lock (mu (thr s)) = None) as Hheld.
  { destruct (mu (thr s)) as [[|n] [|]]; cbn; intros H; try reflexivity.
    contradiction. }
  split_and!.
  - intros H. apply SyncFiles_locked_blocks, Hheld, H.
  - intros Hmu s'. rewrite SyncFiles_unfold, Hmu.
    cbn [RWMutex_Lock writer readers].
    set (s1 := with_mu _ s).
    assert (Decision (disk_well_named s1)) as [Hwn|Hwn].
    { unfold disk_well_named. destruct (w_ReadDir _ _); apply _. }
    + destruct (syncFilesWithDisk_spec filepath_Join
                  BlockfilePathFromIndexPath s1 Hwn) as (s2 & -> & _).
      pose proof (cleanUpOnLowDiskSpace_outcome filepath_Join s2) as Ho.
      destruct (cleanUpOnLowDiskSpace filepath_Join s2) as [[] s3|s3|s3|s3];
        try discriminate; try contradiction.
      unfold mu_Unlock. destruct (RWMutex_Unlock _); discriminate.
    + unfold syncFilesWithDisk, bind.
      rewrite listPacketFilesOnDisk_not_well_named by exact Hwn. discriminate.
  - rewrite SyncFiles_unfold.
    destruct (mu (thr s)) as [[|n] [|]];
      cbn [RWMutex_Lock writer readers returned];
      intros Hret; try discriminate Hret; reflexivity.
Qed.

(** ** The debug handlers *)

Module DebugHandlersFacts.
Import Debug DebugHandlers.

Lemma hex_ok_nil : hex_ok "".
Proof. split; [exists 0%nat; reflexivity|constructor]. Qed.

Lemma hex_ok_one c : ¬ hex_ok (String c "").
Proof. intros [[k Hk] _]. cbn in Hk. lia. Qed.

Lemma hex_ok_pair c1 c2 s :
  hex_ok (String c1 (String c2 s)) ↔
  is_Some (fromHexChar c1) ∧ is_Some (fromHexChar c2) ∧ hex_ok s.
Proof.
  unfold hex_ok. cbn [String.length list_ascii_of_string].
  rewrite !Forall_cons.
  assert (Nat.Even (S (S (String.length s))) ↔ Nat.Even (String.length s))
    as ->.
  { split; intros [k Hk]; [exists (k - 1)%nat|exists (S k)]; lia. }
  tauto.
Qed.

(** [hex.DecodeString] succeeds exactly on the strings of an even number
    of hexadecimal digits. *)
Lemma hex_DecodeString_Some_iff (s : string) :
  is_Some (hex_DecodeString s) ↔ hex_ok s.
Proof.
  assert (∀ n s, (String.length s < n)%nat →
                 (is_Some (hex_DecodeString s) ↔ hex_ok s)) as H.
  { clear s. induction n as [|n IH]; intros s Hlen; [lia|].
    destruct s as [|c1 [|c2 s]].
    - split; [intros _; apply hex_ok_nil|intros _; eexists; reflexivity].
    - split; [intros [? H]; discriminate H|intros H; destruct (hex_ok_one _ H)].
    - cbn [String.length] in Hlen. rewrite hex_ok_pair.
      rewrite <- (IH s) by lia. cbn [hex_DecodeString].
      destruct (fromHexChar c1), (fromHexChar c2), (hex_DecodeString s);
        split; try (intros [? H]; discriminate H);
        try (intros ([? H1] & [? H2] & [? H3]); discriminate);
        eauto. }
  apply (H (S (String.length s))). lia.
Qed.

Lemma hex_EncodeToString_nil_inv l : hex_EncodeToString l = "" → l = [].
Proof. destruct l; [reflexivity|discriminate]. Qed.

End DebugHandlersFacts.

(** X15. The bounds of an index dump travel as hexadecimal text without
    loss: for a tracked file and any two byte strings, the index handler
    called with their hexadecimal encodings answers 200 with the dump the
    blockfile produces for exactly these two byte strings (the empty byte
    string travelling as the absent parameter). *)
Theorem index_handler_bounds_round_trip
    (bf_DumpIndex : BlockFile → list Z → list Z → string)
    (t : Thread) (name : string) (file : BlockFile)
    (start finish : list Z) :
  files t !! name = Some file →
  Forall (fun x => 0 ≤ x < 256) start →
  Forall (fun x => 0 ≤ x < 256) finish →
  DebugHandlers.index_handler bf_DumpIndex t name
    (Debug.hex_EncodeToString start) (Debug.hex_EncodeToString finish) =
  {| Debug.status := 200; Debug.content_type := "text/plain";
     Debug.body := bf_DumpIndex file start finish |}.
Proof.
  intros Hf Hs Hfi. unfold DebugHandlers.index_handler. rewrite Hf.
  assert (∀ l, Forall (fun x => 0 ≤ x < 256) l →
               (if decide (Debug.hex_EncodeToString l = "") then Some []
                else Debug.hex_DecodeString (Debug.hex_EncodeToString l))
               = Some l) as Hrt.
  { intros l Hl. destruct (decide _) as [He|_].
    - apply DebugHandlersFacts.hex_EncodeToString_nil_inv in He. congruence.
    - apply DebugFacts.hex_round_trip. exact Hl. }
  rewrite !Hrt by assumption. reflexivity.
Qed.

Lemma index_handler_bounds_round_trip_witness :
  DebugHandlers.index_handler
    (fun _ st fi => Debug.hex_EncodeToString (st ++ fi))
    (thread0 tracked_ABC 10) "A"
    (Debug.hex_EncodeToString [10; 0; 0; 1])
    (Debug.hex_EncodeToString []) =
  {| Debug.status := 200; Debug.content_type := "text/plain";
     Debug.body := Debug.hex_EncodeToString ([10; 0; 0; 1] ++ []) |}.
Proof.
  apply (index_handler_bounds_round_trip
           (fun _ st fi => Debug.hex_EncodeToString (st ++ fi))
           (thread0 tracked_ABC 10) "A" (handle "A" 0) [10; 0; 0; 1] []).
  - reflexivity.
  - repeat constructor; lia.
  - constructor.
Defined.

(** X16. The answers of the index handler, by precedence: 404 exactly when
    the name is not tracked; otherwise "bad start" (400) exactly when the
    start parameter is not an even number of hexadecimal digits;
    otherwise "bad finish" (400) exactly when the finish parameter is not;
    otherwise 200.  A malformed start hides a malformed finish, and an
    untracked name hides both. *)
Theorem index_handler_answers
    (bf_DumpIndex : BlockFile → list Z → list Z → string)
    (t : Thread) (name start finish : string) :
  let r := DebugHandlers.index_handler bf_DumpIndex t name start finish in
  (Debug.status r = 404 ↔ files t !! name = None) ∧
  (r = Debug.http_Error "bad start" 400 ↔
   is_Some (files t !! name) ∧ ¬ DebugHandlers.hex_ok start) ∧
  (r = Debug.http_Error "bad finish" 400 ↔
   is_Some (files t !! name) ∧ DebugHandlers.hex_ok start
   ∧ ¬ DebugHandlers.hex_ok finish) ∧
  (Debug.status r = 200 ↔
   is_Some (files t !! name) ∧ DebugHandlers.hex_ok start
   ∧ DebugHandlers.hex_ok finish).
Proof.
  cbn zeta. unfold DebugHandlers.index_handler.
  assert (∀ s, is_Some (if decide (s = "") then Some []
                        else Debug.hex_DecodeString s)
               ↔ DebugHandlers.hex_ok s) as Hp.
  { intros s. destruct (decide (s = "")) as [->|_].
    - split; [intros _; apply DebugHandlersFacts.hex_ok_nil|eauto].
    - apply DebugHandlersFacts.hex_DecodeString_Some_iff. }
  pose proof (Hp start) as Hs. pose proof (Hp finish) as Hf.
  destruct (files t !! name) as [file|].
  2:{ split_and!; (split; [try discriminate; try tauto|]);
        try tauto; intros H; destruct H as [[? H] _]; discriminate H. }
  assert (is_Some (Some file)) as Htr by eauto.
  destruct (if decide (start = "") then Some [] else Debug.hex_DecodeString start)
    as [st|].
  2:{ assert (¬ DebugHandlers.hex_ok start) as Hns.
      { intros Hok. apply Hs in Hok as [? H]. discriminate H. }
      split_and!; (split; [try discriminate; try tauto|]);
        try tauto; try discriminate. }
  assert (DebugHandlers.hex_ok start) as Hoks by (apply Hs; eauto).
  destruct (if decide (finish = "") then Some [] else Debug.hex_DecodeString finish)
    as [fi|].
  2:{ assert (¬ DebugHandlers.hex_ok finish) as Hnf.
      { intros Hok. apply Hf in Hok as [? H]. discriminate H. }
      split_and!; (split; [try discriminate; try tauto|]);
        try tauto; try discriminate. }
  assert (DebugHandlers.hex_ok finish) as Hokf by (apply Hf; eauto).
  split_and!; (split; [try discriminate; try tauto|]);
    try tauto; try discriminate.
Qed.

(** X17. The statuses of the packets and positions handlers: both answer
    404 exactly when the name is not tracked, the packets handler answers
    200 otherwise, and the positions handler answers 400 exactly when the
    name is tracked and the request body cannot be read or does not parse
    as a query.  A position query the blockfile fails on is still
    answered with status 200, the failure being reported in the body. *)
Theorem packets_and_positions_statuses
    (Packets Query : Type) (bf_AllPackets : BlockFile → Packets)
    (base_PacketsToFile : Packets → string)
    (query_NewQuery : string → Query + string)
    (bf_Positions : BlockFile → Query → list Z + string)
    (IsAllPositions : list Z → bool)
    (t : Thread) (name : string) (req_body : string + string) :
  let pk := DebugHandlers.packets_handler Packets bf_AllPackets
              base_PacketsToFile t name in
  let ps := Debug.positions_handler Query query_NewQuery bf_Positions
              IsAllPositions t name req_body in
  (Debug.status pk = 404 ↔ files t !! name = None) ∧
  (Debug.status pk = 200 ↔ is_Some (files t !! name)) ∧
  (Debug.status ps = 404 ↔ files t !! name = None) ∧
  (Debug.status ps = 400 ↔
   is_Some (files t !! name) ∧
   match req_body with
   | inr _ => True
   | inl queryStr => ∃ e, query_NewQuery queryStr = inr e
   end) ∧
  (∀ file queryStr q err,
     files t !! name = Some file → req_body = inl queryStr →
     query_NewQuery queryStr = inl q → bf_Positions file q = inr err →
     ps = {| Debug.status := 200; Debug.content_type := "text/plain";
             Debug.body := "ERROR: " +:+ err |}).
Proof.
  cbn zeta. unfold DebugHandlers.packets_handler, Debug.positions_handler.
  destruct (files t !! name) as [file|] eqn:Hf; cbn.
  2:{ split_and!; try tauto; try (split; [discriminate|]).
      - intros [? H]. discriminate H.
      - intros [[? H] _]. discriminate H.
      - intros. discriminate. }
  split_and!.
  - split; discriminate.
  - split; eauto.
  - destruct req_body as [queryStr|e]; [|split; discriminate].
    destruct (query_NewQuery queryStr) as [q|e]; [|split; discriminate].
    destruct (bf_Positions file q); split; discriminate.
  - destruct req_body as [queryStr|e]; [|cbn; split; eauto].
    destruct (query_NewQuery queryStr) as [q|e]; [|cbn; split; eauto].
    destruct (bf_Positions file q); cbn;
      (split; [discriminate|intros (_ & ? & H); discriminate H]).
  - intros file' queryStr q err Hfile -> Hq Hp. injection Hfile as <-.
    rewrite Hq, Hp. reflexivity.
Qed.

(** X18. What a position line can carry: every line reads back as the
    position modulo 2^32, so it reads back as the position itself exactly
    when the position fits four bytes, and two positions are written as
    the same line exactly when they agree modulo 2^32. *)
Theorem position_line_truncates (pos pos' : Z) :
  let line p := Debug.hex_EncodeToString (Debug.PutUint32 (Debug.uint32 p)) in
  Debug.decode_offset (line pos) = Some (pos mod 2 ^ 32) ∧
  (Debug.decode_offset (line pos) = Some pos ↔ 0 ≤ pos < 2 ^ 32) ∧
  (line pos = line pos' ↔ pos mod 2 ^ 32 = pos' mod 2 ^ 32).
Proof.
  cbn zeta. split_and!.
  - apply DebugFacts.decode_offset_encode.
  - rewrite DebugFacts.decode_offset_encode. unfold Debug.uint32. split.
    + intros H. injection H as H. rewrite <- H. apply Z.mod_pos_bound. lia.
    + intros H. rewrite Z.mod_small by exact H. reflexivity.
  - split.
    + intros H. apply (f_equal Debug.decode_offset) in H.
      rewrite !DebugFacts.decode_offset_encode in H. injection H as H. exact H.
    + unfold Debug.uint32. intros ->. reflexivity.
Qed.

(** ** Lookup without and with cancellation *)

Section LookupOutputFacts.

Variable Packet : Type.
Variable Query : Type.
Variable bf_Lookup : BlockFile -> Query -> list Packet.

Lemma Lookup_fanout_Background_tracked t q names :
  (∀ f, f ∈ names → is_Some (files t !! f)) →
  option_map (fun streams => concat streams)
    (Lookup_fanout Packet Query bf_Lookup t Background q names) =
  Some (flat_map (fun f => match files t !! f with
                           | Some b => map (fun p => (f, p)) (bf_Lookup b q)
                           | None => []
                           end) names).
Proof.
  induction names as [|f rest IH]; intros Htr; [reflexivity|].
  destruct (Htr f) as [b Hb]; [left|].
  cbn [Lookup_fanout flat_map]. rewrite Hb.
  specialize (IH (fun g Hg => Htr g (list_elem_of_further _ _ _ Hg))).
  destruct (Lookup_fanout Packet Query bf_Lookup t Background q rest)
    as [streams|]; [|discriminate IH].
  cbn in IH |- *. injection IH as ->. reflexivity.
Qed.

Lemma sublist_map {A B} (f : A → B) (l1 l2 : list A) :
  l1 `sublist_of` l2 → map f l1 `sublist_of` map f l2.
Proof.
  induction 1; cbn; [constructor|constructor; assumption|].
  apply sublist_cons. assumption.
Qed.

Lemma Lookup_fanout_sublist t ctx q names : ∀ limit,
  (∀ f, f ∈ names → is_Some (files t !! f)) →
  ∃ st full,
    Lookup_fanout Packet Query bf_Lookup t ctx q (cut limit names) = Some st ∧
    Lookup_fanout Packet Query bf_Lookup t Background q names = Some full ∧
    concat st `sublist_of` concat full.
Proof.
  induction names as [|f rest IH]; intros limit Htr.
  { exists [], []. destruct limit as [[|k]|]; cbn; auto using sublist_nil_l. }
  destruct (Htr f) as [b Hb]; [left|].
  assert (∀ g, g ∈ rest → is_Some (files t !! g)) as Hrest.
  { intros g Hg. apply Htr. right. exact Hg. }
  destruct limit as [[|k]|].
  - destruct (IH None Hrest) as (_ & full & _ & Hfull & _).
    cbn. rewrite Hb, Hfull. cbn. eexists [], _.
    split_and!; [reflexivity..|apply sublist_nil_l].
  - destruct (IH (Some k) Hrest) as (st & full & Hst & Hfull & Hsub).
    cbn in Hst |- *. rewrite Hb, Hst, Hfull. cbn.
    eexists _, _. split_and!; [reflexivity..|].
    apply sublist_app; [|exact Hsub]. apply sublist_map.
    destruct (file_limit ctx f); cbn; [apply sublist_take|reflexivity].
  - destruct (IH None Hrest) as (st & full & Hst & Hfull & Hsub).
    cbn in Hst |- *. rewrite Hb, Hst, Hfull. cbn.
    eexists _, _. split_and!; [reflexivity..|].
    apply sublist_app; [|exact Hsub]. apply sublist_map.
    destruct (file_limit ctx f); cbn; [apply sublist_take|reflexivity].
Qed.

End LookupOutputFacts.

(** X19. Without cancellation nothing is lost: [Lookup] under a context
    that is never cancelled delivers, file after file in ascending name
    order, every packet the per-file query of every tracked file
    produces, each in its file's own order, and nothing else (the
    concatenation of the channels being the one of package [base] as the
    specification describes it). *)
Theorem lookup_uncancelled_is_complete
    (Packet Query : Type) (bf_Lookup : BlockFile → Query → list Packet)
    (t : Thread) (q : Query) :
  Lookup Packet Query bf_Lookup t Background q =
    Some (flat_map (fun f => match files t !! f with
                             | Some b => map (fun p => (f, p)) (bf_Lookup b q)
                             | None => []
                             end) (getSortedFiles t)) ∧
  (∀ f b p, files t !! f = Some b → p ∈ bf_Lookup b q →
            ∃ out, Lookup Packet Query bf_Lookup t Background q = Some out ∧
                   (f, p) ∈ out).
Proof.
  assert (Lookup Packet Query bf_Lookup t Background q =
    Some (flat_map (fun f => match files t !! f with
                             | Some b => map (fun p => (f, p)) (bf_Lookup b q)
                             | None => []
                             end) (getSortedFiles t))) as Heq.
  { unfold Lookup. cbn [cut fanout_limit Background].
    rewrite <- (Lookup_fanout_Background_tracked Packet Query bf_Lookup t q).
    - destruct (Lookup_fanout _ _ _ _ _ _ _); reflexivity.
    - intros f Hf. apply elem_of_getSortedFiles. exact Hf. }
  split; [exact Heq|].
  intros f b p Hb Hp. eexists. split; [exact Heq|].
  apply list_elem_of_In, in_flat_map. exists f. split.
  - apply list_elem_of_In, elem_of_getSortedFiles. eauto.
  - rewrite Hb. apply list_elem_of_In, list_elem_of_fmap. eauto.
Qed.

(** X20. Cancellation only loses packets: under any context [Lookup]
    returns a stream, and that stream is a subsequence of the stream the
    same call delivers when it is never cancelled; cancelling admits
    fewer files, shortens per-file streams or cuts the merged stream, but
    neither adds a packet nor swaps two. *)
Theorem lookup_cancellation_only_loses
    (Packet Query : Type) (bf_Lookup : BlockFile → Query → list Packet)
    (t : Thread) (ctx : Context) (q : Query) :
  ∃ out full,
    Lookup Packet Query bf_Lookup t ctx q = Some out ∧
    Lookup Packet Query bf_Lookup t Background q = Some full ∧
    out `sublist_of` full.
Proof.
  unfold Lookup.
  destruct (Lookup_fanout_sublist Packet Query bf_Lookup t ctx q
              (getSortedFiles t) (fanout_limit ctx))
    as (st & full & Hst & Hfull & Hsub).
  { intros f Hf. apply elem_of_getSortedFiles. exact Hf. }
  cbn [cut fanout_limit Background]. rewrite Hst, Hfull. cbn.
  eexists _, _. split_and!; [reflexivity..|].
  unfold ConcatPacketChans. cbn [out_limit Background cut].
  destruct (out_limit ctx) as [k|]; cbn; [|exact Hsub].
  etrans; [apply sublist_take|exact Hsub].
Qed.

(** ** The mutex in the reachable states *)

(** X21. The mutex accounts for the calls in every state the thread can
    reach: its reader count is the number of [Lookup]s that have not
    given their hold back, at most one [SyncFiles] is between [Lock] and
    [Unlock], the writer flag is set exactly when one is, and then no
    [Lookup] holds the lock; and every tracked handle is open, tracked
    under one name only, and was handed out by [NewBlockFile]. *)
Theorem reachable_lock_accounting
    (filepath_Join : string → string → string)
    (BlockfilePathFromIndexPath : string → string) (sys : Conc.System) :
  Conc.reachable filepath_Join BlockfilePathFromIndexPath sys →
  let m := mu (thr (Conc.sys_state sys)) in
  readers m = Conc.read_holds (Conc.sys_lookups sys) ∧
  (Conc.write_holds (Conc.sys_syncs sys) ≤ 1)%nat ∧
  (writer m = true ↔ Conc.write_holds (Conc.sys_syncs sys) = 1%nat) ∧
  (writer m = true →
   ∀ l, l ∈ Conc.sys_lookups sys → Conc.holds_read l = false) ∧
  handles_ok (Conc.sys_state sys).
Proof.
  intros Hreach. cbn zeta.
  destruct (ConcFacts.reachable_Inv _ _ _ Hreach) as ((Hr & Hw & Hx) & Hok & _).
  split_and!; [exact Hr| | | |exact Hok].
  - rewrite Hw. destruct (writer _); lia.
  - rewrite Hw. destruct (writer _); split; intros H; try reflexivity;
      try discriminate H; lia.
  - intros Hwr l Hl. apply (ConcFacts.read_holds_zero _ _ (eq_trans (eq_sym Hr) (Hx Hwr)) Hl).
Qed.

Lemma reachable_lock_accounting_witness :
  let m := mu (thr (Conc.sys_state one_sync_inside)) in
  readers m = Conc.read_holds (Conc.sys_lookups one_sync_inside) ∧
  (Conc.write_holds (Conc.sys_syncs one_sync_inside) ≤ 1)%nat ∧
  (writer m = true ↔ Conc.write_holds (Conc.sys_syncs one_sync_inside) = 1%nat) ∧
  (writer m = true →
   ∀ l, l ∈ Conc.sys_lookups one_sync_inside → Conc.holds_read l = false) ∧
  handles_ok (Conc.sys_state one_sync_inside).
Proof.
  apply (reachable_lock_accounting join same_name one_sync_inside).
  exact one_sync_inside_reachable.
Defined.

(** X22. The unlocking calls are never fatal: in every state the thread
    can reach, a [SyncFiles] that has arrived at its [Unlock] finds the
    mutex write-locked, and a [Lookup] goroutine that has arrived at its
    [RUnlock] finds a read hold out, so neither call is an unlock of an
    unlocked mutex. *)
Theorem unlocks_are_never_fatal
    (filepath_Join : string → string → string)
    (BlockfilePathFromIndexPath : string → string) (sys : Conc.System) :
  Conc.reachable filepath_Join BlockfilePathFromIndexPath sys →
  let m := mu (thr (Conc.sys_state sys)) in
  (∀ j, Conc.sys_syncs sys !! j = Some Conc.SUnlock →
        RWMutex_Unlock m = Some {| readers := 0; writer := false |}) ∧
  (∀ i l, Conc.sys_lookups sys !! i = Some l → Conc.l_pc l = Conc.LRUnlock →
          ∃ n, readers m = S n ∧
               RWMutex_RUnlock m = Some {| readers := n; writer := false |}).
Proof.
  intros Hreach. cbn zeta.
  destruct (ConcFacts.reachable_Inv _ _ _ Hreach) as (Hlock & _).
  split.
  - intros j Hj.
    destruct (ConcFacts.writer_inside _ _ _ j _ Hlock Hj eq_refl) as [Hw _].
    destruct Hlock as (_ & _ & Hx). specialize (Hx Hw).
    unfold RWMutex_Unlock. rewrite Hw, Hx. reflexivity.
  - intros i l Hi Hpc.
    assert (Conc.holds_read l = true) as Hh.
    { unfold Conc.holds_read. rewrite Hpc. reflexivity. }
    apply list_elem_of_lookup_2 in Hi.
    pose proof (ConcFacts.read_holds_pos _ _ Hi Hh) as Hpos.
    destruct Hlock as (Hr & Hwh & Hx).
    destruct (writer (mu (thr (Conc.sys_state sys)))) eqn:Hw.
    { specialize (Hx eq_refl). lia. }
    unfold RWMutex_RUnlock. rewrite Hw.
    destruct (readers (mu (thr (Conc.sys_state sys)))) as [|n]; [lia|].
    exists n. auto.
Qed.

Lemma unlocks_are_never_fatal_witness :
  RWMutex_Unlock (mu (thr (Conc.sys_state one_sync_before_unlock))) =
  Some {| readers := 0; writer := false |}.
Proof.
  exact (proj1 (unlocks_are_never_fatal join same_name one_sync_before_unlock
                  one_sync_before_unlock_reachable) 0%nat eq_refl).
Defined.

(** X23. The tracked set changes only under the write hold: whenever a
    step from a reachable state changes the tracked set or closes a
    handle, the step belongs to a [SyncFiles] between [Lock] and
    [Unlock]; the writer flag is set, the reader count is zero and no
    [Lookup] holds the lock. *)
Theorem tracked_set_changes_only_under_write_hold
    (filepath_Join : string → string → string)
    (BlockfilePathFromIndexPath : string → string)
    (sys sys' : Conc.System) :
  Conc.reachable filepath_Join BlockfilePathFromIndexPath sys →
  Conc.step filepath_Join BlockfilePathFromIndexPath sys sys' →
  files (thr (Conc.sys_state sys')) ≠ files (thr (Conc.sys_state sys))
  ∨ w_closed (world (Conc.sys_state sys'))
    ≠ w_closed (world (Conc.sys_state sys)) →
  writer (mu (thr (Conc.sys_state sys))) = true ∧
  readers (mu (thr (Conc.sys_state sys))) = 0%nat ∧
  (∀ l, l ∈ Conc.sys_lookups sys → Conc.holds_read l = false) ∧
  Conc.sys_lookups sys' = Conc.sys_lookups sys.
Proof.
  intros Hreach Hstep Hch.
  destruct (ConcFacts.reachable_Inv _ _ _ Hreach) as (Hlock & _).
  assert (∀ j y, Conc.sys_syncs sys !! j = Some y → Conc.holds_write y = true →
                 writer (mu (thr (Conc.sys_state sys))) = true ∧
                 readers (mu (thr (Conc.sys_state sys))) = 0%nat ∧
                 (∀ l, l ∈ Conc.sys_lookups sys → Conc.holds_read l = false))
    as Hin.
  { intros j y Hj Hy.
    destruct (ConcFacts.writer_inside _ _ _ j y Hlock Hj Hy) as [Hw Hl].
    destruct Hlock as (_ & _ & Hx). auto. }
  inversion Hstep; subst; cbn in *;
    try (destruct Hch as [Hch|Hch]; exfalso; apply Hch; reflexivity).
  - destruct (Hin j _ ltac:(eassumption) eq_refl) as (? & ? & ?). auto.
  - destruct (Hin j _ ltac:(eassumption) eq_refl) as (? & ? & ?). auto.
  - match goal with H : Conc.same_program_side _ _ |- _ =>
      destruct H as (_ & Hc & _) end.
    destruct Hch as [Hch|Hch]; exfalso; apply Hch; [reflexivity|exact Hc].
Qed.

Lemma tracked_set_changes_only_under_write_hold_witness :
  writer (mu (thr (Conc.sys_state one_sync_inside))) = true ∧
  readers (mu (thr (Conc.sys_state one_sync_inside))) = 0%nat ∧
  (∀ l, l ∈ Conc.sys_lookups one_sync_inside → Conc.holds_read l = false) ∧
  [] = Conc.sys_lookups one_sync_inside.
Proof.
  apply (tracked_set_changes_only_under_write_hold join same_name
           one_sync_inside
           {| Conc.sys_state :=
                exec (syncFilesWithDisk join same_name)
                  (Conc.sys_state one_sync_inside);
              Conc.sys_lookups := []; Conc.sys_syncs := [Conc.SCleanUp] |}).
  - exact one_sync_inside_reachable.
  - apply (Conc.step_SyncFiles_discover join same_name
             (Conc.sys_state one_sync_inside) [] [Conc.SDiscover] 0);
      reflexivity.
  - left. vm_compute. intros H. discriminate H.
Defined.

(** ** Building the threads *)

Module SetupFacts.
Import Setup.

Lemma symlinks_app tr1 tr2 : symlinks (tr1 ++ tr2) = symlinks tr1 ++ symlinks tr2.
Proof. apply omap_app. Qed.

Lemma makeDirIfNecessary_cases (N : error → bool) dir fs :
  same_answers fs (makeDirIfNecessary N dir fs).2 ∧
  ∃ tr,
    fs_trace (makeDirIfNecessary N dir fs).2 = fs_trace fs ++ tr ∧
    symlinks tr = [] ∧
    (∀ d p r, EvMkdirAll d p r ∈ tr →
       d = dir ∧ p = 448 ∧
       ∃ err, EvStat d (inr err) ∈ tr ∧ N err = true).
Proof.
  unfold makeDirIfNecessary, os_Stat, os_MkdirAll, same_answers. cbn.
  destruct (fs_Stat fs (fs_trace fs) dir) as [stat|err] eqn:Hst.
  - destruct (IsDir stat); cbn; (split; [auto|]);
      (eexists [_]; split; [reflexivity|]; split; [reflexivity|]);
      intros d p r Hin; apply list_elem_of_singleton in Hin; discriminate Hin.
  - destruct (N err) eqn:Hn; cbn.
    + destruct (fs_MkdirAll fs _ dir); cbn; (split; [auto|]);
        (eexists [_; _]; split; [rewrite <- app_assoc; reflexivity|];
         split; [reflexivity|]);
        intros d p r Hin;
        apply elem_of_cons in Hin as [Heq|Hin]; try discriminate Heq;
        apply list_elem_of_singleton in Hin; injection Hin as -> -> ->;
        (split_and!; [reflexivity..|]); exists err; (split; [left|exact Hn]).
    + split; [auto|].
      eexists [_]; split; [reflexivity|]; split; [reflexivity|].
      intros d p r Hin. apply list_elem_of_singleton in Hin. discriminate Hin.
Qed.


Lemma same_answers_refl fs : same_answers fs fs.
Proof. unfold same_answers. auto. Qed.

Lemma same_answers_trans fs1 fs2 fs3 :
  same_answers fs1 fs2 → same_answers fs2 fs3 → same_answers fs1 fs3.
Proof.
  unfold same_answers. intros (?&?&?&?) (?&?&?&?). split_and!; congruence.
Qed.

Lemma same_answers_record e fs : same_answers fs (record e fs).
Proof. unfold same_answers. auto. Qed.

(** [createSymlinks], stage by stage. *)
Lemma createSymlinks_cases (N : error → bool) t fs :
  same_answers fs (createSymlinks N t fs).2 ∧
  ∃ tr,
    fs_trace (createSymlinks N t fs).2 = fs_trace fs ++ tr ∧
    (∀ d p r, EvMkdirAll d p r ∈ tr →
       (d = PacketsDirectory (conf t) ∨ d = IndexDirectory (conf t)) ∧
       p = 448 ∧ ∃ err, EvStat d (inr err) ∈ tr ∧ N err = true) ∧
    match (createSymlinks N t fs).1 with
    | None => symlinks tr = links_of t
    | Some (ErrPacketDirectory i _) => i = id t ∧ symlinks tr = []
    | Some (ErrPacketSymlink i d err) =>
        i = id t ∧ d = PacketsDirectory (conf t) ∧
        symlinks tr = [(PacketsDirectory (conf t), packetPath t, Some err)]
    | Some (ErrIndexDirectory i _) =>
        i = id t ∧
        symlinks tr = [(PacketsDirectory (conf t), packetPath t, None)]
    | Some (ErrIndexSymlink i d err) =>
        i = id t ∧ d = IndexDirectory (conf t) ∧
        symlinks tr = [(PacketsDirectory (conf t), packetPath t, None);
                       (IndexDirectory (conf t), indexPath t, Some err)]
    end.
Proof.
  unfold createSymlinks.
  destruct (makeDirIfNecessary_cases N (PacketsDirectory (conf t)) fs)
    as (Ha1 & tr1 & Ht1 & Hs1 & Hm1).
  destruct (makeDirIfNecessary N (PacketsDirectory (conf t)) fs) as [e1 fs1].
  cbn [fst snd] in *.
  destruct e1 as [err1|].
  { cbn. split; [exact Ha1|]. exists tr1. split_and!; auto.
    intros d p r Hin. destruct (Hm1 d p r Hin) as (-> & -> & Herr). auto. }
  unfold os_Symlink.
  set (r2 := fs_Symlink fs1 (fs_trace fs1) _ _).
  set (fs2 := record (EvSymlink _ _ r2) fs1). cbn zeta.
  assert (same_answers fs fs2) as Ha2.
  { eapply same_answers_trans; [exact Ha1|apply same_answers_record]. }
  assert (∀ tr' d p r, EvMkdirAll d p r ∈ tr1 ++ tr' →
            (∀ d p r, EvMkdirAll d p r ∈ tr' →
               d = IndexDirectory (conf t) ∧ p = 448 ∧
               ∃ err, EvStat d (inr err) ∈ tr' ∧ N err = true) →
            (d = PacketsDirectory (conf t) ∨ d = IndexDirectory (conf t)) ∧
            p = 448 ∧ ∃ err, EvStat d (inr err) ∈ tr1 ++ tr' ∧ N err = true)
    as Hmk.
  { intros tr' d p r Hin Hm'. apply elem_of_app in Hin as [Hin|Hin].
    - destruct (Hm1 d p r Hin) as (-> & -> & err & He & Hn).
      split_and!; auto. exists err. split; [|exact Hn].
      apply elem_of_app. auto.
    - destruct (Hm' d p r Hin) as (-> & -> & err & He & Hn).
      split_and!; auto. exists err. split; [|exact Hn].
      apply elem_of_app. auto. }
  destruct r2 as [err2|] eqn:Hr2.
  { cbn. split; [exact Ha2|].
    exists (tr1 ++ [EvSymlink (PacketsDirectory (conf t)) (packetPath t) (Some err2)]).
    rewrite Ht1, <- app_assoc. split; [reflexivity|]. split.
    - intros d p r Hin. apply (Hmk _ d p r Hin).
      intros d' p' r' Hin'. apply list_elem_of_singleton in Hin'.
      discriminate Hin'.
    - rewrite symlinks_app, Hs1. auto. }
  destruct (makeDirIfNecessary_cases N (IndexDirectory (conf t)) fs2)
    as (Ha3 & tr3 & Ht3 & Hs3 & Hm3).
  destruct (makeDirIfNecessary N (IndexDirectory (conf t)) fs2) as [e3 fs3].
  cbn [fst snd] in *.
  assert (fs_trace fs3 =
          fs_trace fs ++ tr1
          ++ EvSymlink (PacketsDirectory (conf t)) (packetPath t) None :: tr3)
    as Ht3'.
  { rewrite Ht3. unfold fs2. cbn. rewrite Ht1, <- !app_assoc. reflexivity. }
  assert (∀ tr4 d p r,
            EvMkdirAll d p r ∈
              tr1 ++ EvSymlink (PacketsDirectory (conf t)) (packetPath t) None
                       :: tr3 ++ tr4 →
            (∀ d p r, EvMkdirAll d p r ∈ tr4 → False) →
            (d = PacketsDirectory (conf t) ∨ d = IndexDirectory (conf t)) ∧
            p = 448 ∧
            ∃ err,
              EvStat d (inr err) ∈
                tr1 ++ EvSymlink (PacketsDirectory (conf t)) (packetPath t) None
                         :: tr3 ++ tr4 ∧ N err = true) as Hmk3.
  { intros tr4 d p r Hin H4. apply (Hmk _ d p r Hin).
    intros d' p' r' Hin'. apply elem_of_cons in Hin' as [Heq|Hin'];
      [discriminate Heq|].
    apply elem_of_app in Hin' as [Hin'|Hin']; [|destruct (H4 _ _ _ Hin')].
    destruct (Hm3 d' p' r' Hin') as (-> & -> & err & He & Hn).
    split_and!; auto. exists err. split; [|exact Hn].
    right. apply elem_of_app. auto. }
  destruct e3 as [err3|].
  { cbn. split; [eapply same_answers_trans; eassumption|].
    exists (tr1 ++ EvSymlink (PacketsDirectory (conf t)) (packetPath t) None
                   :: tr3 ++ []).
    rewrite app_nil_r. split; [exact Ht3'|]. split.
    - intros d p r Hin. rewrite <- (app_nil_r tr3) in Hin.
      destruct (Hmk3 [] d p r Hin) as (H1 & H2 & err & He & Hn).
      { intros ? ? ? H. apply elem_of_nil in H. exact H. }
      rewrite app_nil_r in He. eauto.
    - rewrite symlinks_app, Hs1. cbn. unfold symlinks in Hs3. rewrite Hs3. auto. }
  set (r4 := fs_Symlink fs3 (fs_trace fs3) _ _).
  set (fs4 := record (EvSymlink _ _ r4) fs3).
  assert (same_answers fs fs4) as Ha4.
  { eapply same_answers_trans; [|apply same_answers_record].
    eapply same_answers_trans; eassumption. }
  assert (∃ tr, fs_trace fs4 = fs_trace fs ++ tr ∧
                (∀ d p r, EvMkdirAll d p r ∈ tr →
                   (d = PacketsDirectory (conf t) ∨ d = IndexDirectory (conf t)) ∧
                   p = 448 ∧ ∃ err, EvStat d (inr err) ∈ tr ∧ N err = true) ∧
                symlinks tr =
                  [(PacketsDirectory (conf t), packetPath t, None);
                   (IndexDirectory (conf t), indexPath t, r4)])
    as (tr & Htr & Hmk4 & Hs4).
  { exists (tr1 ++ EvSymlink (PacketsDirectory (conf t)) (packetPath t) None
                   :: tr3
                   ++ [EvSymlink (IndexDirectory (conf t)) (indexPath t) r4]).
    split_and!.
    - unfold fs4. cbn. rewrite Ht3', <- !app_assoc. reflexivity.
    - intros d p r Hin. apply (Hmk3 _ d p r Hin).
      intros ? ? ? H. apply list_elem_of_singleton in H. discriminate H.
    - rewrite symlinks_app, Hs1. cbn. rewrite symlinks_app. unfold symlinks in Hs3 |- *.
      rewrite Hs3. reflexivity. }
  destruct r4 as [err4|]; cbn; (split; [exact Ha4|]); exists tr; auto.
Qed.

Lemma answered_all_app fs hist tr1 tr2 :
  answered_all fs hist (tr1 ++ tr2) ↔
  answered_all fs hist tr1 ∧ answered_all fs (hist ++ tr1) tr2.
Proof.
  revert hist. induction tr1 as [|e tr1 IH]; intros hist; cbn.
  { rewrite app_nil_r. tauto. }
  rewrite IH, <- app_assoc. cbn. tauto.
Qed.

Lemma answered_all_same fs fs' hist tr :
  same_answers fs fs' → answered_all fs' hist tr → answered_all fs hist tr.
Proof.
  intros (H1 & H2 & H3 & _). revert hist.
  induction tr as [|e tr IH]; intros hist; cbn; [auto|].
  intros [He Hr]. split; [|apply IH; exact Hr].
  destruct e; cbn in *; congruence.
Qed.

(** One directory stage: the calls made, their answers and the result. *)
Lemma makeDirIfNecessary_stage (N : error → bool) dir fs :
  same_answers fs (makeDirIfNecessary N dir fs).2 ∧
  ∃ tr,
    fs_trace (makeDirIfNecessary N dir fs).2 = fs_trace fs ++ tr ∧
    answered_all fs (fs_trace fs) tr ∧
    dir_stage N dir tr (makeDirIfNecessary N dir fs).1.
Proof.
  unfold makeDirIfNecessary, os_Stat, os_MkdirAll, same_answers. cbn.
  destruct (fs_Stat fs (fs_trace fs) dir) as [stat|err] eqn:Hst.
  - destruct (IsDir stat) eqn:Hd; cbn; (split; [auto|]);
      (eexists [_]; split; [reflexivity|]; split; [cbn; auto|]).
    + apply stage_is_directory. exact Hd.
    + apply stage_not_a_directory. exact Hd.
  - destruct (N err) eqn:Hn; cbn.
    + destruct (fs_MkdirAll fs (fs_trace fs ++ [EvStat dir (inr err)]) dir)
        as [err'|] eqn:Hmk; cbn; (split; [auto|]);
        (eexists [_; _]; split; [rewrite <- app_assoc; reflexivity|];
         split; [cbn; auto|]).
      * apply stage_not_created. exact Hn.
      * apply stage_created. exact Hn.
    + split; [auto|].
      eexists [_]. split; [reflexivity|]. split; [cbn; auto|].
      apply stage_stat_fails. exact Hn.
Qed.

(** [createSymlinks]: the calls of each stage it got to, in order. *)
Lemma createSymlinks_stages (N : error → bool) t fs :
  same_answers fs (createSymlinks N t fs).2 ∧
  ∃ tr,
    fs_trace (createSymlinks N t fs).2 = fs_trace fs ++ tr ∧
    answered_all fs (fs_trace fs) tr ∧
    match (createSymlinks N t fs).1 with
    | Some (ErrPacketDirectory i derr) =>
        i = id t ∧ dir_stage N (PacketsDirectory (conf t)) tr (Some derr)
    | Some (ErrPacketSymlink i d err) =>
        i = id t ∧ d = PacketsDirectory (conf t) ∧
        ∃ tr1,
          dir_stage N (PacketsDirectory (conf t)) tr1 None ∧
          tr = tr1 ++ [EvSymlink (PacketsDirectory (conf t)) (packetPath t)
                         (Some err)]
    | Some (ErrIndexDirectory i derr) =>
        i = id t ∧
        ∃ tr1 tr3,
          dir_stage N (PacketsDirectory (conf t)) tr1 None ∧
          dir_stage N (IndexDirectory (conf t)) tr3 (Some derr) ∧
          tr = tr1 ++ EvSymlink (PacketsDirectory (conf t)) (packetPath t) None
                    :: tr3
    | Some (ErrIndexSymlink i d err) =>
        i = id t ∧ d = IndexDirectory (conf t) ∧
        ∃ tr1 tr3,
          dir_stage N (PacketsDirectory (conf t)) tr1 None ∧
          dir_stage N (IndexDirectory (conf t)) tr3 None ∧
          tr = tr1 ++ EvSymlink (PacketsDirectory (conf t)) (packetPath t) None
                    :: tr3
                    ++ [EvSymlink (IndexDirectory (conf t)) (indexPath t)
                          (Some err)]
    | None =>
        ∃ tr1 tr3,
          dir_stage N (PacketsDirectory (conf t)) tr1 None ∧
          dir_stage N (IndexDirectory (conf t)) tr3 None ∧
          tr = tr1 ++ EvSymlink (PacketsDirectory (conf t)) (packetPath t) None
                    :: tr3
                    ++ [EvSymlink (IndexDirectory (conf t)) (indexPath t) None]
    end.
Proof.
  unfold createSymlinks.
  destruct (makeDirIfNecessary_stage N (PacketsDirectory (conf t)) fs)
    as (Ha1 & tr1 & Ht1 & Han1 & Hd1).
  destruct (makeDirIfNecessary N (PacketsDirectory (conf t)) fs) as [e1 fs1].
  cbn [fst snd] in *.
  destruct e1 as [err1|].
  { cbn. split; [exact Ha1|]. exists tr1. auto. }
  unfold os_Symlink.
  set (ev2 := EvSymlink (PacketsDirectory (conf t)) (packetPath t)
                (fs_Symlink fs1 (fs_trace fs1) (PacketsDirectory (conf t))
                   (packetPath t))).
  set (fs2 := record ev2 fs1). cbn zeta.
  assert (same_answers fs fs2) as Ha2.
  { eapply same_answers_trans; [exact Ha1|apply same_answers_record]. }
  assert (fs_trace fs2 = fs_trace fs ++ tr1 ++ [ev2]) as Ht2.
  { unfold fs2. cbn. rewrite Ht1, <- app_assoc. reflexivity. }
  assert (answered_all fs (fs_trace fs) (tr1 ++ [ev2])) as Han2.
  { apply answered_all_app. split; [exact Han1|]. cbn. split; [|exact I].
    destruct Ha1 as (_ & _ & Hsy & _). rewrite Hsy, Ht1. reflexivity. }
  destruct (fs_Symlink fs1 (fs_trace fs1) (PacketsDirectory (conf t))
              (packetPath t)) as [err2|] eqn:Hr2.
  { cbn. split; [exact Ha2|]. exists (tr1 ++ [ev2]).
    split; [exact Ht2|]. split; [exact Han2|]. split_and!; auto.
    exists tr1. auto. }
  destruct (makeDirIfNecessary_stage N (IndexDirectory (conf t)) fs2)
    as (Ha3 & tr3 & Ht3 & Han3 & Hd3).
  destruct (makeDirIfNecessary N (IndexDirectory (conf t)) fs2) as [e3 fs3].
  cbn [fst snd] in *.
  assert (same_answers fs fs3) as Ha3'.
  { eapply same_answers_trans; eassumption. }
  assert (fs_trace fs3 = fs_trace fs ++ tr1 ++ ev2 :: tr3) as Ht3'.
  { rewrite Ht3, Ht2, <- !app_assoc. reflexivity. }
  assert (answered_all fs (fs_trace fs) (tr1 ++ ev2 :: tr3)) as Han3'.
  { rewrite cons_middle, app_assoc. apply answered_all_app.
    split; [exact Han2|]. rewrite <- Ht2.
    apply (answered_all_same fs fs2); [exact Ha2|exact Han3]. }
  destruct e3 as [err3|].
  { cbn. split; [exact Ha3'|]. exists (tr1 ++ ev2 :: tr3).
    split; [exact Ht3'|]. split; [exact Han3'|]. split; [reflexivity|].
    exists tr1, tr3. auto. }
  set (ev4 := EvSymlink (IndexDirectory (conf t)) (indexPath t)
                (fs_Symlink fs3 (fs_trace fs3) (IndexDirectory (conf t))
                   (indexPath t))).
  set (fs4 := record ev4 fs3).
  assert (same_answers fs fs4) as Ha4.
  { eapply same_answers_trans; [exact Ha3'|apply same_answers_record]. }
  assert (fs_trace fs4 = fs_trace fs ++ tr1 ++ ev2 :: tr3 ++ [ev4]) as Ht4.
  { unfold fs4. cbn. rewrite Ht3', <- !app_assoc. reflexivity. }
  assert (answered_all fs (fs_trace fs) (tr1 ++ ev2 :: tr3 ++ [ev4])) as Han4.
  { replace (tr1 ++ ev2 :: tr3 ++ [ev4]) with ((tr1 ++ ev2 :: tr3) ++ [ev4])
      by (rewrite <- app_assoc; reflexivity).
    apply answered_all_app. split; [exact Han3'|]. cbn. split; [|exact I].
    destruct Ha3' as (_ & _ & Hsy & _). rewrite Hsy, Ht3'. reflexivity. }
  destruct (fs_Symlink fs3 (fs_trace fs3) (IndexDirectory (conf t))
              (indexPath t)) as [err4|] eqn:Hr4; cbn;
    (split; [exact Ha4|]); exists (tr1 ++ ev2 :: tr3 ++ [ev4]);
    (split; [exact Ht4|]); (split; [exact Han4|]).
  - split_and!; auto. exists tr1, tr3. auto.
  - exists tr1, tr3. auto.
Qed.

Lemma Threads_loop_success (J : string → string → string) (I : Z → string)
    (N : error → bool) baseDir configs : ∀ i acc fs threads fs',
  Threads_loop J I N baseDir i configs acc fs = (inl threads, fs') →
  same_answers fs fs' ∧
  ∃ new,
    threads = acc ++ new ∧ length new = length configs ∧
    (∀ k t, new !! k = Some t →
       id t = i + Z.of_nat k ∧ configs !! k = Some (conf t) ∧
       indexPath t = J baseDir (indexPrefix +:+ I (i + Z.of_nat k)) ∧
       packetPath t = J baseDir (packetPrefix +:+ I (i + Z.of_nat k)) ∧
       files t = ∅ ∧ mu t = {| readers := 0; writer := false |}) ∧
    symlinks (fs_trace fs') = symlinks (fs_trace fs) ++ flat_map links_of new.
Proof.
  induction configs as [|c rest IH]; intros i acc fs threads fs' Hrun.
  { cbn in Hrun. injection Hrun as <- <-. split; [apply same_answers_refl|].
    exists []. rewrite !app_nil_r. split_and!; auto.
    intros k t Hk. rewrite lookup_nil in Hk. discriminate Hk. }
  cbn [Threads_loop] in Hrun. cbn zeta in Hrun.
  set (thread := {| id := i; conf := c;
                    indexPath := J baseDir (indexPrefix +:+ I i);
                    packetPath := J baseDir (packetPrefix +:+ I i);
                    files := ∅; mu := {| readers := 0; writer := false |};
                    fileLastSeen := clock_Now fs |}) in *.
  destruct (createSymlinks_cases N thread fs) as (Ha & tr & Htr & _ & Hs).
  destruct (createSymlinks N thread fs) as [[err|] fs1]; [discriminate Hrun|].
  cbn [fst snd] in *.
  destruct (IH _ _ _ _ _ Hrun) as (Ha' & new & -> & Hlen & Hall & Hsym).
  split; [eapply same_answers_trans; eassumption|].
  exists (thread :: new). split_and!.
  - rewrite <- app_assoc. reflexivity.
  - cbn. rewrite Hlen. reflexivity.
  - intros [|k] t Hk; cbn in Hk.
    + injection Hk as <-. cbn. rewrite Z.add_0_r. auto 10.
    + destruct (Hall k t Hk) as (H1 & H2 & H3 & H4 & H5 & H6).
      replace (i + Z.of_nat (S k)) with (i + 1 + Z.of_nat k) by lia.
      cbn. auto 10.
  - rewrite Hsym, Htr, symlinks_app, Hs, <- app_assoc. reflexivity.
Qed.

Lemma Threads_loop_failure (J : string → string → string) (I : Z → string)
    (N : error → bool) baseDir more configs : ∀ i acc fs err fs',
  Threads_loop J I N baseDir i configs acc fs = (inr err, fs') →
  Threads_loop J I N baseDir i (configs ++ more) acc fs = (inr err, fs') ∧
  i ≤ failing_thread err < i + Z.of_nat (length configs).
Proof.
  induction configs as [|c rest IH]; intros i acc fs err fs' Hrun.
  { discriminate Hrun. }
  cbn [Threads_loop app] in Hrun |- *. cbn zeta in Hrun |- *.
  set (thread := {| id := i; conf := c;
                    indexPath := J baseDir (indexPrefix +:+ I i);
                    packetPath := J baseDir (packetPrefix +:+ I i);
                    files := ∅; mu := {| readers := 0; writer := false |};
                    fileLastSeen := clock_Now fs |}) in *.
  destruct (createSymlinks_cases N thread fs) as (_ & tr & _ & _ & Hs).
  destruct (createSymlinks N thread fs) as [[e|] fs1]; cbn [fst snd] in *.
  - injection Hrun as <- <-. split; [reflexivity|].
    cbn [length]. destruct e; cbn; destruct Hs as [-> _]; cbn; lia.
  - destruct (IH _ _ _ _ _ Hrun) as [Hext Hb]. split; [exact Hext|].
    cbn [length]. lia.
Qed.

End SetupFacts.

(** X24. [createSymlinks] works in four stages and stops at the first
    that fails: packet directory, packet link, index directory, index
    link.  The calls it has made on the file system when it returns are
    exactly those of the stages it got to, in this order, each answered
    by the file system at the calls made before it.  A directory stage
    is one [os.Stat] of the stage's own directory, followed, exactly when
    the answer is an error that [os.IsNotExist] accepts, by one
    [os.MkdirAll] of that directory with mode 0700; a link stage is one
    [os.Symlink] from the stage's directory to the thread's packet or
    index path.  The error names the thread, the stage and the
    directory, and carries the error of the call that failed; the answers
    of the file system are not changed. *)
Theorem createSymlinks_stops_at_first_failing_stage
    (os_IsNotExist : error → bool) (t : Thread) (fs : Setup.FS) :
  let e := (Setup.createSymlinks os_IsNotExist t fs).1 in
  let fs' := (Setup.createSymlinks os_IsNotExist t fs).2 in
  let packet_stage := Setup.dir_stage os_IsNotExist (PacketsDirectory (conf t)) in
  let index_stage := Setup.dir_stage os_IsNotExist (IndexDirectory (conf t)) in
  let packet_link :=
    Setup.EvSymlink (PacketsDirectory (conf t)) (packetPath t) in
  let index_link :=
    Setup.EvSymlink (IndexDirectory (conf t)) (indexPath t) in
  Setup.same_answers fs fs' ∧
  ∃ tr,
    Setup.fs_trace fs' = Setup.fs_trace fs ++ tr ∧
    Setup.answered_all fs (Setup.fs_trace fs) tr ∧
    match e with
    | Some (Setup.ErrPacketDirectory i derr) =>
        i = id t ∧ packet_stage tr (Some derr)
    | Some (Setup.ErrPacketSymlink i d err) =>
        i = id t ∧ d = PacketsDirectory (conf t) ∧
        ∃ tr1, packet_stage tr1 None ∧ tr = tr1 ++ [packet_link (Some err)]
    | Some (Setup.ErrIndexDirectory i derr) =>
        i = id t ∧
        ∃ tr1 tr3,
          packet_stage tr1 None ∧ index_stage tr3 (Some derr) ∧
          tr = tr1 ++ packet_link None :: tr3
    | Some (Setup.ErrIndexSymlink i d err) =>
        i = id t ∧ d = IndexDirectory (conf t) ∧
        ∃ tr1 tr3,
          packet_stage tr1 None ∧ index_stage tr3 None ∧
          tr = tr1 ++ packet_link None :: tr3 ++ [index_link (Some err)]
    | None =>
        ∃ tr1 tr3,
          packet_stage tr1 None ∧ index_stage tr3 None ∧
          tr = tr1 ++ packet_link None :: tr3 ++ [index_link None]
    end.
Proof. cbn zeta. apply SetupFacts.createSymlinks_stages. Qed.

(** X25. What [Threads] returns on success: one thread per configuration,
    in order; thread number k has id k, the k-th configuration, the index
    and packet paths IDX<k> and PKT<k> under the base directory, no
    tracked file and a free mutex, so that it is an initial state of the
    thread's life; and the links made are exactly the packet link and the
    index link of each thread, thread after thread. *)
Theorem Threads_builds_fresh_threads
    (filepath_Join : string → string → string) (strconv_Itoa : Z → string)
    (os_IsNotExist : error → bool)
    (configs : list ThreadConfig) (baseDir : string) (fs fs' : Setup.FS)
    (threads : list Thread) :
  Setup.Threads filepath_Join strconv_Itoa os_IsNotExist configs baseDir fs
    = (inl threads, fs') →
  length threads = length configs ∧
  (∀ k t, threads !! k = Some t →
     id t = Z.of_nat k ∧ configs !! k = Some (conf t) ∧
     indexPath t = filepath_Join baseDir ("IDX" +:+ strconv_Itoa (Z.of_nat k)) ∧
     packetPath t = filepath_Join baseDir ("PKT" +:+ strconv_Itoa (Z.of_nat k)) ∧
     files t = ∅ ∧ mu t = {| readers := 0; writer := false |} ∧
     ∀ w, w_closed w = [] →
          Conc.initial {| Conc.sys_state := {| thr := t; world := w |};
                          Conc.sys_lookups := []; Conc.sys_syncs := [] |}) ∧
  Setup.symlinks (Setup.fs_trace fs') =
    Setup.symlinks (Setup.fs_trace fs) ++ flat_map Setup.links_of threads.
Proof.
  intros Hrun. unfold Setup.Threads in Hrun.
  destruct (SetupFacts.Threads_loop_success _ _ _ _ _ _ _ _ _ _ Hrun)
    as (_ & new & -> & Hlen & Hall & Hsym).
  cbn [app]. split_and!; [exact Hlen| |exact Hsym].
  intros k t Hk. destruct (Hall k t Hk) as (H1 & H2 & H3 & H4 & H5 & H6).
  rewrite Z.add_0_l in *. split_and!; auto.
  intros w Hw. unfold Conc.initial. cbn. auto.
Qed.

Lemma Threads_builds_fresh_threads_witness :
  let run := Setup.Threads join digit not_exist two_configs "/base"
               fs_all_ready in
  let threads := match run.1 with inl l => l | inr _ => [] end in
  length threads = length two_configs ∧
  (∀ k t, threads !! k = Some t →
     id t = Z.of_nat k ∧ two_configs !! k = Some (conf t) ∧
     indexPath t = join "/base" ("IDX" +:+ digit (Z.of_nat k)) ∧
     packetPath t = join "/base" ("PKT" +:+ digit (Z.of_nat k)) ∧
     files t = ∅ ∧ mu t = {| readers := 0; writer := false |} ∧
     ∀ w, w_closed w = [] →
          Conc.initial {| Conc.sys_state := {| thr := t; world := w |};
                          Conc.sys_lookups := []; Conc.sys_syncs := [] |}) ∧
  Setup.symlinks (Setup.fs_trace run.2) =
    Setup.symlinks (Setup.fs_trace fs_all_ready)
    ++ flat_map Setup.links_of threads.
Proof.
  cbn zeta.
  apply (Threads_builds_fresh_threads join digit not_exist two_configs "/base"
           fs_all_ready).
  vm_compute. reflexivity.
Defined.

(** X26. [Threads] stops at the first thread whose links cannot be set
    up: when it fails for a list of configurations it fails in the same
    way, with the same error and the same calls made on the file system,
    for every longer list that starts with it (the configurations after
    the failing one are never looked at), and the error names a thread
    within the list. *)
Theorem Threads_stops_at_first_failure
    (filepath_Join : string → string → string) (strconv_Itoa : Z → string)
    (os_IsNotExist : error → bool)
    (configs more : list ThreadConfig) (baseDir : string)
    (fs fs' : Setup.FS) (err : Setup.symlink_error) :
  Setup.Threads filepath_Join strconv_Itoa os_IsNotExist configs baseDir fs
    = (inr err, fs') →
  Setup.Threads filepath_Join strconv_Itoa os_IsNotExist (configs ++ more)
    baseDir fs = (inr err, fs') ∧
  0 ≤ Setup.failing_thread err < Z.of_nat (length configs).
Proof.
  intros Hrun. unfold Setup.Threads in *.
  destruct (SetupFacts.Threads_loop_failure _ _ _ _ more _ _ _ _ _ _ Hrun)
    as [H1 H2].
  split; [exact H1|]. lia.
Qed.

Lemma Threads_stops_at_first_failure_witness :
  let run := Setup.Threads join digit not_exist two_configs "/base"
               fs_no_links in
  let err := Setup.ErrPacketSymlink 0 "/data/pkt0"
               (ErrExt "operation not permitted") in
  Setup.Threads join digit not_exist (two_configs ++ two_configs) "/base"
    fs_no_links = (inr err, run.2) ∧
  0 ≤ Setup.failing_thread err < Z.of_nat (length two_configs).
Proof.
  cbn zeta.
  apply (Threads_stops_at_first_failure join digit not_exist
           two_configs two_configs "/base" fs_no_links).
  vm_compute. reflexivity.
Defined.
